(** * MongoDB -> OpenSearch diff sync: replication and reconciliation engine

    A shallow embedding of the JavaScript services
      - [OpenSearchService]      (services/opensearch.js: bulkIndex,
                                  deleteDocument, getIndexStats),
      - [BulkProcessor]          (services/bulkProcessor.js),
      - [ReconciliationService]  (services/reconciliationService.js),
      - [DocumentCountMonitor]   (services/documentCountMonitor.js),
      - [SyncService]            (services/syncService.js: performFullSync),
    together with the properties of section 8 of the specification.

    Conventions of the embedding.
      - A JavaScript value is a [JValue]; [undefined] is the [None] of an
        [option JValue].  Numbers are the integers only, dates are kept as
        the string they serialise to.
      - The two stores and everything the process can observe of them form
        the [World]; every [await]ed call of a driver is an [IO] action
        that appends an [Event] to the world's trace.
      - [async] functions are computations in [IO]: they return a value,
        throw a [JsError], or run out of the fuel given to an unbounded
        [while] loop ([Diverge], which no [catch] intercepts).
      - The backend's misbehaviour is scripted: [script w] lists, call by
        call, whether the next driver call throws or which bulk items it
        rejects; an exhausted script is a healthy backend.
      - The MongoDB and OpenSearch drivers are libraries, not code of the
        repository: [Collection] and [Client] model the documented
        behaviour of the calls the services make ([countDocuments], [find]
        with [$in], [bulk] with [update] actions, [delete], [search] with
        [search_after], [indices.stats]). *)

From Stdlib Require Import ZArith Ascii String.
From stdpp Require Import gmap strings list sorting pretty.

Set Warnings "-register-all".

Local Open Scope string_scope.
Local Open Scope Z_scope.

(** ** JavaScript values *)

Module Json.

Inductive JValue : Type :=
| JNull
| JBool (b : bool)
| JNum (n : Z)
| JStr (s : string)
| JOid (hex : string)                 (* a BSON ObjectId, by its hex string *)
| JArr (items : list JValue)
| JObj (fields : list (string * JValue)).

(** Objects keep their properties in insertion order. *)
Abbreviation Fields := (list (string * JValue)).

(** [o[k]]: the first property named [k]. *)
Fixpoint jget (k : string) (o : Fields) : option JValue :=
  match o with
  | [] => None
  | (k', v) :: o' => if String.eqb k k' then Some v else jget k o'
  end.

(** [o[k] = v]: overwrite in place, or append a new property. *)
Fixpoint jset (k : string) (v : JValue) (o : Fields) : Fields :=
  match o with
  | [] => [(k, v)]
  | (k', v') :: o' =>
      if String.eqb k k' then (k', v) :: o' else (k', v') :: jset k v o'
  end.

Definition keys (o : Fields) : list string := o.*1.

(** JavaScript truthiness. *)
Definition truthy (v : JValue) : bool :=
  match v with
  | JNull => false
  | JBool b => b
  | JNum n => negb (n =? 0)
  | JStr s => negb (String.eqb s "")
  | JOid _ | JArr _ | JObj _ => true
  end.

(** [a || b] on possibly undefined operands. *)
Definition jor (a : option JValue) (b : option JValue) : option JValue :=
  match a with
  | Some v => if truthy v then a else b
  | None => b
  end.

Definition join (sep : string) (l : list string) : string :=
  match l with
  | [] => ""
  | s :: l' => fold_left (fun acc t => acc +:+ sep +:+ t) l' s
  end.

(** [String(v)], as [Array.prototype.join] applies it to an element:
    [null] gives the empty string. *)
Fixpoint jsString (v : JValue) : string :=
  match v with
  | JNull => ""
  | JBool true => "true"
  | JBool false => "false"
  | JNum n => pretty n
  | JStr s => s
  | JOid h => h
  | JArr l => join "," (map jsString l)
  | JObj _ => "[object Object]"
  end.

(** [v.toString()]; calling it on [null] or [undefined] is a TypeError,
    here [None]. *)
Definition toString (v : option JValue) : option string :=
  match v with
  | None | Some JNull => None
  | Some v => Some (jsString v)
  end.

(** What [JSON.stringify] puts on the wire: an ObjectId serialises to its
    hex string ([toJSON]), everything else structurally. *)
Fixpoint toJSON (v : JValue) : JValue :=
  match v with
  | JOid h => JStr h
  | JArr l => JArr (map toJSON l)
  | JObj o => JObj (map (fun kv => (kv.1, toJSON kv.2)) o)
  | _ => v
  end.

Definition toJSONFields (o : Fields) : Fields :=
  map (fun kv => (kv.1, toJSON kv.2)) o.

(** *** ObjectId strings *)

Definition is_hex (c : ascii) : bool :=
  let n := Ascii.N_of_ascii c in
  ((48 <=? n) && (n <=? 57) || (97 <=? n) && (n <=? 102)
   || (65 <=? n) && (n <=? 70))%N.

Definition hex_lower (c : ascii) : ascii :=
  let n := Ascii.N_of_ascii c in
  if ((65 <=? n) && (n <=? 70))%N then Ascii.ascii_of_N (n + 32) else c.

Definition string_forallb (p : ascii -> bool) (s : string) : bool :=
  forallb p (list_ascii_of_string s).

Definition string_map (f : ascii -> ascii) (s : string) : string :=
  string_of_list_ascii (map f (list_ascii_of_string s)).

(** [new ObjectId(s)]: accepted for a string of 24 hex digits (the value is
    the twelve bytes, so letter case is forgotten); anything else throws.
    Releases of the bson package before 5 also take any string of 12
    bytes; no identifier of the properties below has that length. *)
Definition newObjectId (s : string) : option JValue :=
  if (String.length s =? 24)%nat && string_forallb is_hex s
  then Some (JOid (string_map hex_lower s))
  else None.

(** *** The partial-document merge of the target's [update] action

    The target merges a partial document into the stored one key by key:
    where both sides hold an object the merge recurses, otherwise the new
    value replaces the old one (arrays included). *)

Definition mergeFieldsWith (mv : JValue -> option JValue -> JValue)
  : Fields -> Fields -> Fields :=
  fix go (patch acc : Fields) : Fields :=
    match patch with
    | [] => acc
    | (k, v) :: patch' => go patch' (jset k (mv v (jget k acc)) acc)
    end.

Fixpoint mergeValue (v : JValue) (old : option JValue) : JValue :=
  match v, old with
  | JObj p, Some (JObj t) => JObj (mergeFieldsWith mergeValue p t)
  | _, _ => v
  end.

Definition mergeFields : Fields -> Fields -> Fields :=
  mergeFieldsWith mergeValue.

Arguments mergeValue : simpl never.
Arguments mergeFields : simpl never.

(** Objects have no two properties of one name, at any depth. *)
Fixpoint wf_value (v : JValue) : bool :=
  match v with
  | JArr l => forallb wf_value l
  | JObj o => bool_decide (NoDup (map fst o)) && forallb (fun kv => wf_value kv.2) o
  | _ => true
  end.

Definition wf_fields (o : Fields) : bool := wf_value (JObj o).


(** Structural induction through the nested lists. *)
Section Induction.
Variable P : JValue -> Prop.
Hypothesis HNull : P JNull.
Hypothesis HBool : forall b, P (JBool b).
Hypothesis HNum : forall n, P (JNum n).
Hypothesis HStr : forall s, P (JStr s).
Hypothesis HOid : forall h, P (JOid h).
Hypothesis HArr : forall l, Forall P l -> P (JArr l).
Hypothesis HObj : forall o, Forall (fun kv => P kv.2) o -> P (JObj o).

Fixpoint JValue_nested_ind (v : JValue) : P v :=
  match v with
  | JNull => HNull
  | JBool b => HBool b
  | JNum n => HNum n
  | JStr s => HStr s
  | JOid h => HOid h
  | JArr l =>
      HArr l ((fix go (l : list JValue) : Forall P l :=
                 match l with
                 | [] => @List.Forall_nil _ P
                 | x :: l' => @List.Forall_cons _ P x l' (JValue_nested_ind x) (go l')
                 end) l)
  | JObj o =>
      HObj o ((fix go (o : Fields) : Forall (fun kv => P kv.2) o :=
                 match o with
                 | [] => List.Forall_nil _
                 | kv :: o' =>
                     @List.Forall_cons _ (fun kv => P kv.2) kv o'
                       (JValue_nested_ind kv.2) (go o')
                 end) o)
  end.
End Induction.

End Json.

(** ** The world: both stores, the scripted backend, the trace *)

Module Runtime.
Import Json.

(** A thrown JavaScript error; [statusCode] is the HTTP status a driver
    attaches to a response error. *)
Record JsError := mkError { statusCode : option nat; message : string }.

Definition TypeError : JsError := mkError None "TypeError".

(** One entry of a bulk [update] request: the action line and the document
    line that [bulkIndex] pushes for a source document.  The index name is
    left implicit: the model has the one index the service is bound to. *)
Record BulkAction := mkAction {
  act_id : string;
  act_routing : JValue;
  act_retry_on_conflict : nat;
  act_doc : Fields;
  act_doc_as_upsert : bool
}.

(** The per-item part of a bulk response. *)
Record ErrorInfo := mkErrorInfo { err_type : string }.
Record UpdateResult := mkUpdate { upd_error : option ErrorInfo }.
Record BulkItem := mkItem { item_update : option UpdateResult }.

(** What the backend does with the next driver call. *)
Inductive Fault :=
| NoFault
| Throws (e : JsError)                      (* the call rejects *)
| Rejects (items : list (option string)).   (* a bulk call answers, with
                                               these per-item error types *)

Inductive Event :=
| EvMongoCount
| EvMongoFindIds
| EvMongoFindIn (ids : list JValue)
| EvMongoFindPage (skip limit : nat)
| EvOsStats
| EvOsCount
| EvOsSearch (size : nat) (search_after : option string)
| EvOsBulk (body : list BulkAction)
| EvOsDelete (id : string)
| EvOsExists (id : string)
| EvHttpPost (url : string)
| EvSetTimeout (ms : Z)
| EvSleep (ms : Z).

Record World := mkWorld {
  mongo : list Fields;            (* the source collection, natural order *)
  os : gmap string Fields;        (* the target index: _id -> _source *)
  script : list Fault;
  trace : list Event
}.

Inductive Result (A : Type) :=
| Ok (a : A)
| Err (e : JsError)
| Diverge.
Arguments Ok {A} a.
Arguments Err {A} e.
Arguments Diverge {A}.

Definition IO (A : Type) : Type := World -> Result A * World.

#[global] Instance IO_ret : MRet IO := fun A a w => (Ok a, w).

#[global] Instance IO_bind : MBind IO := fun A B f m w =>
  match m w with
  | (Ok a, w') => f a w'
  | (Err e, w') => (Err e, w')
  | (Diverge, w') => (Diverge, w')
  end.

Definition throw {A} (e : JsError) : IO A := fun w => (Err e, w).
Definition diverge {A} : IO A := fun w => (Diverge, w).
Definition getWorld : IO World := fun w => (Ok w, w).
Definition setOs (st : gmap string Fields) : IO unit :=
  fun w => (Ok tt, mkWorld (mongo w) st (script w) (trace w)).
Definition emit (ev : Event) : IO unit :=
  fun w => (Ok tt, mkWorld (mongo w) (os w) (script w) (trace w ++ [ev])).

(** [try { m } catch (e) { h e }]. *)
Definition tryCatch {A} (m : IO A) (h : JsError -> IO A) : IO A := fun w =>
  match m w with
  | (Err e, w') => h e w'
  | r => r
  end.

(** A driver call: it is recorded, and the backend's script decides whether
    it rejects. *)
Definition driverCall (ev : Event) : IO Fault := fun w =>
  let w' := mkWorld (mongo w) (os w) (tail (script w)) (trace w ++ [ev]) in
  match script w with
  | Throws e :: _ => (Err e, w')
  | f :: _ => (Ok f, w')
  | [] => (Ok NoFault, w')
  end.

(** [await new Promise(resolve => setTimeout(resolve, ms))]. *)
Definition sleep (ms : Z) : IO unit := emit (EvSleep ms).

(** [for (const x of l) await f(x)]. *)
Fixpoint forEach {A} (f : A -> IO unit) (l : list A) : IO unit :=
  match l with
  | [] => mret tt
  | x :: l' => _ ← f x; forEach f l'
  end.

End Runtime.

(** ** The source driver (MongoDB collection) *)

Module Collection.
Import Json Runtime.

(** [$in] compares by BSON type and value; the queries of this program hold
    ObjectIds and strings only. *)
Definition bson_eqb (q : JValue) (v : option JValue) : bool :=
  match q, v with
  | JOid a, Some (JOid b) => String.eqb a b
  | JStr a, Some (JStr b) => String.eqb a b
  | _, _ => false
  end.

(** [collection.countDocuments()]. *)
Definition countDocuments : IO Z :=
  _ ← driverCall EvMongoCount;
  w ← getWorld;
  mret (Z.of_nat (length (mongo w))).

(** [collection.find({}, {projection: {_id: 1}}).toArray()], each result
    given by its [_id]. *)
Definition findIds : IO (list (option JValue)) :=
  _ ← driverCall EvMongoFindIds;
  w ← getWorld;
  mret (map (jget "_id") (mongo w)).

(** The documents a query [{_id: {$in: ids}}] matches, in natural order. *)
Definition matching (ids : list JValue) (docs : list Fields) : list Fields :=
  filter (fun d => existsb (fun q => bson_eqb q (jget "_id" d)) ids) docs.

(** [collection.find({_id: {$in: ids}}).toArray()]. *)
Definition findIn (ids : list JValue) : IO (list Fields) :=
  _ ← driverCall (EvMongoFindIn ids);
  w ← getWorld;
  mret (matching ids (mongo w)).

(** [collection.find(filter, {skip, limit}).toArray()] for the empty
    filter. *)
Definition findPage (skip limit : nat) : IO (list Fields) :=
  _ ← driverCall (EvMongoFindPage skip limit);
  w ← getWorld;
  mret (take limit (drop skip (mongo w))).

End Collection.

(** ** The target driver (OpenSearch client) *)

Module Client.
Import Json Runtime.

Definition notFound : JsError := mkError (Some 404%nat) "Not Found".

(** One [update] action against the index: a partial-document merge when
    the document exists, the document itself when it does not and
    [doc_as_upsert] is set. *)
Definition applyUpdate (a : BulkAction) (st : gmap string Fields)
  : gmap string Fields * BulkItem :=
  let doc := toJSONFields (act_doc a) in
  match st !! act_id a with
  | Some old =>
      (<[act_id a := mergeFields doc old]> st, mkItem (Some (mkUpdate None)))
  | None =>
      if act_doc_as_upsert a
      then (<[act_id a := doc]> st, mkItem (Some (mkUpdate None)))
      else (st, mkItem (Some (mkUpdate
                  (Some (mkErrorInfo "document_missing_exception")))))
  end.

(** The actions of a bulk request are applied in request order; an item the
    backend rejects leaves the index as it is and reports its error. *)
Fixpoint bulkApply (body : list BulkAction) (rej : list (option string))
    (st : gmap string Fields) : gmap string Fields * list BulkItem :=
  match body with
  | [] => (st, [])
  | a :: body' =>
      let r := match head rej with
               | Some (Some ty) =>
                   (st, mkItem (Some (mkUpdate (Some (mkErrorInfo ty)))))
               | _ => applyUpdate a st
               end in
      let r' := bulkApply body' (tail rej) r.1 in
      (r'.1, r.2 :: r'.2)
  end.

(** [client.bulk({body, refresh: false})]. *)
Definition bulk (body : list BulkAction) : IO (list BulkItem) :=
  f ← driverCall (EvOsBulk body);
  w ← getWorld;
  let r := bulkApply body (match f with Rejects l => l | _ => [] end) (os w) in
  _ ← setOs r.1;
  mret r.2.

(** [client.delete({index, id, refresh: false})]: a missing document is a
    404 response error. *)
Definition delete (id : string) : IO unit :=
  _ ← driverCall (EvOsDelete id);
  w ← getWorld;
  match os w !! id with
  | Some _ => setOs (base.delete id (os w))
  | None => throw notFound
  end.

(** The document count of [client.indices.stats] and of [client.count]. *)
Definition stats : IO Z :=
  _ ← driverCall EvOsStats;
  w ← getWorld;
  mret (Z.of_nat (size (os w))).

Definition count : IO Z :=
  _ ← driverCall EvOsCount;
  w ← getWorld;
  mret (Z.of_nat (size (os w))).

Definition exists_ (id : string) : IO bool :=
  _ ← driverCall (EvOsExists id);
  w ← getWorld;
  mret (bool_decide (is_Some (os w !! id))).

(** The identifiers of the index in [sort: [{_id: 'asc'}]] order. *)
Definition sortedIds (st : gmap string Fields) : list string :=
  merge_sort String.le (map fst (map_to_list st)).

Definition after (cursor : option string) (id : string) : bool :=
  match cursor with
  | None => true
  | Some c => String.ltb c id
  end.

(** [client.search] with [size], [_source: false], [match_all], the sort
    above and an optional [search_after]: the next [size] identifiers
    strictly behind the cursor. *)
Definition search (size : nat) (search_after : option string)
  : IO (list string) :=
  _ ← driverCall (EvOsSearch size search_after);
  w ← getWorld;
  mret (take size (filter (fun id => after search_after id = true)
                          (sortedIds (os w)))).

End Client.

(** ** services/opensearch.js *)

Module OpenSearchService.
Import Json Runtime.

(** What [bulkIndex] resolves to; [errors] and [versionConflicts] are absent
    from the early return for an empty input. *)
Record BulkResult := mkBulkResult {
  success : bool;
  processed : nat;
  errors : option nat;
  versionConflicts : option nat
}.

Record DeleteResult := mkDeleteResult { del_success : bool }.

(** The source fields [bulkIndex] copies as they are, in the order of the
    object literal.  A field the source document lacks is [undefined] and
    is dropped when the request is serialised. *)
Definition copiedFields : list string :=
  [ "ad_archive_id"; "library_id"; "page_id"; "page_name"; "advertiser_name";
    "status"; "is_active"; "started_running_on"; "start_date"; "scraped_at";
    "permalink_url"; "redirected_final_url"; "currency"; "keywords";
    "countrySearchedfor"; "search_country"; "country"; "region"; "platforms";
    "publisher_platform"; "creative"; "snapshot";
    "search_query"; "search_media_type"; "search_type"; "categories";
    "page_categories"; "page_like_count"; "end_date"; "collation_id";
    "collation_count"; "contains_digital_created_media";
    "contains_sensitive_content"; "is_profile_page"; "page_is_deleted";
    "page_entity_type"; "entity_type"; "gated_type"; "hide_data_status";
    "is_aaa_eligible"; "targeted_or_reached_countries"; "political_countries" ].

Definition copyField (doc : Fields) (f : string) : Fields :=
  match jget f doc with
  | Some v => [(f, v)]
  | None => []
  end.

(** The callback of [doc.countrySearchedfor_all.map(...)], [None] standing
    for the [null] that the following [filter] removes. *)
Definition normalizeCountry (item : JValue) : option JValue :=
  match item with
  | JStr s => Some (JObj [("country", JStr s); ("is_active", JNull)])
  | JObj o =>
      Some (JObj [("country", default JNull (jor (jget "country" o) (Some JNull)));
                  ("is_active", default JNull (jget "is_active" o))])
  | JArr _ | JOid _ =>
      Some (JObj [("country", JNull); ("is_active", JNull)])
  | JNull | JBool _ | JNum _ => None
  end.

Definition countrySearchedforAll (doc : Fields) : Fields :=
  match jget "countrySearchedfor_all" doc with
  | Some (JArr l) => [("countrySearchedfor_all", JArr (omap normalizeCountry l))]
  | Some v => [("countrySearchedfor_all", v)]
  | None => []
  end.

(** [{...v}]: the own enumerable properties of [v].  (Those of an ObjectId
    are internal to the driver and are not modelled.) *)
Definition spread (v : JValue) : Fields :=
  match v with
  | JObj o => o
  | JArr l => imap (fun i x => (pretty i, x)) l
  | JStr s =>
      imap (fun i c => (pretty i, JStr (String c ""))) (list_ascii_of_string s)
  | _ => []
  end.

Definition urlFilter (doc : Fields) : JValue :=
  match jget "url-filter" doc with
  | Some v =>
      if truthy v then
        let uf := spread v in
        match jget "url-filter-id" uf with
        | Some i =>
            if truthy i then JObj (jset "url-filter-id" (JStr (jsString i)) uf)
            else JObj uf
        | None => JObj uf
        end
      else JNull
  | None => JNull
  end.

(** The [doc] of the document line. *)
Definition indexDoc (docId : string) (doc : Fields) : Fields :=
  ("mongo_id", JStr docId)
  :: concat (map (copyField doc) copiedFields)
  ++ countrySearchedforAll doc
  ++ [ ("url-filter", urlFilter doc);
       ("url-filter-updated-at",
        default JNull (jor (jget "url-filter-updated-at" doc) (Some JNull))) ].

Arguments indexDoc : simpl never.

(** One turn of the loop that fills [body]; [None] when [doc._id.toString()]
    throws. *)
Definition bulkEntry (doc : Fields) : option BulkAction :=
  docId ← toString (jget "_id" doc);
  Some (mkAction docId
          (default (JStr docId)
             (jor (jor (jget "page_id" doc) (jget "countrySearchedfor" doc))
                  (Some (JStr docId))))
          3
          (indexDoc docId doc)
          true).

Definition hasError (item : BulkItem) : option string :=
  u ← item_update item; e ← upd_error u; Some (err_type e).

Definition isVersionConflict (ty : string) : bool :=
  String.eqb ty "version_conflict_engine_exception".

Definition bulkIndex (documents : list Fields) : IO BulkResult :=
  match documents with
  | [] => mret (mkBulkResult true 0 None None)
  | _ =>
      match mapM bulkEntry documents with
      | None => throw TypeError
      | Some body =>
          items ← Client.bulk body;
          let errs := omap hasError items in
          let versionConflictErrors := filter (fun ty => isVersionConflict ty = true) errs in
          let actualErrors := filter (fun ty => isVersionConflict ty = false) errs in
          mret (mkBulkResult true (length documents)
                  (Some (length actualErrors))
                  (Some (length versionConflictErrors)))
      end
  end.

Definition deleteDocument (docId : string) : IO DeleteResult :=
  tryCatch
    (_ ← Client.delete docId; mret (mkDeleteResult true))
    (fun error =>
       if bool_decide (statusCode error = Some 404%nat)
       then mret (mkDeleteResult true)
       else throw error).

Record IndexStats := mkIndexStats { docs_count : Z }.

Definition getIndexStats : IO IndexStats :=
  n ← Client.stats; mret (mkIndexStats n).

End OpenSearchService.

(** ** services/bulkProcessor.js *)

Module BulkProcessor.
Import Json Runtime.

Record QueueItem := mkQueueItem { document : Fields; operation : string }.

Record Stats := mkStats { processed : nat; errors : nat }.

(** The processor object; [batchSize] is [config.sync.batchSize], any
    non-zero integer that [parseInt] produced. *)
Record t := mkProcessor {
  batchSize : Z;
  queue : list QueueItem;
  processing : bool;
  stats : Stats
}.

Definition isDelete (item : QueueItem) : bool := String.eqb (operation item) "delete".

(** One [attempt] of the retry loop: the body of its [try]. *)
Definition attemptBatch (batch : list QueueItem) : IO unit :=
  let documents := map document (List.filter (fun i => negb (isDelete i)) batch) in
  match mapM (fun i => toString (jget "_id" (document i)))
             (List.filter isDelete batch) with
  | None => throw TypeError
  | Some deleteIds =>
      _ ← (if (0 <? length documents)%nat
           then _ ← OpenSearchService.bulkIndex documents; mret tt
           else mret tt);
      forEach (fun docId => _ ← OpenSearchService.deleteDocument docId; mret tt)
              deleteIds
  end.

(** The [for (attempt = 1; attempt <= maxRetries; attempt++)] loop, entered
    at [attempt] with [remaining] turns to go; [throw lastError] once it is
    left. *)
Fixpoint retryLoop (batch : list QueueItem) (maxRetries : nat)
    (remaining attempt : nat) (lastError : JsError) : IO unit :=
  match remaining with
  | O => throw lastError
  | S remaining' =>
      tryCatch (attemptBatch batch)
        (fun error =>
           _ ← (if (attempt <? maxRetries)%nat
                then sleep (2 ^ Z.of_nat attempt * 1000)
                else mret tt);
           retryLoop batch maxRetries remaining' (S attempt) error)
  end.

(** With no attempt made [lastError] is [undefined]; the loop is only ever
    called with the default [maxRetries = 3]. *)
Definition processBatchWithRetry (batch : list QueueItem) : IO unit :=
  retryLoop batch 3 3 1 (mkError None "undefined").

(** [queue.splice(0, n)]: the removed prefix and what stays; a negative
    count removes nothing. *)
Definition splice0 {A} (n : Z) (q : list A) : list A * list A :=
  (take (Z.to_nat n) q, drop (Z.to_nat n) q).

Definition processBatch (this : t) : IO t :=
  if processing this || (length (queue this) =? 0)%nat then mret this
  else
    let '(batch, rest) := splice0 (batchSize this) (queue this) in
    tryCatch
      (_ ← processBatchWithRetry batch;
       mret (mkProcessor (batchSize this) rest false
               (mkStats (processed (stats this) + length batch)
                        (errors (stats this)))))
      (fun error =>
         mret (mkProcessor (batchSize this) (batch ++ rest) false
                 (mkStats (processed (stats this))
                          (errors (stats this) + length batch)))).

Definition enqueue (this : t) (items : list QueueItem) : t :=
  mkProcessor (batchSize this) (queue this ++ items) (processing this) (stats this).

Definition thresholdFlush (this : t) : IO t :=
  if (batchSize this <=? Z.of_nat (length (queue this))) then processBatch this
  else mret this.

Definition addDocument (doc : Fields) (op : string) (this : t) : IO t :=
  thresholdFlush (enqueue this [mkQueueItem doc op]).

Definition addDocuments (docs : list Fields) (op : string) (this : t) : IO t :=
  thresholdFlush (enqueue this (map (fun d => mkQueueItem d op) docs)).

(** [while (this.queue.length > 0) await this.processBatch()]. *)
Fixpoint flush (fuel : nat) (this : t) : IO t :=
  if (0 <? length (queue this))%nat then
    match fuel with
    | O => diverge
    | S fuel' => this' ← processBatch this; flush fuel' this'
    end
  else mret this.

(** [splitLargeBatch(documents)].  [estimateDocumentSize] is the byte
    length of the document's JSON text; the loop only adds and compares
    the sizes, so it is kept a parameter.  [batchSizeBytes] is
    [config.sync.batchSizeBytes]. *)
Section Split.
Variable estimateDocumentSize : Fields -> Z.

(** The three variables of the loop. *)
Record SplitState := mkSplit {
  batches : list (list Fields);
  currentBatch : list Fields;
  currentBatchSize : Z
}.

(** One turn of [for (const doc of documents)]. *)
Definition splitStep (batchSize batchSizeBytes : Z) (st : SplitState) (doc : Fields)
  : SplitState :=
  let docSize := estimateDocumentSize doc in
  let st1 :=
    if (batchSizeBytes <? currentBatchSize st + docSize)
       || (batchSize <=? Z.of_nat (length (currentBatch st)))
    then
      if (0 <? length (currentBatch st))%nat
      then mkSplit (batches st ++ [currentBatch st]) [] 0
      else st
    else st in
  mkSplit (batches st1) (currentBatch st1 ++ [doc]) (currentBatchSize st1 + docSize).

Definition splitLargeBatch (batchSize batchSizeBytes : Z) (documents : list Fields)
  : list (list Fields) :=
  let st := fold_left (splitStep batchSize batchSizeBytes) documents (mkSplit [] [] 0) in
  if (0 <? length (currentBatch st))%nat
  then (batches st ++ [currentBatch st])%list
  else batches st.

End Split.

End BulkProcessor.

(** ** services/reconciliationService.js *)

Module ReconciliationService.
Import Json Runtime.

Record Stats := mkStats {
  totalChecks : nat;
  totalSyncs : nat;
  documentsSynced : nat;
  errors : nat
}.

Record t := mkService { isRunning : bool; stats : Stats }.

(** The object [checkAndSync] resolves to; a property the branch at hand
    does not set is [None]. *)
Record CheckResult := mkResult {
  success : bool;
  inSync : option bool;
  mongoCount : option Z;
  opensearchCount : option Z;
  difference : option Z;
  synced : option nat;
  missingCount : option nat;
  orphanedDocs : option Z;
  error : option string
}.

(** [new Set(array)]: first occurrences, in order. *)
Definition newSet (l : list string) : list string :=
  fold_left (fun acc x => if bool_decide (x ∈ acc) then acc else (acc ++ [x])%list) l [].

(** The [while (true)] loop of [getAllOpenSearchIds], one page of 1000
    identifiers a turn. *)
Fixpoint scanLoop (fuel : nat) (ids : gset string) (searchAfter : option string)
  : IO (gset string) :=
  match fuel with
  | O => diverge
  | S fuel' =>
      hits ← Client.search 1000 searchAfter;
      match last hits with
      | None => mret ids
      | Some lastHit => scanLoop fuel' (ids ∪ list_to_set hits) (Some lastHit)
      end
  end.

Definition getAllOpenSearchIds (fuel : nat) : IO (gset string) :=
  scanLoop fuel ∅ None.

(** [batchIds.map(id => { try { return new ObjectId(id) } catch (e) { return id } })]. *)
Definition toObjectIds (batchIds : list string) : list JValue :=
  map (fun id => default (JStr id) (newObjectId id)) batchIds.

(** The [for (i = 0; i < ids.length; i += batchSize)] loop of
    [syncDocumentsByIds], entered at [i] with [synced] so far. *)
Fixpoint syncLoop (turns : nat) (ids : list string) (i synced : nat) : IO nat :=
  if (i <? length ids)%nat then
    match turns with
    | O => diverge
    | S turns' =>
        let batchIds := take 100 (drop i ids) in
        synced' ←
          tryCatch
            (documents ← Collection.findIn (toObjectIds batchIds);
             synced' ←
               (if (0 <? length documents)%nat
                then _ ← OpenSearchService.bulkIndex documents;
                     mret (synced + length documents)%nat
                else mret synced);
             _ ← sleep 200;
             mret synced')
            (fun error => mret synced);
        syncLoop turns' ids (i + 100) synced'
    end
  else mret synced.

(** The loop advances by 100 a turn, so [length ids] turns always do. *)
Definition syncDocumentsByIds (ids : list string) : IO nat :=
  syncLoop (length ids) ids 0 0.

Definition syncMissingDocuments (fuel : nat) (this : t) : IO (CheckResult * t) :=
  mongoIds ← Collection.findIds;
  match mapM toString mongoIds with
  | None => throw TypeError
  | Some idStrings =>
      let mongoIdSet := newSet idStrings in
      osIdSet ← getAllOpenSearchIds fuel;
      let missingIds := filter (fun id => id ∉ osIdSet) mongoIdSet in
      if (length missingIds =? 0)%nat then
        mret (mkResult true (Some true) None None None (Some 0%nat) (Some 0%nat)
                None None, this)
      else
        synced ← syncDocumentsByIds missingIds;
        mret (mkResult true (Some true) None None None (Some synced)
                (Some (length missingIds)) None None,
              mkService (isRunning this)
                (mkStats (totalChecks (stats this))
                         (S (totalSyncs (stats this)))
                         (documentsSynced (stats this) + synced)
                         (errors (stats this))))
  end.

(** [checkAndSync]; [None] is the [undefined] of the early [return]. *)
Definition checkAndSync (fuel : nat) (this : t) : IO (option CheckResult * t) :=
  if negb (isRunning this) then mret (None, this)
  else
    let this1 :=
      mkService (isRunning this)
        (mkStats (S (totalChecks (stats this))) (totalSyncs (stats this))
                 (documentsSynced (stats this)) (errors (stats this))) in
    tryCatch
      (mongoCount ← Collection.countDocuments;
       osStats ← OpenSearchService.getIndexStats;
       let osCount := OpenSearchService.docs_count osStats in
       let difference := mongoCount - osCount in
       if difference =? 0 then
         mret (Some (mkResult true (Some true) (Some mongoCount) (Some osCount)
                       (Some 0) (Some 0%nat) None None None), this1)
       else if 0 <? difference then
         r ← syncMissingDocuments fuel this1;
         mret (Some r.1, r.2)
       else
         mret (Some (mkResult true (Some false) (Some mongoCount) (Some osCount)
                       (Some difference) (Some 0%nat) None
                       (Some (Z.abs difference)) None), this1))
      (fun e =>
         mret (Some (mkResult false None None None None None None None
                       (Some (message e))),
               mkService (isRunning this1)
                 (mkStats (totalChecks (stats this1)) (totalSyncs (stats this1))
                          (documentsSynced (stats this1))
                          (S (errors (stats this1)))))).

End ReconciliationService.

(** ** services/syncService.js: the full sync *)

Module SyncService.
Import Json Runtime.

(** What [performFullSync] resolves to ([successRate], a formatted
    fraction, is left out). *)
Record FullSyncResult := mkFullSync {
  success : bool;
  processed : nat;
  errors : nat;
  versionConflicts : nat
}.

(** [mongodbService.findDocuments({}, {limit, skip})]. *)
Definition findDocuments (limit skip : nat) : IO (list Fields) :=
  Collection.findPage skip (if (limit =? 0)%nat then 1000%nat else limit).

(** The [while (true)] loop over the pages. *)
Fixpoint pageLoop (fuel : nat) (batchSize skip : nat) (acc : FullSyncResult)
  : IO FullSyncResult :=
  match fuel with
  | O => diverge
  | S fuel' =>
      documents ← findDocuments batchSize skip;
      if (length documents =? 0)%nat then mret acc
      else
        acc' ←
          tryCatch
            (result ← OpenSearchService.bulkIndex documents;
             mret (mkFullSync true
                     (processed acc + length documents)
                     (errors acc + default 0%nat (OpenSearchService.errors result))
                     (versionConflicts acc
                      + default 0%nat (OpenSearchService.versionConflicts result))))
            (fun error =>
               mret (mkFullSync true (processed acc)
                       (errors acc + length documents) (versionConflicts acc)));
        _ ← sleep 200;
        pageLoop fuel' batchSize (skip + length documents) acc'
  end.

(** [performFullSync({batchSize})] with the empty filter. *)
Definition performFullSync (fuel : nat) (batchSize : nat) : IO FullSyncResult :=
  _ ← Collection.countDocuments;
  pageLoop fuel (if (batchSize =? 0)%nat then 100%nat else batchSize) 0
           (mkFullSync true 0 0 0).

End SyncService.

(** ** services/documentCountMonitor.js *)

Module DocumentCountMonitor.
Import Json Runtime.

Record Stats := mkStats {
  checksPerformed : nat;
  mismatchesDetected : nat;
  autoSyncTriggered : nat
}.

Record t := mkMonitor {
  autoSyncEnabled : bool;
  autoSyncThreshold : Z;
  stats : Stats
}.

Record CountCheck := mkCountCheck {
  mongodb : Z;
  opensearch : Z;
  difference : Z;
  isMatch : bool;
  triggered : nat          (* [autoSyncTriggered: this.stats.autoSyncTriggered] *)
}.

Definition fullSyncUrl : string := "/api/sync/full-sync".

Definition getMongoDBCount : IO Z := Collection.countDocuments.
Definition getOpenSearchCount : IO Z := Client.count.

(** [Promise.all([a, b])]: both calls are under way before either settles. *)
Definition promiseAll2 {A B} (a : IO A) (b : IO B) : IO (A * B) := fun w =>
  match a w with
  | (Ok x, w1) =>
      match b w1 with
      | (Ok y, w2) => (Ok (x, y), w2)
      | (Err e, w2) => (Err e, w2)
      | (Diverge, w2) => (Diverge, w2)
      end
  | (Err e, w1) =>
      match b w1 with
      | (Diverge, w2) => (Diverge, w2)
      | (_, w2) => (Err e, w2)
      end
  | (Diverge, w1) => (Diverge, w1)
  end.

(** The diagnostic sample: five source documents and whether the target
    has them; every failure stays inside. *)
Definition logDetailedMismatchInfo : IO unit :=
  tryCatch
    (sampleDocs ← Collection.findPage 0 5;
     match mapM (fun d => toString (jget "_id" d)) sampleDocs with
     | None => throw TypeError
     | Some sampleIds =>
         forEach (fun id =>
                    tryCatch (_ ← Client.exists_ id; mret tt)
                             (fun error => mret tt))
                 sampleIds
     end)
    (fun error => mret tt).

(** [axios.post(syncUrl, {batchSize: 1000, ...})]: the request reaches the
    route [POST /api/sync/full-sync] of the same process, which runs the
    full sync and answers 500 when that throws. *)
Definition postFullSync (fuel : nat) : IO SyncService.FullSyncResult :=
  _ ← driverCall (EvHttpPost fullSyncUrl);
  tryCatch (SyncService.performFullSync fuel 1000)
           (fun error => throw (mkError (Some 500%nat) (message error))).

Definition bumpTriggered (this : t) : t :=
  mkMonitor (autoSyncEnabled this) (autoSyncThreshold this)
    (mkStats (checksPerformed (stats this)) (mismatchesDetected (stats this))
             (S (autoSyncTriggered (stats this)))).

(** [triggerAutoSync]: the counter moves first; the follow-up check is only
    scheduled, 30 seconds ahead. *)
Definition triggerAutoSync (fuel : nat) (this : t) : IO t :=
  let this' := bumpTriggered this in
  tryCatch
    (_ ← postFullSync fuel;
     _ ← emit (EvSetTimeout 30000);
     mret this')
    (fun error => mret this').

Definition performCountCheck (fuel : nat) (this : t) : IO (CountCheck * t) :=
  counts ← promiseAll2 getMongoDBCount getOpenSearchCount;
  let mongoCount := counts.1 in
  let opensearchCount := counts.2 in
  let difference := Z.abs (mongoCount - opensearchCount) in
  let isMatch := difference =? 0 in
  let this1 :=
    mkMonitor (autoSyncEnabled this) (autoSyncThreshold this)
      (mkStats (S (checksPerformed (stats this)))
               (mismatchesDetected (stats this))
               (autoSyncTriggered (stats this))) in
  this2 ←
    (if isMatch then mret this1
     else
       let this1' :=
         mkMonitor (autoSyncEnabled this1) (autoSyncThreshold this1)
           (mkStats (checksPerformed (stats this1))
                    (S (mismatchesDetected (stats this1)))
                    (autoSyncTriggered (stats this1))) in
       _ ← logDetailedMismatchInfo;
       if autoSyncEnabled this1' && (autoSyncThreshold this1' <? difference)
       then triggerAutoSync fuel this1'
       else mret this1');
  mret (mkCountCheck mongoCount opensearchCount difference isMatch
          (autoSyncTriggered (stats this2)),
        this2).

End DocumentCountMonitor.

(** ** services/syncService.js: the change-stream path *)

Module SyncStream.
Import Json Runtime.

Record Stats := mkStats {
  documentsProcessed : nat;
  documentsSkipped : nat;
  errors : nat
}.

(** The service object, as far as the change stream touches it. *)
Record t := mkSync { bulkProcessor : BulkProcessor.t; stats : Stats }.

(** A change event; [None] is a [fullDocument] or [documentKey] that is
    [null] or [undefined]. *)
Record Change := mkChange {
  operationType : string;
  fullDocument : option Fields;
  documentKey : option Fields
}.

Definition processedOne (bp : BulkProcessor.t) (this : t) : t :=
  mkSync bp (mkStats (S (documentsProcessed (stats this)))
                     (documentsSkipped (stats this)) (errors (stats this))).

Definition skippedOne (this : t) : t :=
  mkSync (bulkProcessor this)
         (mkStats (documentsProcessed (stats this))
                  (S (documentsSkipped (stats this))) (errors (stats this))).

(** [{ _id: documentKey._id }]. *)
Definition keyDocument (documentKey : Fields) : Fields :=
  match jget "_id" documentKey with
  | Some v => [("_id", v)]
  | None => []
  end.

(** [handleChange(change)].  The message of [logger.debug] reads
    [documentKey._id] first, a TypeError when the event has no key. *)
Definition handleChange (change : Change) (this : t) : IO t :=
  match documentKey change with
  | None => throw TypeError
  | Some key =>
      let op := operationType change in
      if String.eqb op "insert" || String.eqb op "update" || String.eqb op "replace"
      then
        match fullDocument change with
        | Some doc =>
            bp ← BulkProcessor.addDocument doc "upsert" (bulkProcessor this);
            mret (processedOne bp this)
        | None => mret (skippedOne this)
        end
      else if String.eqb op "delete" then
        bp ← BulkProcessor.addDocument (keyDocument key) "delete" (bulkProcessor this);
        mret (processedOne bp this)
      else mret (skippedOne this)
  end.

(** The ['change'] listener of [startChangeStream].  [handleChange] can
    only throw before it reaches the processor, so the handler finds the
    service as it was. *)
Definition onChange (change : Change) (this : t) : IO t :=
  tryCatch (handleChange change this)
    (fun error =>
       mret (mkSync (bulkProcessor this)
               (mkStats (documentsProcessed (stats this))
                        (documentsSkipped (stats this))
                        (S (errors (stats this)))))).

(** [syncService.bulkProcessor.flush()], as the route [POST /flush] and
    [stop] call it. *)
Definition flushPending (fuel : nat) (this : t) : IO t :=
  bp ← BulkProcessor.flush fuel (bulkProcessor this);
  mret (mkSync bp (stats this)).

End SyncStream.

(** ** Vocabulary of the statements *)

Module Observe.
Import Json Runtime.

(** The world a computation leaves behind, and what it produced. *)
Definition exec {A} (m : IO A) (w : World) : World := (m w).2.
Definition outcome {A} (m : IO A) (w : World) : Result A := (m w).1.

(** The backend answers the next [n] driver calls (it may still reject
    items of a bulk call). *)
Definition answers (n : nat) (w : World) : Prop :=
  Forall (fun f => forall e, f <> Throws e) (take n (script w)).

(** The backend is healthy from here on. *)
Definition healthy (w : World) : Prop := script w = [].

(** The world right after a driver call [ev] that was answered. *)
Definition called (ev : Event) (w : World) : World :=
  mkWorld (mongo w) (os w) (tail (script w)) (trace w ++ [ev]).

(** The per-item rejections scripted for the next call, one entry per bulk
    item. *)
Definition rejections (w : World) : list (option string) :=
  match script w with
  | Rejects l :: _ => l
  | _ => []
  end.

(** The identifier string of a source document, [doc._id.toString()]. *)
Definition idOf (doc : Fields) : option string := toString (jget "_id" doc).

(** The document as [bulkIndex] puts it on the wire for identifier [id]. *)
Definition wireDoc (id : string) (doc : Fields) : Fields :=
  toJSONFields (OpenSearchService.indexDoc id doc).

(** What one accepted upsert of [doc] leaves stored under [id], given what
    was stored before. *)
Definition upserted (id : string) (doc : Fields) (old : option Fields) : Fields :=
  match old with
  | Some o => mergeFields (wireDoc id doc) o
  | None => wireDoc id doc
  end.

(** The target after the accepted upserts of [docs], in order. *)
Definition upsertAll (docs : list Fields) (st : gmap string Fields)
  : gmap string Fields :=
  foldl (fun st d => match idOf d with
                     | Some id => <[id := upserted id d (st !! id)]> st
                     | None => st
                     end) st docs.

(** Every key [indexDoc] can write, in the order of the object literal. *)
Definition indexDocKeys : list string :=
  "mongo_id" :: (OpenSearchService.copiedFields
                 ++ ["countrySearchedfor_all"; "url-filter";
                     "url-filter-updated-at"])%list.

(** A canonical ObjectId string: 24 lower-case hex digits. *)
Definition is_lower_hex (c : ascii) : bool :=
  let n := Ascii.N_of_ascii c in
  ((48 <=? n) && (n <=? 57) || (97 <=? n) && (n <=? 102))%N.

Definition is_oid_string (s : string) : bool :=
  (String.length s =? 24)%nat && string_forallb is_lower_hex s.

Definition has_oid (doc : Fields) : bool :=
  match jget "_id" doc with
  | Some (JOid h) => is_oid_string h
  | _ => false
  end.

(** The source collection as MongoDB keeps it: every [_id] an ObjectId, no
    two documents with the same one. *)
Definition wf_source (docs : list Fields) : bool :=
  forallb has_oid docs && bool_decide (NoDup (omap idOf docs)).

(** The identifier strings of the source documents. *)
Definition sourceIds (w : World) : list string := omap idOf (mongo w).

(** Every target identifier is a source identifier. *)
Definition target_within_source (w : World) : bool :=
  bool_decide (dom (os w) ⊆ list_to_set (sourceIds w)).

(** *** Sample data for the examples *)

(** The ObjectId string of a number: its 24 hex digits. *)
Definition hexDigit (n : N) : ascii :=
  Ascii.ascii_of_N (if (n <? 10)%N then 48 + n else 87 + n)%N.

Fixpoint hexDigits (k : nat) (n : N) (acc : string) : string :=
  match k with
  | O => acc
  | S k' => hexDigits k' (n / 16)%N (String (hexDigit (n mod 16)%N) acc)
  end.

Definition oidOf (n : nat) : string := hexDigits 24 (N.of_nat n) "".

Arguments oidOf : simpl never.

(** An ad document with ObjectId number [n] and the given status. *)
Definition sampleAd (n : nat) (status : string) : Fields :=
  [("_id", JOid (oidOf n)); ("page_id", JStr "112978047824911");
   ("status", JStr status);
   ("platforms", JObj [("facebook", JBool true); ("instagram", JBool false)]);
   ("countrySearchedfor_all", JArr [JStr "FR"])].

Definition sampleAds (n : nat) : list Fields :=
  map (fun i => sampleAd i "Active") (seq 0 n).

(** The target holding exactly the given source documents. *)
Definition indexOf (docs : list Fields) : gmap string Fields :=
  upsertAll docs ∅.

(** The sizes of the bulk requests in a trace, and its full-sync requests. *)
Definition bulkSizes (tr : list Event) : list nat :=
  omap (fun ev => match ev with EvOsBulk body => Some (length body) | _ => None end) tr.

Definition fullSyncRequests (tr : list Event) : nat :=
  length (List.filter (fun ev => match ev with EvHttpPost _ => true | _ => false end) tr).

(** The identifiers a trace upserts, bulk request by bulk request. *)
Definition bulkIds (tr : list Event) : list string :=
  concat (omap (fun ev => match ev with
                          | EvOsBulk body => Some (map act_id body)
                          | _ => None
                          end) tr).

(** Any event but a bulk request. *)
Definition notBulk (ev : Event) : Prop :=
  match ev with
  | EvOsBulk _ => False
  | _ => True
  end.

(** The calls a trace makes on the target that can change it. *)
Definition targetWrites (tr : list Event) : list Event :=
  List.filter (fun ev => match ev with
                         | EvOsBulk _ | EvOsDelete _ => true
                         | _ => false
                         end) tr.

(** [m] only appends to the trace, and only events that [allowed] admits. *)
Definition emits (allowed : Event -> Prop) {A} (m : IO A) : Prop :=
  forall w, exists new,
    trace (m w).2 = (trace w ++ new)%list /\ Forall allowed new.

(** [m] never throws: it returns or runs out of fuel. *)
Definition no_throw {A} (m : IO A) : Prop :=
  forall w e, (m w).1 <> Err e.

(** Any event but a request for a full sync. *)
Definition notPost (ev : Event) : Prop :=
  match ev with
  | EvHttpPost _ => False
  | _ => True
  end.

(** [m] always settles: it returns or throws, whatever the fuel. *)
Definition settles {A} (m : IO A) : Prop :=
  forall w, (m w).1 <> Diverge.

(** A bulk request of between 1 and [n] documents; any other event. *)
Definition boundedBulk (n : nat) (ev : Event) : Prop :=
  match ev with
  | EvOsBulk body => (1 <= length body <= n)%nat
  | _ => True
  end.

(** What a batch asks of the target: its upserts, then its deletes. *)
Definition upsertsOf (batch : list BulkProcessor.QueueItem) : list Fields :=
  map BulkProcessor.document
      (List.filter (fun i => negb (BulkProcessor.isDelete i)) batch).

Definition deletesOf (batch : list BulkProcessor.QueueItem) : list string :=
  omap (fun i => idOf (BulkProcessor.document i))
       (List.filter BulkProcessor.isDelete batch).

Definition batchEffect (batch : list BulkProcessor.QueueItem)
    (st : gmap string Fields) : gmap string Fields :=
  foldl (fun st id => base.delete id st) (upsertAll (upsertsOf batch) st)
        (deletesOf batch).

(** The target calls one attempt at a batch makes when all are answered. *)
Definition batchCalls (batch : list BulkProcessor.QueueItem) : list Event :=
  (match mapM OpenSearchService.bulkEntry (upsertsOf batch) with
   | Some (a :: body) => [EvOsBulk (a :: body)]
   | _ => []
   end ++ map EvOsDelete (deletesOf batch))%list.

(** Every queued operation names its document. *)
Definition identified (q : list BulkProcessor.QueueItem) : Prop :=
  Forall (fun i => is_Some (idOf (BulkProcessor.document i))) q.

(** A client of the processor: the calls the change-feed consumer, the
    periodic timer and the shutdown path make on it. *)
Inductive Op :=
| OpAdd (doc : Fields) (operation : string)
| OpAddMany (docs : list Fields) (operation : string)
| OpTick                                   (* the timer's [processBatch] *)
| OpFlush (fuel : nat).

Definition runOp (op : Op) (this : BulkProcessor.t) : IO BulkProcessor.t :=
  match op with
  | OpAdd doc o => BulkProcessor.addDocument doc o this
  | OpAddMany docs o => BulkProcessor.addDocuments docs o this
  | OpTick => BulkProcessor.processBatch this
  | OpFlush fuel => BulkProcessor.flush fuel this
  end.

Fixpoint runOps (ops : list Op) (this : BulkProcessor.t) : IO BulkProcessor.t :=
  match ops with
  | [] => mret this
  | op :: ops' => this' ← runOp op this; runOps ops' this'
  end.

(** The operations a client call puts in the queue. *)
Definition added (op : Op) : list BulkProcessor.QueueItem :=
  match op with
  | OpAdd doc o => [BulkProcessor.mkQueueItem doc o]
  | OpAddMany docs o => map (fun d => BulkProcessor.mkQueueItem d o) docs
  | OpTick | OpFlush _ => []
  end.

Definition isFlush (op : Op) : bool :=
  match op with
  | OpFlush _ => true
  | _ => false
  end.

(** From [this] to [this'] the processor took [k] operations off the
    front of its queue, [extra] having been appended behind, and counted
    them as processed. *)
Definition advanced (this this' : BulkProcessor.t)
    (extra : list BulkProcessor.QueueItem) : Prop :=
  exists k,
    BulkProcessor.queue this' = drop k (BulkProcessor.queue this ++ extra)
    /\ BulkProcessor.processed (BulkProcessor.stats this')
       = (BulkProcessor.processed (BulkProcessor.stats this) + k)%nat
    /\ (k <= length (BulkProcessor.queue this ++ extra))%nat
    /\ BulkProcessor.processing this' = false.

(** *** Batches of [splitLargeBatch] *)

(** The summed size of a batch. *)
Definition totalSize (size : Fields -> Z) (b : list Fields) : Z :=
  foldr (fun d acc => size d + acc) 0 b.

(** A batch within both limits, or a single document. *)
Definition withinLimits (size : Fields -> Z) (batchSize batchSizeBytes : Z)
    (b : list Fields) : Prop :=
  length b = 1%nat
  \/ (Z.of_nat (length b) <= batchSize /\ totalSize size b <= batchSizeBytes).

(** The first document of [next] did not fit into [b]. *)
Definition closedBy (size : Fields -> Z) (batchSize batchSizeBytes : Z)
    (b next : list Fields) : Prop :=
  exists d, head next = Some d
            /\ (batchSizeBytes < totalSize size b + size d
                \/ batchSize <= Z.of_nat (length b)).

(** Every two neighbours of a list are related. *)
Fixpoint adjacent {A} (R : A -> A -> Prop) (l : list A) : Prop :=
  match l with
  | x :: (y :: _) as l' => R x y /\ adjacent R l'
  | _ => True
  end.

(** What the loop of [splitLargeBatch] keeps true of its variables. *)
Record split_inv (size : Fields -> Z) (batchSize batchSizeBytes : Z)
    (st : BulkProcessor.SplitState) : Prop := {
  inv_size : BulkProcessor.currentBatchSize st
             = totalSize size (BulkProcessor.currentBatch st);
  inv_start : BulkProcessor.currentBatch st = [] -> BulkProcessor.batches st = [];
  inv_nonempty : Forall (fun b => b <> []) (BulkProcessor.batches st);
  inv_bound : Forall (withinLimits size batchSize batchSizeBytes)
                     (BulkProcessor.batches st);
  inv_current : BulkProcessor.currentBatch st = []
                \/ withinLimits size batchSize batchSizeBytes
                                (BulkProcessor.currentBatch st);
  inv_closed : adjacent (closedBy size batchSize batchSizeBytes)
                 (BulkProcessor.batches st ++ [BulkProcessor.currentBatch st])
}.

(** *** Requests and reads *)

(** A normalised entry of [countrySearchedfor_all]. *)
Definition countryEntry (country is_active : JValue) : JValue :=
  JObj [("country", country); ("is_active", is_active)].

(** A page request of the identifier scan. *)
Definition isScanPage (ev : Event) : Prop :=
  exists cursor, ev = EvOsSearch 1000 cursor.

(** The requests a scan of [n] identifiers makes: the full and partial
    pages, then the empty page that ends it. *)
Definition scanPages (n : nat) : nat := ((n + 999) / 1000 + 1)%nat.

(** Any event but a write to the target. *)
Definition notWrite (ev : Event) : Prop :=
  match ev with
  | EvOsBulk _ | EvOsDelete _ => False
  | _ => True
  end.

(** [m] leaves the target as it is and sends it no write. *)
Definition readOnly {A} (m : IO A) : Prop :=
  emits notWrite m /\ forall w, os (exec m w) = os w.

(** When [m] throws, it has not written to the target. *)
Definition failsClean {A} (m : IO A) : Prop :=
  forall w e, outcome m w = Err e ->
    os (exec m w) = os w
    /\ exists new, trace (exec m w) = (trace w ++ new)%list /\ Forall notWrite new.

(** Whatever [m] returns satisfies [P]. *)
Definition ensures {A} (P : A -> Prop) (m : IO A) : Prop :=
  forall w a, outcome m w = Ok a -> P a.

(** [m] leaves the source collection as it is. *)
Definition keepsSource {A} (m : IO A) : Prop :=
  forall w, mongo (exec m w) = mongo w.

End Observe.

(** * Properties *)

(** ** JavaScript objects and the partial-document merge *)

Section JsonFacts.
Import Json.

Lemma eqb_decide (a b : string) : String.eqb a b = bool_decide (a = b).
Proof.
  destruct (String.eqb_spec a b); symmetry;
    [by apply bool_decide_eq_true | by apply bool_decide_eq_false].
Qed.

Lemma keys_cons k v o : keys ((k, v) :: o) = k :: keys o.
Proof. reflexivity. Qed.

Lemma jget_jset_eq k v o : jget k (jset k v o) = Some v.
Proof.
  induction o as [|[k' v'] o IH]; simpl.
  - by rewrite String.eqb_refl.
  - destruct (String.eqb k k') eqn:E; simpl; rewrite E; [done | apply IH].
Qed.

Lemma jget_jset_ne k k' v o : k <> k' -> jget k' (jset k v o) = jget k' o.
Proof.
  intros Hne. induction o as [|[k0 v0] o IH]; simpl.
  - destruct (String.eqb_spec k' k); congruence.
  - destruct (String.eqb_spec k k0) as [->|]; simpl.
    + destruct (String.eqb_spec k' k0); congruence.
    + by rewrite IH.
Qed.

Lemma jset_same k v o : jget k o = Some v -> jset k v o = o.
Proof.
  induction o as [|[k' v'] o IH]; simpl; [done|].
  destruct (String.eqb k k'); [congruence|].
  intros H. by rewrite IH.
Qed.

Lemma jget_None k o : jget k o = None <-> k ∉ keys o.
Proof.
  unfold keys. induction o as [|[k' v'] o IH]; simpl.
  - split; [intros _; apply not_elem_of_nil | done].
  - rewrite not_elem_of_cons. destruct (String.eqb_spec k k'); simpl.
    + split; [done | tauto].
    + rewrite IH. tauto.
Qed.

Lemma jget_Some_elem k v o : jget k o = Some v -> (k, v) ∈ o.
Proof.
  induction o as [|[k' v'] o IH]; simpl; [done|].
  destruct (String.eqb_spec k k') as [->|].
  - intros [= ->]. apply list_elem_of_here.
  - intros H. apply list_elem_of_further. auto.
Qed.

Lemma jget_NoDup_elem k v o : NoDup (keys o) -> (k, v) ∈ o -> jget k o = Some v.
Proof.
  unfold keys. induction o as [|[k' v'] o IH]; simpl.
  - intros _ H. by apply elem_of_nil in H.
  - rewrite NoDup_cons. intros [Hk Hnd] [[= -> ->]|Hin]%elem_of_cons.
    + by rewrite String.eqb_refl.
    + destruct (String.eqb_spec k k') as [->|]; [|by apply IH].
      exfalso. apply Hk. change k' with (k', v).1. by apply list_elem_of_fmap_2.
Qed.

Lemma keys_jset_in k v o : k ∈ keys o -> keys (jset k v o) = keys o.
Proof.
  unfold keys. induction o as [|[k' v'] o IH]; simpl.
  - intros H. by apply elem_of_nil in H.
  - destruct (String.eqb_spec k k') as [->|]; simpl; [done|].
    intros [?|?]%elem_of_cons; [done|]. f_equal. by apply IH.
Qed.

Lemma keys_jset_notin k v o : k ∉ keys o -> keys (jset k v o) = (keys o ++ [k])%list.
Proof.
  unfold keys. induction o as [|[k' v'] o IH]; simpl; [done|].
  rewrite not_elem_of_cons. intros [Hne Hk].
  destruct (String.eqb_spec k k'); [done|]. simpl. f_equal. by apply IH.
Qed.

Lemma NoDup_keys_jset k v o : NoDup (keys o) -> NoDup (keys (jset k v o)).
Proof.
  intros Hnd. destruct (decide (k ∈ keys o)).
  - by rewrite keys_jset_in.
  - rewrite keys_jset_notin by done. apply NoDup_app. split_and!; [done| |apply NoDup_singleton].
    intros x Hx ->%list_elem_of_singleton. done.
Qed.

Lemma mergeFields_cons k v p t :
  mergeFields ((k, v) :: p) t = mergeFields p (jset k (mergeValue v (jget k t)) t).
Proof. reflexivity. Qed.

Lemma mergeValue_obj p t :
  mergeValue (JObj p) (Some (JObj t)) = JObj (mergeFields p t).
Proof. reflexivity. Qed.

Lemma jget_mergeFields_notin k p t :
  k ∉ keys p -> jget k (mergeFields p t) = jget k t.
Proof.
  revert t. induction p as [|[k' v'] p IH]; intros t; [done|].
  rewrite keys_cons, not_elem_of_cons. intros [Hne Hk].
  rewrite mergeFields_cons, IH by done. by apply jget_jset_ne.
Qed.

Lemma wf_value_obj o :
  wf_value (JObj o) = true <->
  NoDup (keys o) /\ Forall (fun kv => wf_value kv.2 = true) o.
Proof.
  simpl. rewrite andb_true_iff, bool_decide_eq_true, forallb_forall, Forall_forall.
  unfold keys. split; intros [? H]; (split; [done|]); intros x Hx; apply H;
    by apply list_elem_of_In.
Qed.

Lemma wf_value_arr l :
  wf_value (JArr l) = true <-> Forall (fun v => wf_value v = true) l.
Proof.
  simpl. rewrite forallb_forall, Forall_forall.
  split; intros H x Hx; apply H; by apply list_elem_of_In.
Qed.

End JsonFacts.

Section MergeFacts.
Import Json.

(** Merging the properties [s] of a well-formed object into the object
    itself changes nothing. *)
Lemma mergeFields_self_sub (s o : Fields) :
  NoDup (keys o) ->
  (forall kv, kv ∈ s -> kv ∈ o) ->
  Forall (fun kv => mergeValue kv.2 (Some kv.2) = kv.2) s ->
  mergeFields s o = o.
Proof.
  intros Hnd. induction s as [|[k v] s IH]; intros Hsub Hall; [done|].
  apply Forall_cons in Hall as [Hv Hall]. simpl in Hv.
  assert (jget k o = Some v) as Hget.
  { apply jget_NoDup_elem; [done|]. apply Hsub, list_elem_of_here. }
  rewrite mergeFields_cons, Hget, Hv, jset_same by done.
  apply IH; [|done]. intros kv Hkv. by apply Hsub, list_elem_of_further.
Qed.

Lemma mergeValue_self v : wf_value v = true -> mergeValue v (Some v) = v.
Proof.
  induction v as [| | | | |l _|o IH] using JValue_nested_ind; try done.
  intros [Hnd Hwf]%wf_value_obj. rewrite mergeValue_obj. f_equal.
  apply mergeFields_self_sub; [done..|].
  rewrite Forall_forall in IH, Hwf. apply Forall_forall. intros kv Hkv.
  apply IH; [done|]. by apply Hwf.
Qed.

Lemma mergeFields_self o : wf_fields o = true -> mergeFields o o = o.
Proof.
  intros H. pose proof (mergeValue_self (JObj o) H) as E.
  rewrite mergeValue_obj in E. congruence.
Qed.

(** Merging twice is merging once, list level: [p] has distinct keys and
    its values merge idempotently. *)
Lemma mergeFields_idem_list (p : Fields) :
  NoDup (keys p) ->
  Forall (fun kv => forall old,
            mergeValue kv.2 (Some (mergeValue kv.2 old)) = mergeValue kv.2 old) p ->
  forall t, mergeFields p (mergeFields p t) = mergeFields p t.
Proof.
  induction p as [|[k v] p IH]; intros Hnd Hall t; [done|].
  rewrite keys_cons in Hnd. apply NoDup_cons in Hnd as [Hk Hnd].
  apply Forall_cons in Hall as [Hv Hall]. simpl in Hv.
  rewrite !mergeFields_cons.
  set (t1 := jset k (mergeValue v (jget k t)) t).
  rewrite (jget_mergeFields_notin k p t1) by done.
  unfold t1 at 1. rewrite jget_jset_eq, Hv.
  rewrite (jset_same k _ (mergeFields p t1)).
  - by apply IH.
  - rewrite jget_mergeFields_notin by done. apply jget_jset_eq.
Qed.

Lemma mergeValue_idem v old :
  wf_value v = true ->
  mergeValue v (Some (mergeValue v old)) = mergeValue v old.
Proof.
  revert old.
  induction v as [| | | | |l _|o IH] using JValue_nested_ind; intros old; try done.
  intros Hwf. pose proof Hwf as [Hnd Hall]%wf_value_obj.
  assert (mergeValue (JObj o) (Some (JObj o)) = JObj o) as Hself
    by by apply mergeValue_self.
  destruct old as [[]|]; try exact Hself.
  rewrite !mergeValue_obj. f_equal. apply mergeFields_idem_list; [done|].
  rewrite Forall_forall in IH, Hall. apply Forall_forall. intros kv Hkv old.
  apply IH; [done|]. by apply Hall.
Qed.

Lemma mergeFields_idem p t :
  wf_fields p = true -> mergeFields p (mergeFields p t) = mergeFields p t.
Proof.
  intros H. pose proof (mergeValue_idem (JObj p) (Some (JObj t)) H) as E.
  rewrite !mergeValue_obj in E. congruence.
Qed.




End MergeFacts.

(** ** The document line of [bulkIndex] is a well-formed object *)

Section IndexDocFacts.
Import Json Runtime OpenSearchService Observe.

(** Distinctness of a literal list of keys, by evaluation. *)
Local Ltac solve_NoDup :=
  unfold keys; simpl; apply (bool_decide_unpack _); vm_compute; exact I.

Lemma keys_toJSONFields o : keys (toJSONFields o) = keys o.
Proof.
  unfold keys, toJSONFields. induction o as [|[k v] o IH]; [done|].
  simpl. f_equal. exact IH.
Qed.

Lemma wf_toJSON v : wf_value v = true -> wf_value (toJSON v) = true.
Proof.
  induction v as [| | | | |l IH|o IH] using JValue_nested_ind; try done.
  - rewrite wf_value_arr. intros Hwf. simpl. apply wf_value_arr.
    apply Forall_fmap. rewrite Forall_forall in IH, Hwf. apply Forall_forall.
    intros x Hx. simpl. apply IH; [done|]. by apply Hwf.
  - intros [Hnd Hwf]%wf_value_obj.
    change (toJSON (JObj o)) with (JObj (toJSONFields o)).
    apply wf_value_obj. split; [by rewrite keys_toJSONFields|].
    unfold toJSONFields. apply Forall_fmap.
    rewrite Forall_forall in IH, Hwf. apply Forall_forall.
    intros x Hx. simpl. apply IH; [done|]. by apply Hwf.
Qed.

Lemma wf_toJSONFields o : wf_fields o = true -> wf_fields (toJSONFields o) = true.
Proof. apply (wf_toJSON (JObj o)). Qed.

Lemma wf_jget k v o : wf_fields o = true -> jget k o = Some v -> wf_value v = true.
Proof.
  intros [_ Hwf]%wf_value_obj Hget%jget_Some_elem.
  rewrite Forall_forall in Hwf. by apply (Hwf (k, v)).
Qed.

Lemma wf_jset k v o :
  wf_fields o = true -> wf_value v = true -> wf_fields (jset k v o) = true.
Proof.
  intros [Hnd Hwf]%wf_value_obj Hv. apply wf_value_obj.
  split; [by apply NoDup_keys_jset|].
  clear Hnd. induction o as [|[k' v'] o IH]; simpl.
  - by repeat constructor.
  - apply Forall_cons in Hwf as [Hv' Hwf].
    destruct (String.eqb k k'); constructor; auto.
Qed.

Lemma wf_indexed {A} (f : A -> JValue) (l : list A) :
  Forall (fun x => wf_value (f x) = true) l ->
  wf_fields (imap (fun i x => (pretty i, f x)) l) = true.
Proof.
  intros Hwf. apply wf_value_obj. split.
  - unfold keys. rewrite fmap_imap.
    rewrite (imap_ext _ (fun i _ => pretty i)) by done.
    rewrite imap_seq_0. apply NoDup_fmap_2; [apply _|apply NoDup_seq].
  - rewrite Forall_forall in Hwf. apply Forall_forall.
    intros [k v] (i & x & [= -> ->] & Hx)%elem_of_lookup_imap_1.
    apply Hwf. by eapply list_elem_of_lookup_2.
Qed.

Lemma wf_spread v : wf_value v = true -> wf_fields (spread v) = true.
Proof.
  destruct v; simpl spread; try done.
  - intros _. apply (wf_indexed (fun c => JStr (String c ""))).
    by apply Forall_forall.
  - intros Hwf%wf_value_arr. by apply (wf_indexed id).
Qed.

Lemma wf_urlFilter doc : wf_fields doc = true -> wf_value (urlFilter doc) = true.
Proof.
  intros Hwf. unfold urlFilter.
  destruct (jget "url-filter" doc) as [v|] eqn:Hv; [|done].
  destruct (truthy v); [|done].
  pose proof (wf_spread v (wf_jget _ _ _ Hwf Hv)) as Hs.
  destruct (jget "url-filter-id" (spread v)) as [i|]; [|done].
  destruct (truthy i); [|done]. by apply wf_jset.
Qed.

Lemma wf_normalizeCountry item v :
  wf_value item = true -> normalizeCountry item = Some v -> wf_value v = true.
Proof.
  destruct item; simpl; intros Hwf [= <-]; try done.
  apply wf_value_obj. split; [solve_NoDup|].
  repeat constructor; simpl.
  - destruct (jget "country" fields) as [c|] eqn:Hc; [|done]. simpl.
    destruct (truthy c); [|done]. simpl. by eapply wf_jget.
  - destruct (jget "is_active" fields) as [c|] eqn:Hc; [|done]. by eapply wf_jget.
Qed.

Lemma NoDup_indexDocKeys : NoDup indexDocKeys.
Proof. solve_NoDup. Qed.

Lemma keys_copied_sublist doc (fs : list string) :
  keys (concat (map (copyField doc) fs)) `sublist_of` fs.
Proof.
  induction fs as [|f fs IH]; [done|]. simpl. unfold keys. rewrite fmap_app.
  unfold copyField at 1. destruct (jget f doc); simpl.
  - by apply sublist_skip.
  - by apply sublist_cons.
Qed.

Lemma keys_indexDoc_sublist docId doc :
  keys (indexDoc docId doc) `sublist_of` indexDocKeys.
Proof.
  unfold indexDoc, indexDocKeys. generalize copiedFields. intros fs.
  rewrite keys_cons. unfold keys at 1. rewrite !fmap_app.
  apply sublist_skip, sublist_app; [apply keys_copied_sublist|].
  unfold countrySearchedforAll.
  destruct (jget "countrySearchedfor_all" doc) as [[]|]; simpl;
    first [done | by apply sublist_cons].
Qed.

Lemma wf_copied doc (fs : list string) :
  wf_fields doc = true ->
  Forall (fun kv => wf_value kv.2 = true) (concat (map (copyField doc) fs)).
Proof.
  intros Hwf. induction fs as [|f fs IH]; [constructor|]. simpl.
  apply Forall_app. split; [|done].
  unfold copyField. destruct (jget f doc) eqn:E; repeat constructor.
  by eapply wf_jget.
Qed.

Lemma wf_countrySearchedforAll doc :
  wf_fields doc = true ->
  Forall (fun kv => wf_value kv.2 = true) (countrySearchedforAll doc).
Proof.
  intros Hwf. unfold countrySearchedforAll.
  destruct (jget "countrySearchedfor_all" doc) as [v|] eqn:E; [|constructor].
  pose proof (wf_jget _ _ _ Hwf E) as Hv.
  destruct v; try (repeat constructor; exact Hv).
  repeat constructor. simpl snd.
  apply wf_value_arr in Hv. apply wf_value_arr.
  rewrite Forall_forall in Hv. apply Forall_forall.
  intros x (y & Hy & Hx)%list_elem_of_omap.
  apply (wf_normalizeCountry y); [by apply Hv | done].
Qed.

Lemma wf_indexDoc docId doc :
  wf_fields doc = true -> wf_fields (indexDoc docId doc) = true.
Proof.
  intros Hwf. apply wf_value_obj. split.
  - eapply sublist_NoDup; [apply NoDup_indexDocKeys|apply keys_indexDoc_sublist].
  - unfold indexDoc. constructor; [done|].
    rewrite !Forall_app. split_and!;
      [by apply wf_copied | by apply wf_countrySearchedforAll |].
    repeat constructor; simpl; [by apply wf_urlFilter|].
    destruct (jget "url-filter-updated-at" doc) as [c|] eqn:Hc; [|done]. simpl.
    destruct (truthy c); [|done]. simpl. by eapply wf_jget.
Qed.

Lemma bulkEntry_wf doc a :
  wf_fields doc = true -> bulkEntry doc = Some a ->
  wf_fields (toJSONFields (act_doc a)) = true.
Proof.
  intros Hwf. unfold bulkEntry.
  destruct (toString (jget "_id" doc)) as [docId|]; [|done].
  intros [= <-]. cbn [act_doc]. by apply wf_toJSONFields, wf_indexDoc.
Qed.

End IndexDocFacts.

(** ** Running [IO] computations *)

Section IOFacts.
Import Json Runtime Observe.

Lemma bind_run {A B} (m : IO A) (f : A -> IO B) w :
  (m ≫= f) w =
  match m w with
  | (Ok a, w') => f a w'
  | (Err e, w') => (Err e, w')
  | (Diverge, w') => (Diverge, w')
  end.
Proof. reflexivity. Qed.

Lemma bind_ok {A B} (m : IO A) (f : A -> IO B) w a w' :
  m w = (Ok a, w') -> (m ≫= f) w = f a w'.
Proof. intros H. by rewrite bind_run, H. Qed.

Lemma bind_err {A B} (m : IO A) (f : A -> IO B) w e w' :
  m w = (Err e, w') -> (m ≫= f) w = (Err e, w').
Proof. intros H. by rewrite bind_run, H. Qed.

Lemma tryCatch_eq {A} (m : IO A) h w :
  tryCatch m h w = match m w with (Err e, w') => h e w' | r => r end.
Proof. reflexivity. Qed.

Lemma tryCatch_ok {A} (m : IO A) h w a w' :
  m w = (Ok a, w') -> tryCatch m h w = (Ok a, w').
Proof. intros H. unfold tryCatch. by rewrite H. Qed.

Lemma tryCatch_err {A} (m : IO A) h w e w' :
  m w = (Err e, w') -> tryCatch m h w = h e w'.
Proof. intros H. unfold tryCatch. by rewrite H. Qed.

Lemma driverCall_healthy ev w :
  healthy w -> driverCall ev w = (Ok NoFault, called ev w).
Proof. unfold healthy, driverCall, called. by intros ->. Qed.

Lemma driverCall_throws ev w e s :
  script w = Throws e :: s -> driverCall ev w = (Err e, called ev w).
Proof. unfold driverCall, called. by intros ->. Qed.

Lemma driverCall_answers ev w :
  answers 1 w ->
  driverCall ev w = (Ok (default NoFault (head (script w))), called ev w).
Proof.
  unfold answers, driverCall, called. destruct (script w) as [|[| |] s]; try done.
  intros [H _]%Forall_cons. by destruct (H e).
Qed.

Lemma answers_first n w : answers (S n) w -> answers 1 w.
Proof.
  unfold answers. destruct (script w) as [|f s]; simpl; [done|].
  rewrite take_0. intros [? _]%Forall_cons. by constructor.
Qed.

Lemma answers_called n ev w : answers (S n) w -> answers n (called ev w).
Proof.
  unfold answers, called. simpl. destruct (script w) as [|f s]; simpl.
  - intros _. destruct n; constructor.
  - by intros [_ ?]%Forall_cons.
Qed.

Lemma healthy_called ev w : healthy w -> healthy (called ev w).
Proof. unfold healthy, called. simpl. by intros ->. Qed.

Lemma healthy_answers n w : healthy w -> answers n w.
Proof. unfold healthy, answers. intros ->. rewrite take_nil. constructor. Qed.

(** *** Trace discipline *)

Section Emits.
Variable allowed : Event -> Prop.

Lemma emits_ret {A} (a : A) : emits allowed (mret a).
Proof. intros w. exists []. by rewrite app_nil_r. Qed.

Lemma emits_throw {A} e : emits allowed (@throw A e).
Proof. intros w. exists []. by rewrite app_nil_r. Qed.

Lemma emits_diverge {A} : emits allowed (@diverge A).
Proof. intros w. exists []. by rewrite app_nil_r. Qed.

Lemma emits_getWorld : emits allowed getWorld.
Proof. intros w. exists []. by rewrite app_nil_r. Qed.

Lemma emits_setOs st : emits allowed (setOs st).
Proof. intros w. exists []. by rewrite app_nil_r. Qed.

Lemma emits_emit ev : allowed ev -> emits allowed (emit ev).
Proof. intros H w. exists [ev]. split; [done|]. by constructor. Qed.

Lemma emits_driverCall ev : allowed ev -> emits allowed (driverCall ev).
Proof.
  intros H w. exists [ev]. split; [|by constructor].
  unfold driverCall. by destruct (script w) as [|[| |] ?].
Qed.

Lemma emits_bind {A B} (m : IO A) (f : A -> IO B) :
  emits allowed m -> (forall a, emits allowed (f a)) -> emits allowed (m ≫= f).
Proof.
  intros Hm Hf w. rewrite bind_run. destruct (Hm w) as (n1 & E1 & F1).
  destruct (m w) as [[a| |] w1]; simpl in E1; [|by exists n1..].
  destruct (Hf a w1) as (n2 & E2 & F2). exists (n1 ++ n2)%list.
  rewrite E2, E1, app_assoc. split; [done|]. by apply Forall_app.
Qed.

Lemma emits_tryCatch {A} (m : IO A) h :
  emits allowed m -> (forall e, emits allowed (h e)) -> emits allowed (tryCatch m h).
Proof.
  intros Hm Hh w. unfold tryCatch. destruct (Hm w) as (n1 & E1 & F1).
  destruct (m w) as [[a| |] w1]; simpl in E1; [by exists n1| |by exists n1].
  destruct (Hh e w1) as (n2 & E2 & F2). exists (n1 ++ n2)%list.
  rewrite E2, E1, app_assoc. split; [done|]. by apply Forall_app.
Qed.

Lemma emits_forEach {A} (f : A -> IO unit) l :
  (forall x, emits allowed (f x)) -> emits allowed (forEach f l).
Proof.
  intros Hf. induction l as [|x l IH]; simpl; [apply emits_ret|].
  apply emits_bind; auto.
Qed.

End Emits.

Lemma emits_weaken (P Q : Event -> Prop) {A} (m : IO A) :
  (forall ev, P ev -> Q ev) -> emits P m -> emits Q m.
Proof.
  intros HPQ Hm w. destruct (Hm w) as (new & E & F). exists new.
  split; [done|]. eapply Forall_impl; eauto.
Qed.

(** *** Never throwing *)

Lemma no_throw_ret {A} (a : A) : no_throw (mret a).
Proof. by intros w e. Qed.

Lemma no_throw_diverge {A} : no_throw (@diverge A).
Proof. by intros w e. Qed.

Lemma no_throw_bind {A B} (m : IO A) (f : A -> IO B) :
  no_throw m -> (forall a, no_throw (f a)) -> no_throw (m ≫= f).
Proof.
  intros Hm Hf w e. rewrite bind_run. specialize (Hm w).
  destruct (m w) as [[a| |] w1]; simpl in *; [apply Hf| |done].
  by destruct (Hm e0).
Qed.

Lemma no_throw_tryCatch {A} (m : IO A) h :
  (forall e, no_throw (h e)) -> no_throw (tryCatch m h).
Proof.
  intros Hh w e. unfold tryCatch.
  destruct (m w) as [[a| |] w1]; simpl; [done|apply Hh|done].
Qed.

End IOFacts.

(** Unfolding the plumbing of [IO] down to the worlds. *)
Ltac io_unfold :=
  cbv [mbind mret Runtime.IO_bind Runtime.IO_ret Runtime.getWorld
       Runtime.setOs Runtime.throw Runtime.diverge Runtime.emit
       Runtime.tryCatch Runtime.sleep Observe.called];
  cbn [fst snd Runtime.os Runtime.mongo Runtime.script Runtime.trace].

(** ** The target adapter *)

Section AdapterFacts.
Import Json Runtime Observe OpenSearchService.

Lemma bulkEntry_Some d id :
  idOf d = Some id ->
  exists a, bulkEntry d = Some a /\ act_id a = id /\ act_doc a = indexDoc id d
            /\ act_doc_as_upsert a = true.
Proof. unfold idOf, bulkEntry. intros ->. simpl. eauto. Qed.

Lemma bulkEntry_None d : idOf d = None -> bulkEntry d = None.
Proof. unfold idOf, bulkEntry. by intros ->. Qed.

Lemma bulkEntry_inv d a :
  bulkEntry d = Some a ->
  idOf d = Some (act_id a) /\ act_doc a = indexDoc (act_id a) d
  /\ act_doc_as_upsert a = true.
Proof.
  unfold idOf, bulkEntry. destruct (toString (jget "_id" d)); [|done].
  by intros [= <-].
Qed.

Lemma body_ids docs body :
  mapM bulkEntry docs = Some body -> map act_id body = omap idOf docs.
Proof.
  intros H%mapM_Some. induction H as [|d a docs body Ha _ IH]; [done|].
  apply bulkEntry_inv in Ha as (Hid & _). simpl. by rewrite Hid, IH.
Qed.

Lemma mapM_bulkEntry_is_Some docs :
  Forall (fun d => is_Some (idOf d)) docs -> is_Some (mapM bulkEntry docs).
Proof.
  intros H. apply mapM_is_Some. eapply Forall_impl; [exact H|].
  intros d [id Hid]. destruct (bulkEntry_Some d id Hid) as (a & Ha & _).
  unfold compose. rewrite Ha. by eexists.
Qed.

Lemma applyUpdate_upsert d a st :
  bulkEntry d = Some a ->
  Client.applyUpdate a st =
    (<[act_id a := upserted (act_id a) d (st !! act_id a)]> st,
     mkItem (Some (mkUpdate None))).
Proof.
  intros (_ & Hdoc & Hup)%bulkEntry_inv. unfold Client.applyUpdate, upserted, wireDoc.
  rewrite Hdoc, Hup. by destruct (st !! act_id a).
Qed.

(** A healthy bulk call stores the upserts in order and reports no item
    error. *)
Lemma bulkApply_healthy docs body st :
  mapM bulkEntry docs = Some body ->
  Client.bulkApply body [] st
  = (upsertAll docs st, replicate (length docs) (mkItem (Some (mkUpdate None)))).
Proof.
  intros H%mapM_Some. revert st.
  induction H as [|d a docs body Ha _ IH]; intros st; [done|].
  simpl. rewrite (applyUpdate_upsert d a st Ha). simpl. rewrite IH. simpl.
  by rewrite (proj1 (bulkEntry_inv d a Ha)).
Qed.

(** The error types a bulk response reports are the scripted rejections of
    its items. *)
Lemma bulkApply_errors body rej st :
  Forall (fun a => act_doc_as_upsert a = true) body ->
  omap hasError (Client.bulkApply body rej st).2 = omap id (take (length body) rej).
Proof.
  intros H. revert rej st. induction H as [|a body Ha _ IH]; intros rej st.
  - by rewrite take_0.
  - simpl. destruct rej as [|[ty|] rej]; simpl.
    + rewrite IH. simpl. rewrite take_nil.
      unfold Client.applyUpdate. rewrite Ha. by destruct (st !! act_id a).
    + rewrite IH. done.
    + rewrite IH. unfold Client.applyUpdate. rewrite Ha. by destruct (st !! act_id a).
Qed.

Lemma bulk_answers body w :
  answers 1 w ->
  Client.bulk body w =
    (Ok (Client.bulkApply body (rejections w) (os w)).2,
     mkWorld (mongo w) (Client.bulkApply body (rejections w) (os w)).1
             (tail (script w)) (trace w ++ [EvOsBulk body])).
Proof.
  intros H. unfold Client.bulk.
  rewrite (bind_ok _ _ _ _ _ (driverCall_answers _ _ H)).
  unfold rejections, called. destruct (script w) as [|[] ?]; reflexivity.
Qed.

Lemma bulkIndex_answers docs body w :
  docs <> [] -> mapM bulkEntry docs = Some body -> answers 1 w ->
  let rejected := omap id (take (length docs) (rejections w)) in
  bulkIndex docs w =
    (Ok (mkBulkResult true (length docs)
           (Some (length (filter (fun ty => isVersionConflict ty = false) rejected)))
           (Some (length (filter (fun ty => isVersionConflict ty = true) rejected)))),
     mkWorld (mongo w) (Client.bulkApply body (rejections w) (os w)).1
             (tail (script w)) (trace w ++ [EvOsBulk body])).
Proof.
  intros Hne Hbody Hans. unfold bulkIndex. destruct docs as [|d docs]; [done|].
  rewrite Hbody. rewrite (bind_ok _ _ _ _ _ (bulk_answers body w Hans)).
  rewrite bulkApply_errors.
  - by rewrite <- (length_mapM _ _ _ Hbody).
  - apply mapM_Some in Hbody. clear -Hbody.
    induction Hbody as [|???? Ha]; constructor; [|done].
    by apply bulkEntry_inv in Ha as (_ & _ & ?).
Qed.

Lemma bulkIndex_healthy docs body w :
  docs <> [] -> mapM bulkEntry docs = Some body -> healthy w ->
  bulkIndex docs w =
    (Ok (mkBulkResult true (length docs) (Some 0%nat) (Some 0%nat)),
     mkWorld (mongo w) (upsertAll docs (os w)) [] (trace w ++ [EvOsBulk body])).
Proof.
  intros Hne Hbody Hw.
  rewrite (bulkIndex_answers docs body w Hne Hbody (healthy_answers 1 w Hw)).
  unfold rejections. rewrite Hw. simpl. rewrite take_nil. simpl.
  by rewrite (bulkApply_healthy docs body).
Qed.

Lemma bulkIndex_no_id docs w :
  mapM bulkEntry docs = None -> bulkIndex docs w = (Err TypeError, w).
Proof. intros H. unfold bulkIndex. destruct docs; [done|]. by rewrite H. Qed.

Lemma deleteDocument_answers id w :
  answers 1 w ->
  deleteDocument id w =
    (Ok (mkDeleteResult true),
     mkWorld (mongo w) (base.delete id (os w)) (tail (script w))
             (trace w ++ [EvOsDelete id])).
Proof.
  intros H. unfold deleteDocument, Client.delete.
  rewrite (tryCatch_eq _ _ w), !bind_run, (driverCall_answers _ _ H).
  io_unfold. destruct (os w !! id) eqn:E; cbn; [done|].
  by rewrite delete_id.
Qed.

End AdapterFacts.

(** ** Claims about the target adapter *)

Section AdapterClaims.
Import Json Runtime Observe OpenSearchService.

(** C9. Deleting an identifier the target does not hold reports success:
    the store answers the call with its 404 response error, which
    [deleteDocument] turns into [{success: true}]; the target is as it
    was. *)
Theorem deleteDocument_not_found_is_success (id : string) (w : World) :
  os w !! id = None ->
  answers 1 w ->
  deleteDocument id w = (Ok (mkDeleteResult true), called (EvOsDelete id) w).
Proof.
  intros Hid Hw. rewrite (deleteDocument_answers id w Hw).
  unfold called. by rewrite delete_id.
Qed.

Lemma deleteDocument_not_found_witness :
  let w := mkWorld [] (indexOf (sampleAds 2)) [] [] in
  os w !! oidOf 7 = None /\ answers 1 w /\
  deleteDocument (oidOf 7) w
  = (Ok (mkDeleteResult true), called (EvOsDelete (oidOf 7)) w).
Proof.
  intros w.
  assert (os w !! oidOf 7 = None) as H1 by (vm_compute; reflexivity).
  assert (answers 1 w) as H2 by constructor.
  split; [exact H1|]. split; [exact H2|].
  exact (deleteDocument_not_found_is_success (oidOf 7) w H1 H2).
Defined.

(** Any response error carrying status 404 is swallowed the same way. *)
Lemma deleteDocument_status_404 id w e s :
  script w = Throws e :: s -> statusCode e = Some 404%nat ->
  deleteDocument id w = (Ok (mkDeleteResult true), called (EvOsDelete id) w).
Proof.
  intros Hs He. unfold deleteDocument, Client.delete.
  rewrite (tryCatch_eq _ _ w), !bind_run, (driverCall_throws _ _ _ _ Hs).
  by rewrite bool_decide_eq_true_2.
Qed.

(** Every other rejection is rethrown. *)
Lemma deleteDocument_rethrows id w e s :
  script w = Throws e :: s -> statusCode e <> Some 404%nat ->
  deleteDocument id w = (Err e, called (EvOsDelete id) w).
Proof.
  intros Hs He. unfold deleteDocument, Client.delete.
  rewrite (tryCatch_eq _ _ w), !bind_run, (driverCall_throws _ _ _ _ Hs).
  by rewrite bool_decide_eq_false_2.
Qed.

(** C10. For a non-empty list of documents that the store answers,
    [bulkIndex] returns [processed = documents.length] whatever the store
    did with the items: the rejected items are counted in [errors], or in
    [versionConflicts] when their error is a version conflict, and
    [processed] is not reduced by either. *)
Theorem bulkIndex_processed_counts_submitted (docs : list Fields) (w : World) :
  docs <> [] ->
  Forall (fun d => is_Some (idOf d)) docs ->
  answers 1 w ->
  let rejected := omap id (take (length docs) (rejections w)) in
  exists w',
    bulkIndex docs w =
      (Ok (mkBulkResult true (length docs)
             (Some (length (filter (fun ty => isVersionConflict ty = false) rejected)))
             (Some (length (filter (fun ty => isVersionConflict ty = true) rejected)))),
       w').
Proof.
  intros Hne Hids Hw rejected.
  destruct (mapM_bulkEntry_is_Some docs Hids) as [body Hbody].
  eexists. by apply (bulkIndex_answers docs body).
Qed.

Lemma bulkIndex_processed_witness :
  let docs := sampleAds 3 in
  let w := mkWorld docs ∅
             [Rejects [Some "mapper_parsing_exception"; None;
                       Some "version_conflict_engine_exception"]] [] in
  docs <> [] /\ Forall (fun d => is_Some (idOf d)) docs /\ answers 1 w /\
  exists w',
    bulkIndex docs w = (Ok (mkBulkResult true 3 (Some 1%nat) (Some 1%nat)), w').
Proof.
  intros docs w.
  assert (docs <> []) as H1 by discriminate.
  assert (Forall (fun d => is_Some (idOf d)) docs) as H2
    by (repeat constructor; vm_compute; eauto).
  assert (answers 1 w) as H3 by (repeat constructor; discriminate).
  split; [exact H1|]. split; [exact H2|]. split; [exact H3|].
  exact (bulkIndex_processed_counts_submitted docs w H1 H2 H3).
Defined.

(** C2. On a healthy backend, upserting a document through [bulkIndex] a
    second time leaves the target as the first upsert left it.  The entry
    is a [doc_as_upsert] update: it stores the document when the identifier
    is new and merges it into the stored one otherwise ([upserted]). *)
Theorem bulkIndex_twice_is_once (d : Fields) (w : World) :
  wf_fields d = true ->
  healthy w ->
  os (exec (bulkIndex [d]) (exec (bulkIndex [d]) w)) = os (exec (bulkIndex [d]) w)
  /\ (forall id, idOf d = Some id ->
        os (exec (bulkIndex [d]) w) = <[id := upserted id d (os w !! id)]> (os w)).
Proof.
  intros Hwf Hw. unfold exec. destruct (idOf d) as [id|] eqn:Hid.
  - destruct (bulkEntry_Some d id Hid) as (a & Ha & _).
    assert (mapM bulkEntry [d] = Some [a]) as Hbody by (simpl; by rewrite Ha).
    rewrite (bulkIndex_healthy [d] [a] w) by done. cbn [snd os].
    rewrite (bulkIndex_healthy [d] [a]) by done. cbn [snd os].
    unfold upsertAll. cbn [foldl]. rewrite Hid. split; [|by intros ? [= <-]].
    rewrite lookup_insert_eq, insert_insert_eq. f_equal.
    assert (wf_fields (wireDoc id d) = true) as Hp
      by by apply wf_toJSONFields, wf_indexDoc.
    unfold upserted at 1. destruct (os w !! id) as [old|]; simpl.
    + by apply mergeFields_idem.
    + by apply mergeFields_self.
  - split; [|done].
    assert (mapM bulkEntry [d] = None) as Hbody
      by (simpl; by rewrite (bulkEntry_None d Hid)).
    by rewrite !(bulkIndex_no_id [d]).
Qed.

Lemma bulkIndex_twice_witness :
  let d := sampleAd 1 "Paused" in
  let w := mkWorld [d] (indexOf (sampleAds 2)) [] [] in
  wf_fields d = true /\ healthy w /\
  os (exec (bulkIndex [d]) (exec (bulkIndex [d]) w)) = os (exec (bulkIndex [d]) w).
Proof.
  intros d w.
  assert (wf_fields d = true) as H1 by (vm_compute; reflexivity).
  assert (healthy w) as H2 by reflexivity.
  split; [exact H1|]. split; [exact H2|].
  exact (proj1 (bulkIndex_twice_is_once d w H1 H2)).
Defined.

End AdapterClaims.

(** ** The batch processor *)

Section ProcessorFacts.
Import Json Runtime Observe BulkProcessor.

(** *** Settling *)

Lemma settles_ret {A} (a : A) : settles (mret a).
Proof. by intros w. Qed.

Lemma settles_throw {A} e : settles (@throw A e).
Proof. by intros w. Qed.

Lemma settles_bind {A B} (m : IO A) (f : A -> IO B) :
  settles m -> (forall a, settles (f a)) -> settles (m ≫= f).
Proof.
  intros Hm Hf w. rewrite bind_run. specialize (Hm w).
  destruct (m w) as [[a| |] w1]; simpl in *; [apply Hf|done|done].
Qed.

Lemma settles_tryCatch {A} (m : IO A) h :
  settles m -> (forall e, settles (h e)) -> settles (tryCatch m h).
Proof.
  intros Hm Hh w. rewrite tryCatch_eq. specialize (Hm w).
  destruct (m w) as [[a| |] w1]; simpl in *; [done|apply Hh|done].
Qed.

Lemma settles_forEach {A} (f : A -> IO unit) l :
  (forall x, settles (f x)) -> settles (forEach f l).
Proof.
  intros Hf. induction l as [|x l IH]; simpl; [apply settles_ret|].
  apply settles_bind; auto.
Qed.

Lemma settles_driverCall ev : settles (driverCall ev).
Proof. intros w. unfold driverCall. by destruct (script w) as [|[] ?]. Qed.

Lemma settles_getWorld : settles getWorld.
Proof. by intros w. Qed.

Lemma settles_setOs st : settles (setOs st).
Proof. by intros w. Qed.

Lemma settles_emit ev : settles (emit ev).
Proof. by intros w. Qed.

Lemma settles_bulkIndex docs : settles (OpenSearchService.bulkIndex docs).
Proof.
  unfold OpenSearchService.bulkIndex. destruct docs; [apply settles_ret|].
  destruct (mapM _ _); [|apply settles_throw].
  unfold Client.bulk.
  repeat (first [apply settles_bind; [|intros ?] | apply settles_driverCall
                | apply settles_getWorld | apply settles_setOs
                | apply settles_ret]).
Qed.

Lemma settles_deleteDocument id : settles (OpenSearchService.deleteDocument id).
Proof.
  unfold OpenSearchService.deleteDocument, Client.delete.
  apply settles_tryCatch.
  - repeat (first [apply settles_bind; [|intros ?] | apply settles_driverCall
                  | apply settles_getWorld | apply settles_ret]).
    destruct (os _ !! id); [apply settles_setOs|apply settles_throw].
  - intros e. destruct (bool_decide _); [apply settles_ret|apply settles_throw].
Qed.

Lemma settles_attemptBatch batch : settles (attemptBatch batch).
Proof.
  unfold attemptBatch. destruct (mapM _ _); [|apply settles_throw].
  apply settles_bind; [|intros _; apply settles_forEach; intros id].
  - destruct (0 <? _)%nat; [|apply settles_ret].
    apply settles_bind; [apply settles_bulkIndex|intros; apply settles_ret].
  - apply settles_bind; [apply settles_deleteDocument|intros; apply settles_ret].
Qed.

Lemma settles_retryLoop batch maxRetries remaining attempt lastError :
  settles (retryLoop batch maxRetries remaining attempt lastError).
Proof.
  revert attempt lastError.
  induction remaining as [|n IH]; intros attempt lastError; simpl.
  - apply settles_throw.
  - apply settles_tryCatch; [apply settles_attemptBatch|]. intros e.
    apply settles_bind; [|intros _; apply IH].
    destruct (_ <? _)%nat; [apply settles_emit|apply settles_ret].
Qed.

(** [processBatch] resolves whatever the adapter does: its [catch] absorbs
    every error of the retries. *)
Lemma processBatch_resolves this w :
  exists this' w', processBatch this w = (Ok this', w').
Proof.
  unfold processBatch. destruct (processing this || _); [by eexists _, _|].
  destruct (splice0 _ _) as [batch rest]. rewrite tryCatch_eq, bind_run.
  pose proof (settles_retryLoop batch 3 3 1 (mkError None "undefined") w) as Hs.
  unfold processBatchWithRetry.
  destruct (retryLoop _ _ _ _ _ w) as [[[]| |] w1]; simpl in *;
    [by eexists _, _..|done].
Qed.

Lemma no_throw_processBatch this : no_throw (processBatch this).
Proof.
  intros w e. destruct (processBatch_resolves this w) as (? & ? & ->). done.
Qed.

Lemma no_throw_flush fuel this : no_throw (flush fuel this).
Proof.
  revert this. induction fuel as [|fuel IH]; intros this; simpl.
  - destruct (0 <? _)%nat; [apply no_throw_diverge|apply no_throw_ret].
  - destruct (0 <? _)%nat; [|apply no_throw_ret].
    apply no_throw_bind; [apply no_throw_processBatch|apply IH].
Qed.

(** *** The size of the bulk requests *)

Lemma emits_bulkIndex (allowed : Event -> Prop) docs :
  (forall body, length body = length docs -> allowed (EvOsBulk body)) ->
  emits allowed (OpenSearchService.bulkIndex docs).
Proof.
  intros Hok. unfold OpenSearchService.bulkIndex.
  destruct docs as [|d docs]; [apply emits_ret|].
  destruct (mapM _ _) as [body|] eqn:Hbody; [|apply emits_throw].
  unfold Client.bulk.
  apply emits_bind; [|intros; apply emits_ret].
  apply emits_bind; [apply emits_driverCall, Hok; symmetry; by eapply length_mapM|].
  intros f. apply emits_bind; [apply emits_getWorld|]. intros w'.
  apply emits_bind; [apply emits_setOs|intros; apply emits_ret].
Qed.

Lemma emits_deleteDocument (allowed : Event -> Prop) id :
  allowed (EvOsDelete id) ->
  emits allowed (OpenSearchService.deleteDocument id).
Proof.
  intros Hok. unfold OpenSearchService.deleteDocument, Client.delete.
  apply emits_tryCatch.
  - apply emits_bind; [|intros; apply emits_ret].
    apply emits_bind; [by apply emits_driverCall|]. intros _.
    apply emits_bind; [apply emits_getWorld|]. intros w'.
    destruct (os w' !! id); [apply emits_setOs|apply emits_throw].
  - intros e. destruct (bool_decide _); [apply emits_ret|apply emits_throw].
Qed.

Lemma length_filter_le {A} (p : A -> bool) (l : list A) :
  (length (List.filter p l) <= length l)%nat.
Proof. induction l as [|x l IH]; simpl; [done|]. destruct (p x); simpl; lia. Qed.

Lemma emits_attemptBatch n batch :
  (length batch <= n)%nat -> emits (boundedBulk n) (attemptBatch batch).
Proof.
  intros Hlen. unfold attemptBatch. destruct (mapM _ _); [|apply emits_throw].
  apply emits_bind; [|intros _; apply emits_forEach; intros id].
  - destruct (0 <? _)%nat eqn:Hpos; [|apply emits_ret].
    apply emits_bind; [|intros; apply emits_ret].
    apply emits_bulkIndex. intros body Hb. simpl. rewrite Hb.
    apply Nat.ltb_lt in Hpos. split; [lia|].
    rewrite length_map in *. pose proof (length_filter_le (fun i => negb (isDelete i)) batch).
    lia.
  - apply emits_bind; [by apply emits_deleteDocument|intros; apply emits_ret].
Qed.

Lemma emits_retryLoop n batch maxRetries remaining attempt lastError :
  (length batch <= n)%nat ->
  emits (boundedBulk n) (retryLoop batch maxRetries remaining attempt lastError).
Proof.
  intros Hlen. revert attempt lastError.
  induction remaining as [|k IH]; intros attempt lastError; simpl.
  - apply emits_throw.
  - apply emits_tryCatch; [by apply emits_attemptBatch|]. intros e.
    apply emits_bind; [|intros _; apply IH].
    destruct (_ <? _)%nat; [by apply emits_emit|apply emits_ret].
Qed.

Lemma emits_processBatch this :
  emits (boundedBulk (Z.to_nat (batchSize this))) (processBatch this).
Proof.
  unfold processBatch. destruct (processing this || _); [apply emits_ret|].
  unfold splice0. apply emits_tryCatch; [|intros; apply emits_ret].
  apply emits_bind; [|intros; apply emits_ret].
  apply emits_retryLoop. rewrite length_take. lia.
Qed.

(** The processor keeps its [batchSize]. *)
Lemma processBatch_batchSize this w this' w' :
  processBatch this w = (Ok this', w') -> batchSize this' = batchSize this.
Proof.
  unfold processBatch. destruct (processing this || _); [by intros [= <- _]|].
  unfold splice0. rewrite tryCatch_eq, bind_run.
  destruct (processBatchWithRetry _ w) as [[[]| |] w1]; by intros [= <- _].
Qed.

Lemma flush_batchSize fuel this w this' w' :
  flush fuel this w = (Ok this', w') -> batchSize this' = batchSize this.
Proof.
  revert this w. induction fuel as [|fuel IH]; intros this w; simpl.
  - destruct (0 <? _)%nat; [done|by intros [= <- _]].
  - destruct (0 <? _)%nat; [|by intros [= <- _]].
    rewrite bind_run. destruct (processBatch this w) as [[t1| |] w1] eqn:E; [|done..].
    intros H%IH. rewrite H. by eapply processBatch_batchSize.
Qed.

Lemma runOp_batchSize op this w this' w' :
  runOp op this w = (Ok this', w') -> batchSize this' = batchSize this.
Proof.
  destruct op; simpl; unfold addDocument, addDocuments, thresholdFlush.
  - destruct (_ <=? _); [by intros ->%processBatch_batchSize|by intros [= <- _]].
  - destruct (_ <=? _); [by intros ->%processBatch_batchSize|by intros [= <- _]].
  - apply processBatch_batchSize.
  - apply flush_batchSize.
Qed.

Lemma emits_flush fuel this :
  emits (boundedBulk (Z.to_nat (batchSize this))) (flush fuel this).
Proof.
  revert this. induction fuel as [|fuel IH]; intros this; simpl.
  - destruct (0 <? _)%nat; [apply emits_diverge|apply emits_ret].
  - destruct (0 <? _)%nat; [|apply emits_ret].
    intros w. rewrite bind_run.
    destruct (emits_processBatch this w) as (n1 & E1 & F1).
    destruct (processBatch this w) as [[t1| |] w1] eqn:E; simpl in E1;
      [|by exists n1..].
    destruct (IH t1 w1) as (n2 & E2 & F2).
    rewrite (processBatch_batchSize _ _ _ _ E) in F2.
    exists (n1 ++ n2)%list. rewrite E2, E1, app_assoc. split; [done|].
    by apply Forall_app.
Qed.

Lemma emits_runOp op this :
  emits (boundedBulk (Z.to_nat (batchSize this))) (runOp op this).
Proof.
  destruct op; simpl; unfold addDocument, addDocuments, thresholdFlush.
  - destruct (_ <=? _); [apply (emits_processBatch (enqueue this _))|apply emits_ret].
  - destruct (_ <=? _); [apply (emits_processBatch (enqueue this _))|apply emits_ret].
  - apply emits_processBatch.
  - apply emits_flush.
Qed.

Lemma emits_runOps ops this :
  emits (boundedBulk (Z.to_nat (batchSize this))) (runOps ops this).
Proof.
  revert this. induction ops as [|op ops IH]; intros this; simpl.
  - apply emits_ret.
  - intros w. rewrite bind_run.
    destruct (emits_runOp op this w) as (n1 & E1 & F1).
    destruct (runOp op this w) as [[t1| |] w1] eqn:E; simpl in E1;
      [|by exists n1..].
    destruct (IH t1 w1) as (n2 & E2 & F2).
    rewrite (runOp_batchSize _ _ _ _ _ E) in F2.
    exists (n1 ++ n2)%list. rewrite E2, E1, app_assoc. split; [done|].
    by apply Forall_app.
Qed.

End ProcessorFacts.

Section ProcessorRuns.
Import Json Runtime Observe BulkProcessor.

Lemma mapM_omap {A B} (f : A -> option B) (l : list A) :
  Forall (fun x => is_Some (f x)) l -> mapM f l = Some (omap f l).
Proof.
  induction 1 as [|x l [y Hy] _ IH]; [done|].
  simpl. rewrite Hy. simpl. by rewrite IH.
Qed.

Lemma identified_filter p batch :
  identified batch -> identified (List.filter p batch).
Proof.
  unfold identified. rewrite !Forall_forall. intros H i Hi. apply H.
  apply list_elem_of_In in Hi. apply filter_In in Hi as [Hi _].
  by apply list_elem_of_In.
Qed.

Lemma identified_upserts batch :
  identified batch -> Forall (fun d => is_Some (idOf d)) (upsertsOf batch).
Proof.
  intros H. unfold upsertsOf. apply Forall_fmap.
  exact (identified_filter _ _ H).
Qed.

Lemma deleteIds_identified batch :
  identified batch ->
  mapM (fun i => toString (jget "_id" (document i))) (List.filter isDelete batch)
  = Some (deletesOf batch).
Proof.
  intros H. unfold deletesOf. apply (mapM_omap (fun i => idOf (document i))).
  exact (identified_filter _ _ H).
Qed.

(** *** A healthy backend *)

Lemma forEach_delete_healthy ids w :
  healthy w ->
  forEach (fun docId => _ ← OpenSearchService.deleteDocument docId; mret tt) ids w
  = (Ok tt, mkWorld (mongo w) (foldl (fun st id => base.delete id st) (os w) ids)
              [] (trace w ++ map EvOsDelete ids)).
Proof.
  revert w. induction ids as [|id ids IH]; intros w Hw.
  - simpl. rewrite app_nil_r. unfold healthy in Hw. destruct w; simpl in *.
    by rewrite Hw.
  - cbn [forEach]. rewrite !bind_run.
    rewrite (deleteDocument_answers id w (healthy_answers 1 w Hw)).
    io_unfold. rewrite IH by (unfold healthy; simpl; by rewrite Hw).
    cbn [mongo os trace foldl map]. by rewrite <- app_assoc.
Qed.

Lemma attemptBatch_healthy batch w :
  healthy w -> identified batch ->
  attemptBatch batch w
  = (Ok tt, mkWorld (mongo w) (batchEffect batch (os w)) []
              (trace w ++ batchCalls batch)).
Proof.
  intros Hw Hid. unfold attemptBatch. rewrite (deleteIds_identified batch Hid).
  fold (upsertsOf batch). unfold batchEffect, batchCalls.
  destruct (mapM_bulkEntry_is_Some _ (identified_upserts batch Hid)) as [body Hbody].
  rewrite Hbody. rewrite bind_run.
  destruct (upsertsOf batch) as [|d docs] eqn:Hup.
  - simpl in Hbody. injection Hbody as <-. cbn [length Nat.ltb Nat.leb].
    io_unfold. rewrite (forEach_delete_healthy _ w Hw). done.
  - cbn [length Nat.ltb Nat.leb]. rewrite bind_run.
    rewrite (bulkIndex_healthy (d :: docs) body w) by done.
    io_unfold. rewrite forEach_delete_healthy by done.
    cbn [mongo os trace]. rewrite <- app_assoc.
    destruct body as [|a body]; [|done].
    apply length_mapM in Hbody. done.
Qed.

Lemma processBatchWithRetry_healthy batch w :
  healthy w -> identified batch ->
  processBatchWithRetry batch w
  = (Ok tt, mkWorld (mongo w) (batchEffect batch (os w)) []
              (trace w ++ batchCalls batch)).
Proof.
  intros Hw Hid. unfold processBatchWithRetry. cbn [retryLoop].
  by rewrite tryCatch_eq, attemptBatch_healthy.
Qed.

Lemma identified_take n q : identified q -> identified (take n q).
Proof. apply Forall_take. Qed.

Lemma identified_drop n q : identified q -> identified (drop n q).
Proof. apply Forall_drop. Qed.

Lemma processBatch_healthy this w :
  healthy w -> processing this = false -> queue this <> [] ->
  identified (queue this) ->
  let n := Z.to_nat (batchSize this) in
  processBatch this w
  = (Ok (mkProcessor (batchSize this) (drop n (queue this)) false
           (mkStats (processed (stats this) + length (take n (queue this)))
                    (errors (stats this)))),
     mkWorld (mongo w) (batchEffect (take n (queue this)) (os w)) []
             (trace w ++ batchCalls (take n (queue this)))).
Proof.
  intros Hw Hp Hq Hid n. unfold processBatch. rewrite Hp.
  destruct (queue this) as [|i q] eqn:E; [done|]. cbn [orb length Nat.eqb].
  unfold splice0. fold n. rewrite tryCatch_eq, bind_run.
  rewrite processBatchWithRetry_healthy; [done|done|by apply identified_take].
Qed.

(** On a healthy backend [flush] drains the queue, in at most one pass per
    queued operation. *)
Lemma flush_healthy fuel this w :
  healthy w -> processing this = false -> 1 <= batchSize this ->
  identified (queue this) -> (length (queue this) <= fuel)%nat ->
  exists this' w',
    flush fuel this w = (Ok this', w')
    /\ queue this' = []
    /\ stats this' = mkStats (processed (stats this) + length (queue this))
                             (errors (stats this))
    /\ healthy w' /\ mongo w' = mongo w.
Proof.
  revert this w. induction fuel as [|fuel IH]; intros this w Hw Hp Hbs Hid Hlen.
  - destruct (queue this) eqn:E; [|simpl in Hlen; lia].
    exists this, w. simpl. rewrite E. simpl. split_and!; try done.
    destruct (stats this). simpl. f_equal. lia.
  - cbn [flush]. destruct (queue this) as [|i q] eqn:E.
    + exists this, w. simpl. split_and!; try done.
      destruct (stats this). simpl. f_equal. lia.
    + cbn [length Nat.ltb Nat.leb]. rewrite bind_run.
      rewrite (processBatch_healthy this w) by (rewrite ?E; done).
      rewrite E. set (n := Z.to_nat (batchSize this)).
      assert (1 <= n)%nat by lia.
      destruct (IH (mkProcessor (batchSize this) (drop n (i :: q)) false
                      (mkStats (processed (stats this) + length (take n (i :: q)))
                               (errors (stats this))))
                  (mkWorld (mongo w) (batchEffect (take n (i :: q)) (os w)) []
                           (trace w ++ batchCalls (take n (i :: q)))))
        as (this' & w' & Hrun & Hq' & Hst & Hw' & Hm);
        [done|done|done|by apply identified_drop| |].
      * cbn [queue]. rewrite length_drop. simpl in *. lia.
      * exists this', w'. split; [exact Hrun|]. split; [done|].
        split; [|done]. rewrite Hst. cbn [processed errors stats queue].
        f_equal. rewrite length_take, length_drop. cbn [length]. lia.
Qed.

(** *** A backend that rejects the call *)

Lemma attemptBatch_rejected batch :
  batch <> [] -> identified batch ->
  exists ev, forall w e s,
    script w = Throws e :: s -> statusCode e <> Some 404%nat ->
    attemptBatch batch w = (Err e, called ev w).
Proof.
  intros Hne Hid.
  destruct (mapM_bulkEntry_is_Some _ (identified_upserts batch Hid)) as [body Hbody].
  destruct (upsertsOf batch) as [|d docs] eqn:Hup.
  - destruct (deletesOf batch) as [|id ids] eqn:Hdel.
    + exfalso. unfold upsertsOf, deletesOf in *.
      destruct batch as [|i batch]; [done|]. simpl in Hup, Hdel.
      destruct (isDelete i); simpl in *; [|done].
      apply Forall_cons in Hid as [[x Hx] _]. by rewrite Hx in Hdel.
    + exists (EvOsDelete id). intros w e s Hs He. unfold attemptBatch.
      rewrite (deleteIds_identified batch Hid), Hdel. fold (upsertsOf batch).
      rewrite Hup. cbn [length Nat.ltb Nat.leb forEach]. rewrite !bind_run.
      io_unfold. by rewrite (deleteDocument_rethrows id w e s).
  - exists (EvOsBulk body). intros w e s Hs He. unfold attemptBatch.
    rewrite (deleteIds_identified batch Hid). fold (upsertsOf batch).
    rewrite Hup. cbn [length Nat.ltb Nat.leb]. rewrite !bind_run.
    unfold OpenSearchService.bulkIndex. rewrite Hbody. unfold Client.bulk.
    rewrite !bind_run. by rewrite (driverCall_throws _ w e s).
Qed.

Lemma retryLoop_rejected batch maxRetries remaining attempt lastError w e w1 :
  attemptBatch batch w = (Err e, w1) ->
  retryLoop batch maxRetries (S remaining) attempt lastError w
  = (_ ← (if (attempt <? maxRetries)%nat
          then sleep (2 ^ Z.of_nat attempt * 1000) else mret tt);
     retryLoop batch maxRetries remaining (S attempt) e) w1.
Proof. intros H. cbn [retryLoop]. by rewrite tryCatch_eq, H. Qed.

(** Three rejected attempts: two back-offs, of 2 s and 4 s, and the last
    error is thrown. *)
Lemma processBatchWithRetry_exhausted batch :
  batch <> [] -> identified batch ->
  exists ev, forall w e1 e2 e3 rest,
    script w = Throws e1 :: Throws e2 :: Throws e3 :: rest ->
    statusCode e1 <> Some 404%nat -> statusCode e2 <> Some 404%nat ->
    statusCode e3 <> Some 404%nat ->
    processBatchWithRetry batch w
    = (Err e3, mkWorld (mongo w) (os w) rest
                 (trace w ++ [ev; EvSleep 2000; ev; EvSleep 4000; ev])).
Proof.
  intros Hne Hid. destruct (attemptBatch_rejected batch Hne Hid) as [ev Hev].
  exists ev. intros w e1 e2 e3 rest Hs H1 H2 H3.
  unfold processBatchWithRetry.
  rewrite (retryLoop_rejected _ _ _ _ _ _ _ _ (Hev w e1 _ Hs H1)).
  cbn [Nat.ltb Nat.leb]. rewrite bind_run. unfold sleep, emit, called.
  rewrite Hs. cbn [tail mongo os script trace].
  erewrite retryLoop_rejected; [|by apply (Hev _ e2 (Throws e3 :: rest))].
  cbn [Nat.ltb Nat.leb]. rewrite bind_run. unfold sleep, emit, called.
  cbn [tail mongo os script trace].
  erewrite retryLoop_rejected; [|by apply (Hev _ e3 rest)].
  cbn [Nat.ltb Nat.leb]. rewrite bind_run. unfold called.
  cbn [tail mongo os script trace retryLoop].
  by rewrite <- !app_assoc.
Qed.

End ProcessorRuns.

(** ** Claims about the batch processor *)

Section ProcessorClaims.
Import Json Runtime Observe BulkProcessor.

Lemma bulkSizes_bounded n (new : list Event) :
  Forall (boundedBulk n) new ->
  Forall (fun k => (1 <= k <= n)%nat) (bulkSizes new).
Proof.
  unfold bulkSizes. induction 1 as [|ev new Hev _ IH]; [constructor|].
  destruct ev; simpl; try done. by constructor.
Qed.

(** C6. Whatever the client does with the processor ([add], [addMany],
    timer ticks, flushes), whatever the configured batch size and whatever
    the backend answers, every bulk request that reaches the target adapter
    carries at least 1 and at most [batchSize] documents.  With a batch
    size of at least 1, one pass over a non-empty queue detaches its first
    [min batchSize length] operations, between 1 and [batchSize] of them,
    and hands exactly those to the retry loop: either the pass succeeds,
    the operations behind are the new queue and [stats.processed] grows by
    the size of the batch, or the batch is put back in front of them and
    [stats.errors] grows by that size.  On a healthy backend the pass makes
    the calls of the detached batch and no other, one call or bulk entry
    for each of its operations.  A pass over an empty queue, and a flush of
    an empty queue, do nothing at all. *)
Theorem batch_bound (this : t) (w : World) (ops : list Op) :
  let n := Z.to_nat (batchSize this) in
  (exists new,
      trace (exec (runOps ops this) w) = (trace w ++ new)%list
      /\ Forall (fun k => (1 <= k <= n)%nat) (bulkSizes new))
  /\ (1 <= batchSize this -> processing this = false -> queue this <> [] ->
      let batch := take n (queue this) in
      let rest := drop n (queue this) in
      (1 <= length batch <= n)%nat
      /\ (exists this',
            processBatch this w
            = (Ok this', exec (processBatchWithRetry batch) w)
            /\ (queue this' = rest
                /\ processed (stats this')
                   = (processed (stats this) + length batch)%nat
                /\ errors (stats this') = errors (stats this)
                \/ queue this' = (batch ++ rest)%list
                   /\ processed (stats this') = processed (stats this)
                   /\ errors (stats this')
                      = (errors (stats this) + length batch)%nat))
      /\ (healthy w -> identified batch ->
          processBatch this w
          = (Ok (mkProcessor (batchSize this) rest false
                   (mkStats (processed (stats this) + length batch)
                            (errors (stats this)))),
             mkWorld (mongo w) (batchEffect batch (os w)) []
                     (trace w ++ batchCalls batch))
          /\ (length (upsertsOf batch) + length (deletesOf batch)
              = length batch)%nat
          /\ batchCalls batch <> []))
  /\ (queue this = [] ->
      processBatch this w = (Ok this, w)
      /\ forall fuel, flush fuel this w = (Ok this, w)).
Proof.
  intros n. split_and!.
  - destruct (emits_runOps ops this w) as (new & E & F). exists new.
    split; [exact E|]. by apply bulkSizes_bounded.
  - intros Hbs Hp Hq batch rest.
    assert (1 <= length batch <= n)%nat as Hlen.
    { unfold batch. rewrite length_take. destruct (queue this); [done|].
      simpl. lia. }
    assert (processBatch this w
            = match (processBatchWithRetry batch w).1 with
              | Ok _ =>
                  (Ok (mkProcessor (batchSize this) rest false
                         (mkStats (processed (stats this) + length batch)
                                  (errors (stats this)))),
                   exec (processBatchWithRetry batch) w)
              | Err _ =>
                  (Ok (mkProcessor (batchSize this) (batch ++ rest) false
                         (mkStats (processed (stats this))
                                  (errors (stats this) + length batch))),
                   exec (processBatchWithRetry batch) w)
              | Diverge => (Diverge, exec (processBatchWithRetry batch) w)
              end) as Hpass.
    { unfold processBatch, exec. rewrite Hp. subst batch rest.
      destruct (queue this) as [|i q] eqn:E; [done|]. cbn [orb length Nat.eqb].
      unfold splice0. fold n. rewrite tryCatch_eq, bind_run.
      by destruct (processBatchWithRetry (take n (i :: q)) w) as [[[]| |] w1]. }
    split; [exact Hlen|]. split.
    + pose proof (settles_retryLoop batch 3 3 1 (mkError None "undefined") w) as Hs.
      fold (processBatchWithRetry batch) in Hs.
      rewrite Hpass. unfold exec.
      destruct (processBatchWithRetry batch w) as [[[]| |] w1]; simpl in Hs; [| |done].
      * eexists. split; [reflexivity|]. by left.
      * eexists. split; [reflexivity|]. by right.
    + intros Hw Hid.
      rewrite Hpass. unfold exec.
      rewrite (processBatchWithRetry_healthy batch w Hw Hid). cbn [fst snd].
      split; [done|].
      assert (length (upsertsOf batch) + length (deletesOf batch) = length batch)%nat
        as Hcount.
      { pose proof (deleteIds_identified batch Hid) as Hdel.
        apply length_mapM in Hdel. unfold upsertsOf. rewrite length_map, <- Hdel.
        clear. induction batch as [|i l IH]; [done|]. simpl.
        destruct (isDelete i); simpl; lia. }
      split; [exact Hcount|].
      unfold batchCalls.
      destruct (mapM_bulkEntry_is_Some _ (identified_upserts batch Hid)) as [body Hbody].
      rewrite Hbody. apply length_mapM in Hbody.
      destruct body as [|a body]; [|done]. simpl in Hbody.
      destruct (deletesOf batch); [simpl in Hcount; lia|done].
  - intros Hq. split.
    + unfold processBatch. rewrite Hq. simpl. by rewrite orb_true_r.
    + intros fuel. destruct fuel; simpl; by rewrite Hq.
Qed.

Lemma batch_bound_witness :
  let this := mkProcessor 2 (map (fun d => mkQueueItem d "upsert") (sampleAds 3))
                false (mkStats 0 0) in
  let w := mkWorld [] ∅ [Throws (mkError None "ECONNRESET")] [] in
  let w0 := mkWorld [] ∅ [] [] in
  let ops := [OpAddMany (sampleAds 5) "upsert"; OpAdd (sampleAd 9 "Active") "delete";
              OpFlush 4] in
  let batch := take 2 (queue this) in
  let rest := drop 2 (queue this) in
  (exists new,
      trace (exec (runOps ops this) w) = (trace w ++ new)%list
      /\ Forall (fun k => (1 <= k <= 2)%nat) (bulkSizes new))
  /\ (1 <= length batch <= 2)%nat
  /\ (exists this',
        processBatch this w = (Ok this', exec (processBatchWithRetry batch) w)
        /\ (queue this' = rest
            /\ processed (stats this') = 2%nat /\ errors (stats this') = 0%nat
            \/ queue this' = (batch ++ rest)%list
               /\ processed (stats this') = 0%nat /\ errors (stats this') = 2%nat))
  /\ processBatch this w0
     = (Ok (mkProcessor 2 rest false (mkStats 2 0)),
        mkWorld [] (batchEffect batch ∅) [] (batchCalls batch)).
Proof.
  intros this w w0 ops batch rest.
  destruct (batch_bound this w ops) as (Hbulk & Hpass & _).
  destruct (batch_bound this w0 ops) as (_ & Hpass0 & _).
  split; [exact Hbulk|].
  destruct Hpass as (Hlen & Hany & _);
    [vm_compute; discriminate|reflexivity|discriminate|].
  destruct Hpass0 as (_ & _ & Hok);
    [vm_compute; discriminate|reflexivity|discriminate|].
  split; [exact Hlen|]. split; [exact Hany|].
  apply Hok; [reflexivity|].
  repeat constructor; vm_compute; eauto.
Defined.

(** C4. When the target adapter rejects the call of each of the 3 attempts
    at a batch, the pass backs off 2 s and then 4 s between the attempts,
    puts the whole batch back in front of the operations that were not yet
    taken (the queue is what it was), adds the batch size to the error
    counter and resolves; [flush] never throws, and once the backend
    answers again it drains the queue. *)
Theorem retry_exhaustion_requeues (this : t) (w : World)
    (e1 e2 e3 : JsError) (rest : list Fault) :
  processing this = false ->
  queue this <> [] ->
  1 <= batchSize this ->
  identified (queue this) ->
  script w = Throws e1 :: Throws e2 :: Throws e3 :: rest ->
  statusCode e1 <> Some 404%nat ->
  statusCode e2 <> Some 404%nat ->
  statusCode e3 <> Some 404%nat ->
  let n := Z.to_nat (batchSize this) in
  let batch := take n (queue this) in
  let requeued :=
    mkProcessor (batchSize this) (batch ++ drop n (queue this)) false
      (mkStats (processed (stats this)) (errors (stats this) + length batch)) in
  (exists ev,
      processBatch this w
      = (Ok requeued,
         mkWorld (mongo w) (os w) rest
                 (trace w ++ [ev; EvSleep 2000; ev; EvSleep 4000; ev])))
  /\ queue requeued = queue this
  /\ (forall fuel e, outcome (flush fuel this) w <> Err e)
  /\ (rest = [] ->
      exists this' w',
        flush (S (length (queue this))) this w = (Ok this', w')
        /\ queue this' = []
        /\ stats this' = mkStats (processed (stats this) + length (queue this))
                                 (errors (stats this) + length batch)).
Proof.
  intros Hp Hq Hbs Hid Hs H1 H2 H3 n batch requeued.
  assert (batch <> []) as Hbatch.
  { unfold batch. destruct (queue this); [done|].
    assert (n = S (pred n)) as -> by lia. done. }
  destruct (processBatchWithRetry_exhausted batch Hbatch
              (identified_take n _ Hid)) as [ev Hev].
  assert (processBatch this w
          = (Ok requeued,
             mkWorld (mongo w) (os w) rest
                     (trace w ++ [ev; EvSleep 2000; ev; EvSleep 4000; ev])))
    as Hpass.
  { unfold processBatch. rewrite Hp.
    destruct (queue this) as [|i q] eqn:E; [done|]. cbn [orb length Nat.eqb].
    unfold splice0. fold n. fold batch. rewrite tryCatch_eq, bind_run.
    by rewrite (Hev w e1 e2 e3 rest). }
  split_and!.
  - by exists ev.
  - apply take_drop.
  - intros fuel e. apply no_throw_flush.
  - intros ->. cbn [flush]. destruct (queue this) as [|i q] eqn:E; [done|].
    cbn [length Nat.ltb Nat.leb]. rewrite bind_run, Hpass.
    destruct (flush_healthy (S (length q)) requeued
                (mkWorld (mongo w) (os w) []
                   (trace w ++ [ev; EvSleep 2000; ev; EvSleep 4000; ev])))
      as (this' & w' & Hrun & Hq' & Hst & _); try done.
    + unfold requeued, batch. cbn [queue]. by rewrite take_drop.
    + unfold requeued, batch. cbn [queue]. by rewrite take_drop.
    + exists this', w'. split; [exact Hrun|]. split; [done|].
      rewrite Hst. unfold requeued, batch. cbn [queue stats processed errors].
      by rewrite take_drop.
Qed.

Lemma retry_exhaustion_witness :
  let this := mkProcessor 2
                (map (fun d => mkQueueItem d "upsert") (sampleAds 3))
                false (mkStats 0 0) in
  let e := mkError (Some 503%nat) "Service Unavailable" in
  let w := mkWorld [] ∅ [Throws e; Throws e; Throws e] [] in
  exists ev,
    processBatch this w
    = (Ok (mkProcessor 2 (queue this) false (mkStats 0 2)),
       mkWorld [] ∅ [] [ev; EvSleep 2000; ev; EvSleep 4000; ev]).
Proof.
  intros this e w.
  assert (identified (queue this)) as Hid
    by (repeat constructor; vm_compute; eauto).
  exact (proj1 (retry_exhaustion_requeues this w e e e []
                  eq_refl ltac:(discriminate) ltac:(vm_compute; discriminate)
                  Hid eq_refl ltac:(discriminate) ltac:(discriminate)
                  ltac:(discriminate))).
Defined.

End ProcessorClaims.

Section OrderingClaim.
Import Json Runtime Observe BulkProcessor.


Lemma upsert_single_effect X v st :
  idOf v = Some X ->
  batchEffect [mkQueueItem v "upsert"] st = <[X := upserted X v (st !! X)]> st.
Proof.
  intros H. unfold batchEffect, upsertsOf, deletesOf. cbn.
  unfold upsertAll. cbn [foldl]. by rewrite H.
Qed.



(** The merge is partial: a property that only the first update carries is
    not removed by the second.  After [end_date] is set by v1 and left out
    by v2, the stored document has the status of v2 and still the
    [end_date] of v1. *)
Example first_update_only_field_survives :
  let v1 := (sampleAd 1 "Active" ++ [("end_date", JStr "2024-01-01")])%list in
  let v2 := sampleAd 1 "Paused" in
  let w := mkWorld [v2] ∅ [] [] in
  let w' := exec (this1 ← addDocument v1 "upsert" (mkProcessor 100 [] false (mkStats 0 0));
                  this2 ← addDocument v2 "upsert" this1;
                  flush 1 this2) w in
  (os w' !! oidOf 1) ≫= jget "status" = Some (JStr "Paused")
  /\ (os w' !! oidOf 1) ≫= jget "end_date" = Some (JStr "2024-01-01").
Proof. split; by vm_compute. Qed.

End OrderingClaim.

(** ** Claims about the count comparisons *)

Section CountClaims.
Import Json Runtime Observe.

Lemma countDocuments_run w :
  Collection.countDocuments w
  = (match script w with
     | Throws e :: _ => Err e
     | _ => Ok (Z.of_nat (length (mongo w)))
     end, called EvMongoCount w).
Proof.
  unfold Collection.countDocuments. rewrite bind_run. unfold driverCall, called.
  by destruct (script w) as [|[] ?].
Qed.

Lemma getIndexStats_run w :
  OpenSearchService.getIndexStats w
  = (match script w with
     | Throws e :: _ => Err e
     | _ => Ok (OpenSearchService.mkIndexStats (Z.of_nat (size (os w))))
     end, called EvOsStats w).
Proof.
  unfold OpenSearchService.getIndexStats, Client.stats. rewrite !bind_run.
  unfold driverCall, called. by destruct (script w) as [|[] ?].
Qed.

Lemma count_run w :
  Client.count w
  = (match script w with
     | Throws e :: _ => Err e
     | _ => Ok (Z.of_nat (size (os w)))
     end, called EvOsCount w).
Proof.
  unfold Client.count. rewrite bind_run. unfold driverCall, called.
  by destruct (script w) as [|[] ?].
Qed.

Lemma answers_head_ok {A} (w : World) (a : A) :
  answers 1 w ->
  match script w with Throws e :: _ => Err e | _ => Ok a end = Ok a.
Proof.
  unfold answers. destruct (script w) as [|[] ?]; try done.
  intros [H _]%Forall_cons. by destruct (H e).
Qed.

Lemma fault_cases (f : Fault) : (exists e, f = Throws e) \/ (forall e, f <> Throws e).
Proof. destruct f; [by right|left; eauto|by right]. Qed.

Lemma answers_dec n w : answers n w \/ ~ answers n w.
Proof.
  unfold answers. induction (take n (script w)) as [|f l IH]; [left; constructor|].
  destruct (fault_cases f) as [[e ->]|Hf].
  - right. intros [H _]%Forall_cons. by destruct (H e).
  - destruct IH as [IH|IH]; [left; by constructor|right].
    by intros [_ ?]%Forall_cons.
Qed.

(** The two count calls that open a reconciliation pass: both answered, or
    an error after at most those two calls. *)
Lemma reconciliation_counts_ok {A} (k : Z -> OpenSearchService.IndexStats -> IO A) w :
  answers 2 w ->
  (mongoCount ← Collection.countDocuments;
   osStats ← OpenSearchService.getIndexStats;
   k mongoCount osStats) w
  = k (Z.of_nat (length (mongo w)))
      (OpenSearchService.mkIndexStats (Z.of_nat (size (os w))))
      (called EvOsStats (called EvMongoCount w)).
Proof.
  rewrite bind_run, countDocuments_run.
  unfold answers. destruct w as [src tgt s tr].
  destruct s as [|[|e1|l1] [|[|e2|l2] s]]; intros H;
    rewrite ?bind_run, ?getIndexStats_run;
    cbn [called script tail mongo os trace take] in *;
    first
      [ reflexivity
      | by (exfalso; apply Forall_cons in H as [H1 H2];
            first [ by destruct (H1 e1)
                  | apply Forall_cons in H2 as [H2 _]; by destruct (H2 e2) ]) ].
Qed.

Lemma reconciliation_counts_err w :
  ~ answers 2 w ->
  exists e w' new,
    (forall A (k : Z -> OpenSearchService.IndexStats -> IO A),
        (mongoCount ← Collection.countDocuments;
         osStats ← OpenSearchService.getIndexStats;
         k mongoCount osStats) w = (Err e, w'))
    /\ os w' = os w /\ mongo w' = mongo w
    /\ trace w' = (trace w ++ new)%list /\ targetWrites new = [].
Proof.
  unfold answers. destruct w as [src tgt s tr].
  destruct s as [|[|e1|l1] [|[|e2|l2] s]]; intros H;
    cbn [called script tail mongo os trace take] in *;
    first
      [ by (exfalso; apply H; repeat constructor)
      | by (eexists _, _, [EvMongoCount]; split;
            [intros A k; rewrite bind_run, countDocuments_run; reflexivity|])
      | (eexists _, _, [EvMongoCount; EvOsStats]; split;
         [intros A k; rewrite bind_run, countDocuments_run;
          cbn [script]; cbv iota; rewrite bind_run, getIndexStats_run; reflexivity|];
         cbn; by rewrite <- app_assoc) ].
Qed.

Import ReconciliationService.

(** C5. When the target holds more documents than the source,
    [checkAndSync] leaves the target exactly as it is, whatever else
    happens: it issues no bulk request and no delete.  When the service is
    running and both count calls are answered it returns [inSync: false],
    [synced: 0] and the surplus as [orphanedDocs], having made no call but
    the two counts. *)
Theorem orphaned_drift_is_not_repaired (fuel : nat) (this : t) (w : World) :
  (length (mongo w) < size (os w))%nat ->
  let mc := Z.of_nat (length (mongo w)) in
  let oc := Z.of_nat (size (os w)) in
  os (exec (checkAndSync fuel this) w) = os w
  /\ (exists new,
        trace (exec (checkAndSync fuel this) w) = (trace w ++ new)%list
        /\ targetWrites new = [])
  /\ (isRunning this = true -> answers 2 w ->
      checkAndSync fuel this w
      = (Ok (Some (mkResult true (Some false) (Some mc) (Some oc) (Some (mc - oc))
                     (Some 0%nat) None (Some (oc - mc)) None),
             mkService true
               (mkStats (S (totalChecks (stats this))) (totalSyncs (stats this))
                        (documentsSynced (stats this)) (errors (stats this)))),
         called EvOsStats (called EvMongoCount w))).
Proof.
  intros Hlt mc oc.
  assert ((mc - oc =? 0) = false) as Hz by (apply Z.eqb_neq; lia).
  assert ((0 <? mc - oc) = false) as Hp by (apply Z.ltb_ge; lia).
  assert (Z.abs (mc - oc) = oc - mc) as Habs by lia.
  unfold exec, checkAndSync. destruct (isRunning this) eqn:Hrun; cbn [negb]; cbv iota.
  2:{ split; [done|]. split; [|done]. exists []. by rewrite app_nil_r. }
  rewrite tryCatch_eq.
  destruct (answers_dec 2 w) as [Hans|Hans].
  - rewrite (reconciliation_counts_ok _ w Hans).
    cbn [OpenSearchService.docs_count]. fold mc oc. rewrite Hz, Hp, Habs.
    io_unfold. split; [done|].
    split; [by exists [EvMongoCount; EvOsStats]; rewrite <- app_assoc|done].
  - destruct (reconciliation_counts_err w Hans)
      as (e & w' & new & Hrun' & Hos & _ & Htr & Hnew).
    rewrite Hrun'. io_unfold. split; [done|]. split; [by exists new|done].
Qed.

Lemma orphaned_drift_witness :
  let this := mkService true (mkStats 0 0 0 0) in
  let w := mkWorld (sampleAds 1) (indexOf (sampleAds 3)) [] [] in
  (length (mongo w) < size (os w))%nat /\
  checkAndSync 4 this w
  = (Ok (Some (mkResult true (Some false) (Some 1) (Some 3) (Some (-2))
                 (Some 0%nat) None (Some 2) None),
         mkService true (mkStats 1 0 0 0)),
     mkWorld (mongo w) (os w) [] [EvMongoCount; EvOsStats]).
Proof.
  intros this w.
  assert (length (mongo w) < size (os w))%nat as H by (vm_compute; lia).
  split; [exact H|].
  pose proof (proj2 (proj2 (orphaned_drift_is_not_repaired 4 this w H))
                eq_refl (healthy_answers 2 w eq_refl)) as E.
  rewrite E. vm_compute. reflexivity.
Defined.

End CountClaims.

Section MonitorFacts.
Import Json Runtime Observe DocumentCountMonitor.

Lemma fullSyncRequests_app tr new :
  fullSyncRequests (tr ++ new) = (fullSyncRequests tr + fullSyncRequests new)%nat.
Proof. unfold fullSyncRequests. by rewrite List.filter_app, length_app. Qed.

Lemma fullSyncRequests_notPost new :
  Forall notPost new -> fullSyncRequests new = 0%nat.
Proof.
  unfold fullSyncRequests. induction 1 as [|ev new Hev _ IH]; [done|].
  destruct ev; simpl; done.
Qed.

Lemma emits_countDocuments (allowed : Event -> Prop) :
  allowed EvMongoCount -> emits allowed Collection.countDocuments.
Proof.
  intros H. unfold Collection.countDocuments.
  apply emits_bind; [by apply emits_driverCall|]. intros _.
  apply emits_bind; [apply emits_getWorld|intros; apply emits_ret].
Qed.

Lemma emits_findPage (allowed : Event -> Prop) skip limit :
  allowed (EvMongoFindPage skip limit) ->
  emits allowed (Collection.findPage skip limit).
Proof.
  intros H. unfold Collection.findPage.
  apply emits_bind; [by apply emits_driverCall|]. intros _.
  apply emits_bind; [apply emits_getWorld|intros; apply emits_ret].
Qed.

Lemma emits_exists (allowed : Event -> Prop) id :
  allowed (EvOsExists id) -> emits allowed (Client.exists_ id).
Proof.
  intros H. unfold Client.exists_.
  apply emits_bind; [by apply emits_driverCall|]. intros _.
  apply emits_bind; [apply emits_getWorld|intros; apply emits_ret].
Qed.

Lemma emits_logDetailedMismatchInfo : emits notPost logDetailedMismatchInfo.
Proof.
  unfold logDetailedMismatchInfo.
  apply emits_tryCatch; [|intros; apply emits_ret].
  apply emits_bind; [by apply emits_findPage|]. intros docs.
  destruct (mapM _ docs); [|apply emits_throw].
  apply emits_forEach. intros id.
  apply emits_tryCatch; [|intros; apply emits_ret].
  apply emits_bind; [by apply emits_exists|intros; apply emits_ret].
Qed.

Lemma emits_pageLoop fuel batchSize skip acc :
  emits notPost (SyncService.pageLoop fuel batchSize skip acc).
Proof.
  revert skip acc. induction fuel as [|fuel IH]; intros skip acc; simpl.
  - apply emits_diverge.
  - apply emits_bind; [by apply emits_findPage|]. intros docs.
    destruct (length docs =? 0)%nat; [apply emits_ret|].
    apply emits_bind.
    + apply emits_tryCatch; [|intros; apply emits_ret].
      apply emits_bind; [by apply emits_bulkIndex|intros; apply emits_ret].
    + intros acc'. apply emits_bind; [by apply emits_emit|intros; apply IH].
Qed.

Lemma emits_performFullSync fuel batchSize :
  emits notPost (SyncService.performFullSync fuel batchSize).
Proof.
  unfold SyncService.performFullSync.
  apply emits_bind; [by apply emits_countDocuments|intros; apply emits_pageLoop].
Qed.

(** A triggered auto-sync posts exactly one full-sync request. *)
Lemma triggerAutoSync_posts_once fuel this w :
  fullSyncRequests (trace (exec (triggerAutoSync fuel this) w))
  = S (fullSyncRequests (trace w)).
Proof.
  unfold exec, triggerAutoSync, postFullSync.
  assert (emits notPost
            (tryCatch (SyncService.performFullSync fuel 1000)
                      (fun error => throw (mkError (Some 500%nat) (message error)))))
    as Hsync by (apply emits_tryCatch; [apply emits_performFullSync|intros; apply emits_throw]).
  rewrite tryCatch_eq, !bind_run.
  assert (exists r, driverCall (EvHttpPost fullSyncUrl) w
                    = (r, called (EvHttpPost fullSyncUrl) w) /\ r <> Diverge)
    as (r & -> & Hr)
    by (unfold driverCall, called; destruct (script w) as [|[] ?]; by eexists).
  assert (fullSyncRequests (trace (called (EvHttpPost fullSyncUrl) w))
          = S (fullSyncRequests (trace w))) as Hpost
    by (unfold called; cbn [trace]; rewrite fullSyncRequests_app;
        change (fullSyncRequests [EvHttpPost fullSyncUrl]) with 1%nat; lia).
  destruct r as [f|e|]; [|by io_unfold|done].
  destruct (Hsync (called (EvHttpPost fullSyncUrl) w)) as (new & E & F).
  destruct (tryCatch _ _ (called (EvHttpPost fullSyncUrl) w)) as [[res|e|] w1];
    cbn [snd] in E; io_unfold;
    rewrite E, ?fullSyncRequests_app, ?(fullSyncRequests_notPost new F), Hpost;
    change (fullSyncRequests [EvSetTimeout 30000]) with 0%nat; lia.
Qed.

(** The two concurrent count calls of [performCountCheck]. *)
Lemma promiseAll2_counts w :
  exists r,
    promiseAll2 getMongoDBCount getOpenSearchCount w
    = (r, called EvOsCount (called EvMongoCount w))
    /\ (answers 2 w ->
        r = Ok (Z.of_nat (length (mongo w)), Z.of_nat (size (os w))))
    /\ (~ answers 2 w -> exists e, r = Err e).
Proof.
  unfold promiseAll2, getMongoDBCount, getOpenSearchCount, answers.
  rewrite countDocuments_run. destruct w as [src tgt s tr].
  destruct s as [|[|e1|l1] [|[|e2|l2] s]];
    rewrite count_run; cbn [called script tail mongo os trace take];
    (eexists; split; [reflexivity|]; split; intros H;
     first
       [ reflexivity
       | by eexists
       | by (exfalso; apply H; repeat constructor)
       | by (exfalso; apply Forall_cons in H as [H1 H2];
             first [ by destruct (H1 e1)
                   | apply Forall_cons in H2 as [H2 _]; by destruct (H2 e2) ]) ]).
Qed.

End MonitorFacts.

Section MonitorClaims.
Import Json Runtime Observe DocumentCountMonitor.

Lemma logDetailedMismatchInfo_resolves w :
  exists w' new,
    logDetailedMismatchInfo w = (Ok tt, w')
    /\ trace w' = (trace w ++ new)%list /\ Forall notPost new.
Proof.
  destruct (emits_logDetailedMismatchInfo w) as (new & E & F).
  assert (settles logDetailedMismatchInfo) as Hs.
  { unfold logDetailedMismatchInfo.
    apply settles_tryCatch; [|intros; apply settles_ret].
    apply settles_bind.
    - unfold Collection.findPage.
      apply settles_bind; [apply settles_driverCall|]. intros _.
      apply settles_bind; [apply settles_getWorld|intros; apply settles_ret].
    - intros docs. destruct (mapM _ docs); [|apply settles_throw].
      apply settles_forEach. intros id.
      apply settles_tryCatch; [|intros; apply settles_ret].
      apply settles_bind; [|intros; apply settles_ret]. unfold Client.exists_.
      apply settles_bind; [apply settles_driverCall|]. intros _.
      apply settles_bind; [apply settles_getWorld|intros; apply settles_ret]. }
  assert (no_throw logDetailedMismatchInfo) as Hn
    by (apply no_throw_tryCatch; intros; apply no_throw_ret).
  specialize (Hs w). specialize (Hn w).
  destruct (logDetailedMismatchInfo w) as [[[]|e|] w']; simpl in *;
    [by exists w', new|by destruct (Hn e)|done].
Qed.

(** C8. When the two counts are equal the count check returns
    [isMatch: true] with difference 0 after the two count calls and nothing
    else: no full-sync request is posted and the monitor's trigger counter
    stays.  A check posts a full-sync request only if the counts differ,
    auto-sync is enabled and the absolute difference exceeds the threshold;
    and when the counts are answered and all three hold, it posts exactly
    one. *)
Theorem count_match_triggers_no_full_sync (fuel : nat) (this : t) (w : World) :
  let mc := Z.of_nat (length (mongo w)) in
  let oc := Z.of_nat (size (os w)) in
  (mc = oc -> answers 2 w ->
   performCountCheck fuel this w
   = (Ok (mkCountCheck mc oc 0 true (autoSyncTriggered (stats this)),
          mkMonitor (autoSyncEnabled this) (autoSyncThreshold this)
            (mkStats (S (checksPerformed (stats this)))
                     (mismatchesDetected (stats this))
                     (autoSyncTriggered (stats this)))),
      called EvOsCount (called EvMongoCount w)))
  /\ (fullSyncRequests (trace (exec (performCountCheck fuel this) w))
      <> fullSyncRequests (trace w) ->
      mc <> oc /\ autoSyncEnabled this = true
      /\ autoSyncThreshold this < Z.abs (mc - oc))
  /\ (answers 2 w -> mc <> oc -> autoSyncEnabled this = true ->
      autoSyncThreshold this < Z.abs (mc - oc) ->
      fullSyncRequests (trace (exec (performCountCheck fuel this) w))
      = S (fullSyncRequests (trace w))).
Proof.
  intros mc oc. unfold exec, performCountCheck. rewrite bind_run.
  destruct (promiseAll2_counts w) as (r & -> & Hok & Herr).
  set (w1 := called EvOsCount (called EvMongoCount w)).
  assert (fullSyncRequests (trace w1) = fullSyncRequests (trace w)) as Hw1.
  { unfold w1, called. cbn [trace]. rewrite <- app_assoc, fullSyncRequests_app.
    change (fullSyncRequests ([EvMongoCount] ++ [EvOsCount])) with 0%nat. lia. }
  destruct (answers_dec 2 w) as [Hans|Hans].
  2:{ destruct (Herr Hans) as [e ->]. cbn [snd]. split_and!; done. }
  rewrite (Hok Hans). cbn [fst snd]. fold mc oc.
  destruct (Z.eqb_spec (Z.abs (mc - oc)) 0) as [Hz|Hnz].
  - (* the counts match *)
    assert (mc = oc) as Hmatch by lia.
    rewrite bind_run. io_unfold. cbn [stats autoSyncTriggered].
    split_and!; [by rewrite Hz|done|done].
  - (* a mismatch: the diagnostic sample, then the guarded trigger *)
    assert (mc <> oc) as Hne by lia.
    rewrite !bind_run.
    destruct (logDetailedMismatchInfo_resolves w1) as (w2 & new & -> & Hw2 & Hnew).
    assert (fullSyncRequests (trace w2) = fullSyncRequests (trace w)) as Hposts
      by (rewrite Hw2, fullSyncRequests_app, (fullSyncRequests_notPost new Hnew); lia).
    cbn [autoSyncEnabled autoSyncThreshold].
    destruct (autoSyncEnabled this) eqn:Hen; cbn [andb].
    + destruct (Z.ltb_spec (autoSyncThreshold this) (Z.abs (mc - oc))) as [Hth|Hth].
      * match goal with
        | |- context [triggerAutoSync fuel ?t w2] =>
            pose proof (triggerAutoSync_posts_once fuel t w2) as Hpost;
            unfold exec in Hpost;
            destruct (triggerAutoSync fuel t w2) as [[t'| |] w3]
        end; cbn [snd] in *; io_unfold; rewrite Hpost, Hposts;
          (split_and!; [done|done|done]).
      * io_unfold. rewrite Hposts. split_and!; [done|done|lia].
    + io_unfold. rewrite Hposts. split_and!; done.
Qed.

Lemma count_match_witness :
  let this := mkMonitor true 100 (mkStats 0 0 0) in
  let w := mkWorld (sampleAds 3) (indexOf (sampleAds 3)) [] [] in
  performCountCheck 5 this w
  = (Ok (mkCountCheck 3 3 0 true 0, mkMonitor true 100 (mkStats 1 0 0)),
     mkWorld (mongo w) (os w) [] [EvMongoCount; EvOsCount]).
Proof.
  intros this w.
  assert (Z.of_nat (length (mongo w)) = Z.of_nat (size (os w))) as H
    by (vm_compute; reflexivity).
  pose proof (proj1 (count_match_triggers_no_full_sync 5 this w) H
                (healthy_answers 2 w eq_refl)) as E.
  rewrite E. vm_compute. reflexivity.
Defined.

End MonitorClaims.

(** ** The identifier scan of the target *)

Section ScanFacts.
Import Json Runtime Observe ReconciliationService.

Lemma ltb_le_ne a x : String.ltb a x = true <-> String.le a x /\ a <> x.
Proof.
  unfold String.le, String.leb, String.ltb.
  destruct (String.compare a x) eqn:E.
  - apply String.compare_eq_iff in E. subst. split; [done|]. by intros [_ []].
  - split; [|done]. intros _. split; [done|]. intros ->.
    pose proof (String.compare_antisym x x) as Ha. rewrite E in Ha. discriminate.
  - split; [done|]. by intros [[] _].
Qed.

Lemma filter_all {A} (P : A -> Prop) `{!forall x, Decision (P x)} (l : list A) :
  Forall P l -> filter P l = l.
Proof.
  induction 1 as [|x l Hx _ IH]; [done|]. by rewrite filter_cons_True, IH.
Qed.

Lemma filter_none {A} (P : A -> Prop) `{!forall x, Decision (P x)} (l : list A) :
  Forall (fun x => ~ P x) l -> filter P l = [].
Proof.
  induction 1 as [|x l Hx _ IH]; [done|]. by rewrite filter_cons_False.
Qed.

(** In a strictly sorted list, the identifiers behind the cursor [a] are
    the ones that follow it. *)
Lemma sorted_filter_after (l1 l2 : list string) (a : string) :
  StronglySorted String.le (l1 ++ a :: l2)%list -> NoDup (l1 ++ a :: l2)%list ->
  filter (fun id => Client.after (Some a) id = true) (l1 ++ a :: l2)%list = l2.
Proof.
  intros Hs Hnd.
  apply StronglySorted_app in Hs as (Hlt & Hs1 & Hs2).
  apply StronglySorted_cons in Hs2 as [Hgt Hs2].
  apply NoDup_app in Hnd as (Hn1 & Hn12 & Hn2). apply NoDup_cons in Hn2 as [Ha Hn2].
  rewrite filter_app, filter_cons_False, (filter_none _ l1), (filter_all _ l2).
  - done.
  - rewrite Forall_forall in Hgt. apply Forall_forall. intros x Hx. simpl.
    apply ltb_le_ne. split; [by apply Hgt|]. by intros ->.
  - apply Forall_forall. intros x Hx. simpl. rewrite ltb_le_ne.
    intros [Hle Hne]. apply Hne. apply (anti_symm String.le); [done|].
    apply Hlt; [done|]. apply list_elem_of_here.
  - simpl. rewrite ltb_le_ne. by intros [_ []].
Qed.

Lemma sortedIds_Permutation st : Client.sortedIds st ≡ₚ (map_to_list st).*1.
Proof. apply merge_sort_Permutation. Qed.

Lemma NoDup_sortedIds st : NoDup (Client.sortedIds st).
Proof. rewrite sortedIds_Permutation. apply NoDup_fst_map_to_list. Qed.

Lemma StronglySorted_sortedIds st : StronglySorted String.le (Client.sortedIds st).
Proof. apply StronglySorted_merge_sort; apply _. Qed.

Lemma sortedIds_dom (st : gmap string Fields) :
  list_to_set (Client.sortedIds st) = dom st.
Proof.
  apply set_eq. intros id. rewrite elem_of_list_to_set, sortedIds_Permutation.
  rewrite elem_of_dom, list_elem_of_fmap. split.
  - intros ([k v] & -> & H%elem_of_map_to_list). by eexists.
  - intros [v Hv]. exists (id, v). split; [done|]. by apply elem_of_map_to_list.
Qed.

Lemma length_sortedIds (st : gmap string Fields) :
  length (Client.sortedIds st) = size st.
Proof.
  by rewrite sortedIds_Permutation, length_fmap, length_map_to_list.
Qed.

Lemma search_healthy n c w :
  healthy w ->
  Client.search n c w
  = (Ok (take n (filter (fun id => Client.after c id = true)
                        (Client.sortedIds (os w)))),
     called (EvOsSearch n c) w).
Proof.
  intros Hw. unfold Client.search.
  by rewrite bind_run, (driverCall_healthy _ w Hw).
Qed.

(** The scan visits every identifier behind its cursor: with enough fuel it
    returns them all, and leaves both stores as they are. *)
Lemma scanLoop_healthy fuel (acc : gset string) cursor w (pre : list string) :
  healthy w ->
  let rem := filter (fun id => Client.after cursor id = true)
                    (Client.sortedIds (os w)) in
  Client.sortedIds (os w) = (pre ++ rem)%list ->
  (length rem < fuel)%nat ->
  exists w',
    scanLoop fuel acc cursor w = (Ok (acc ∪ list_to_set rem), w')
    /\ healthy w' /\ os w' = os w /\ mongo w' = mongo w.
Proof.
  revert acc cursor w pre.
  induction fuel as [|fuel IH]; intros acc cursor w pre Hw rem Hl Hlen; [lia|].
  cbn [scanLoop]. rewrite bind_run, (search_healthy _ _ w Hw). fold rem.
  set (w1 := called (EvOsSearch 1000 cursor) w).
  assert (healthy w1) as Hw1 by by apply healthy_called.
  destruct (last (take 1000 rem)) as [a|] eqn:Hlast.
  - apply last_Some in Hlast as [hits' Hhits].
    pose proof (take_drop 1000 rem) as Hsplit. rewrite Hhits in Hsplit.
    assert (Client.sortedIds (os w)
            = ((pre ++ hits') ++ a :: drop 1000 rem)%list) as Hl'.
    { rewrite Hl. rewrite <- Hsplit at 1. by rewrite <- !app_assoc. }
    assert (filter (fun id => Client.after (Some a) id = true)
                   (Client.sortedIds (os w)) = drop 1000 rem) as Hrem'.
    { rewrite Hl'. apply sorted_filter_after; rewrite <- Hl';
        [apply StronglySorted_sortedIds|apply NoDup_sortedIds]. }
    destruct (IH (acc ∪ list_to_set (take 1000 rem)) (Some a) w1
                 (pre ++ hits' ++ [a])%list Hw1) as (w' & Hrun & Hw' & Hos & Hm).
    + change (os w1) with (os w). rewrite Hrem', Hl'. by rewrite <- !app_assoc.
    + change (os w1) with (os w). rewrite Hrem', length_drop.
      assert (length rem <> 0)%nat; [|lia].
      intros H0. apply length_zero_iff_nil in H0. rewrite H0 in Hhits.
      rewrite take_nil in Hhits. by destruct hits'.
    + exists w'. split; [|done]. rewrite Hrun. f_equal. f_equal.
      change (os w1) with (os w). rewrite Hrem'.
      rewrite <- (take_drop 1000 rem) at 3. rewrite list_to_set_app_L.
      by rewrite (assoc_L (∪)).
  - exists w1. split; [|done]. io_unfold. f_equal. f_equal.
    apply last_None in Hlast. destruct rem as [|id rem']; [|done].
    by rewrite list_to_set_nil, (right_id_L ∅ (∪)).
Qed.

Lemma bulkIds_app tr new : bulkIds (tr ++ new) = (bulkIds tr ++ bulkIds new)%list.
Proof. unfold bulkIds. by rewrite omap_app, concat_app. Qed.

Lemma bulkIds_notBulk new : Forall notBulk new -> bulkIds new = [].
Proof.
  unfold bulkIds. induction 1 as [|ev new Hev _ IH]; [done|].
  destruct ev; simpl; done.
Qed.

Lemma emits_scanLoop fuel acc cursor : emits notBulk (scanLoop fuel acc cursor).
Proof.
  revert acc cursor. induction fuel as [|fuel IH]; intros acc cursor; simpl.
  - apply emits_diverge.
  - apply emits_bind.
    + unfold Client.search. apply emits_bind; [by apply emits_driverCall|].
      intros _. apply emits_bind; [apply emits_getWorld|intros; apply emits_ret].
    + intros hits. destruct (last hits); [apply IH|apply emits_ret].
Qed.

Lemma getAllOpenSearchIds_healthy fuel w :
  healthy w -> (size (os w) < fuel)%nat ->
  exists w' new,
    getAllOpenSearchIds fuel w = (Ok (dom (os w)), w')
    /\ healthy w' /\ os w' = os w /\ mongo w' = mongo w
    /\ trace w' = (trace w ++ new)%list /\ bulkIds new = [].
Proof.
  intros Hw Hfuel. unfold getAllOpenSearchIds.
  destruct (scanLoop_healthy fuel ∅ None w [] Hw) as (w' & Hrun & Hw' & Hos & Hm).
  - by rewrite filter_all by by apply Forall_forall.
  - rewrite filter_all by by apply Forall_forall. by rewrite length_sortedIds.
  - destruct (emits_scanLoop fuel ∅ None w) as (new & Htr & Hnew).
    rewrite Hrun in Htr. cbn [snd] in Htr.
    exists w', new. split; [|by split_and!; try apply bulkIds_notBulk].
    rewrite Hrun. f_equal. f_equal.
    rewrite filter_all by by apply Forall_forall.
    by rewrite sortedIds_dom, (left_id_L ∅ (∪)).
Qed.

End ScanFacts.

(** ** The source collection and the repair of missing documents *)

Section SourceFacts.
Import Json Runtime Observe ReconciliationService.

Lemma has_oid_inv d :
  has_oid d = true ->
  exists h, jget "_id" d = Some (JOid h) /\ is_oid_string h = true
            /\ idOf d = Some h.
Proof.
  unfold has_oid, idOf. destruct (jget "_id" d) as [[]|]; try done.
  intros H. by eexists.
Qed.

Lemma wf_source_inv docs :
  wf_source docs = true ->
  Forall (fun d => has_oid d = true) docs /\ NoDup (omap idOf docs).
Proof.
  unfold wf_source. rewrite andb_true_iff, forallb_forall, bool_decide_eq_true.
  intros [H ?]. split; [|done]. apply Forall_forall. intros d Hd.
  by apply H, list_elem_of_In.
Qed.

Lemma is_lower_hex_is_hex c : is_lower_hex c = true -> is_hex c = true.
Proof. unfold is_lower_hex, is_hex. intros ->. done. Qed.

Lemma is_lower_hex_lower c : is_lower_hex c = true -> hex_lower c = c.
Proof.
  unfold is_lower_hex, hex_lower. cbv zeta. set (n := Ascii.N_of_ascii c).
  intros H. destruct ((65 <=? n)%N && (n <=? 70)%N) eqn:E; [|done]. exfalso.
  apply andb_true_iff in E as [E1%N.leb_le E2%N.leb_le].
  apply orb_true_iff in H as [H|H];
    apply andb_true_iff in H as [H1%N.leb_le H2%N.leb_le]; lia.
Qed.

(** An ObjectId string converts back to the ObjectId it came from. *)
Lemma newObjectId_oid h : is_oid_string h = true -> newObjectId h = Some (JOid h).
Proof.
  unfold is_oid_string, newObjectId, string_forallb, string_map.
  intros [Hlen Hall]%andb_true_iff. rewrite Hlen. cbn [andb].
  rewrite forallb_forall in Hall.
  rewrite (proj2 (forallb_forall _ _)) by (intros c Hc; by apply is_lower_hex_is_hex, Hall).
  rewrite (List.map_ext_in _ id), List.map_id, string_of_list_ascii_of_string; [done|].
  intros c Hc. by apply is_lower_hex_lower, Hall.
Qed.

Lemma mapM_fmap {A B C} (f : B -> option C) (g : A -> B) (l : list A) :
  mapM f (map g l) = mapM (fun x => f (g x)) l.
Proof. induction l as [|x l IH]; [done|]. simpl. by rewrite IH. Qed.

Lemma sourceIds_toString docs :
  Forall (fun d => has_oid d = true) docs ->
  mapM toString (map (jget "_id") docs) = Some (omap idOf docs).
Proof.
  intros H. rewrite mapM_fmap. apply (mapM_omap idOf).
  eapply Forall_impl; [exact H|]. intros d (h & _ & _ & ->)%has_oid_inv. by eexists.
Qed.

Lemma newSet_acc (l acc : list string) :
  NoDup (acc ++ l)%list ->
  fold_left (fun acc x => if bool_decide (x ∈ acc) then acc else (acc ++ [x])%list) l acc
  = (acc ++ l)%list.
Proof.
  revert acc. induction l as [|x l IH]; intros acc Hnd; simpl.
  - by rewrite app_nil_r.
  - rewrite bool_decide_eq_false_2.
    + rewrite IH; rewrite <- app_assoc; done.
    + apply NoDup_app in Hnd as (_ & H & _). intros Hx. apply (H x Hx), list_elem_of_here.
Qed.

Lemma newSet_NoDup l : NoDup l -> newSet l = l.
Proof. intros H. unfold newSet. by rewrite newSet_acc. Qed.

Lemma findIds_healthy w :
  healthy w ->
  Collection.findIds w = (Ok (map (jget "_id") (mongo w)), called EvMongoFindIds w).
Proof.
  intros Hw. unfold Collection.findIds.
  by rewrite bind_run, (driverCall_healthy _ w Hw).
Qed.

Lemma findIn_healthy qs w :
  healthy w ->
  Collection.findIn qs w
  = (Ok (Collection.matching qs (mongo w)), called (EvMongoFindIn qs) w).
Proof.
  intros Hw. unfold Collection.findIn.
  by rewrite bind_run, (driverCall_healthy _ w Hw).
Qed.

(** The [$in] query built from ObjectId strings selects the documents that
    carry these identifiers. *)
Lemma findIn_selects (chunk : list string) (d : Fields) :
  has_oid d = true ->
  Forall (fun id => is_oid_string id = true) chunk ->
  existsb (fun q => Collection.bson_eqb q (jget "_id" d)) (toObjectIds chunk) = true
  <-> exists id, idOf d = Some id /\ id ∈ chunk.
Proof.
  intros (h & Hid & _ & Hh)%has_oid_inv Hchunk. rewrite Hid, Hh.
  rewrite existsb_exists. unfold toObjectIds. split.
  - intros (q & Hq & Heq). apply in_map_iff in Hq as (id & <- & Hin).
    rewrite Forall_forall in Hchunk. apply list_elem_of_In in Hin.
    rewrite (newObjectId_oid id (Hchunk id Hin)) in Heq. simpl in Heq.
    apply String.eqb_eq in Heq as ->. by exists h.
  - intros (id & [= <-] & Hin). exists (JOid h). split.
    + apply in_map_iff. exists h. split; [|by apply list_elem_of_In].
      rewrite Forall_forall in Hchunk. by rewrite (newObjectId_oid h (Hchunk h Hin)).
    + simpl. apply String.eqb_refl.
Qed.

Lemma sublist_omap {A B} (f : A -> option B) (l k : list A) :
  l `sublist_of` k -> omap f l `sublist_of` omap f k.
Proof.
  induction 1 as [|x l k _ IH|x l k _ IH]; simpl; [done| |].
  - destruct (f x); [by apply sublist_skip|done].
  - destruct (f x); [by apply sublist_cons|done].
Qed.

Lemma elem_of_sourceIds (docs : list Fields) id :
  id ∈ omap idOf docs <-> exists d, d ∈ docs /\ idOf d = Some id.
Proof. apply list_elem_of_omap. Qed.

Section Selected.
Variables (docs : list Fields) (chunk : list string).
Hypothesis Hdocs : Forall (fun d => has_oid d = true) docs.
Hypothesis Hnd : NoDup (omap idOf docs).
Hypothesis Hchunk : NoDup chunk.
Hypothesis Hsub : forall id, id ∈ chunk -> id ∈ omap idOf docs.

Lemma chunk_oid_strings : Forall (fun id => is_oid_string id = true) chunk.
Proof.
  apply Forall_forall. intros id (d & Hd & Hid)%Hsub%elem_of_sourceIds.
  pose proof (proj1 (Forall_forall _ _) Hdocs d Hd) as Hoid.
  destruct (has_oid_inv d Hoid) as (h & _ & Hh & Hid'). congruence.
Qed.

Lemma selected_elem d :
  d ∈ Collection.matching (toObjectIds chunk) docs
  <-> d ∈ docs /\ exists id, idOf d = Some id /\ id ∈ chunk.
Proof.
  unfold Collection.matching. rewrite list_elem_of_filter.
  pose proof (proj1 (Forall_forall _ _) Hdocs) as Hoid. split.
  - intros [Hsel Hd]. split; [done|].
    apply (findIn_selects chunk d (Hoid d Hd) chunk_oid_strings).
    by apply Is_true_true.
  - intros [Hd Hsel]. split; [|done].
    apply Is_true_true.
    by apply (findIn_selects chunk d (Hoid d Hd) chunk_oid_strings).
Qed.

Lemma selected_identified : Forall (fun d => is_Some (idOf d))
         (Collection.matching (toObjectIds chunk) docs).
Proof.
  apply Forall_forall. intros d [_ (id & -> & _)]%selected_elem. by eexists.
Qed.

Lemma selected_NoDup : NoDup (omap idOf (Collection.matching (toObjectIds chunk) docs)).
Proof.
  eapply sublist_NoDup; [exact Hnd|]. apply sublist_omap, sublist_filter.
Qed.

Lemma selected_ids : omap idOf (Collection.matching (toObjectIds chunk) docs) ≡ₚ chunk.
Proof.
  apply NoDup_Permutation; [apply selected_NoDup|done|]. intros id.
  rewrite elem_of_sourceIds. split.
  - intros (d & [_ (id' & Hid' & Hin)]%selected_elem & Hid). congruence.
  - intros Hin. destruct (proj1 (elem_of_sourceIds docs id) (Hsub id Hin))
      as (d & Hd & Hid).
    exists d. split; [|done]. apply selected_elem. eauto.
Qed.

Lemma selected_length : length (Collection.matching (toObjectIds chunk) docs) = length chunk.
Proof.
  rewrite <- (Permutation_length selected_ids).
  apply (length_mapM idOf), mapM_omap, selected_identified.
Qed.

End Selected.

(** *** The target after a run of accepted upserts *)

Lemma upsertAll_cons d docs st :
  upsertAll (d :: docs) st
  = upsertAll docs (match idOf d with
                    | Some id => <[id := upserted id d (st !! id)]> st
                    | None => st
                    end).
Proof. reflexivity. Qed.

Lemma upsertAll_frame docs st id :
  id ∉ omap idOf docs -> upsertAll docs st !! id = st !! id.
Proof.
  revert st. induction docs as [|d docs IH]; intros st Hid; [done|].
  rewrite upsertAll_cons. simpl in Hid. destruct (idOf d) as [id'|].
  - apply not_elem_of_cons in Hid as [Hne Hid]. rewrite IH by done.
    by rewrite lookup_insert_ne.
  - by apply IH.
Qed.

Lemma upsertAll_fresh docs st d id :
  NoDup (omap idOf docs) -> d ∈ docs -> idOf d = Some id -> st !! id = None ->
  upsertAll docs st !! id = Some (wireDoc id d).
Proof.
  revert st. induction docs as [|d' docs IH]; intros st Hnd Hd Hid Hst.
  - by apply elem_of_nil in Hd.
  - rewrite upsertAll_cons. simpl in Hnd.
    apply elem_of_cons in Hd as [<-|Hd].
    + rewrite Hid in *. apply NoDup_cons in Hnd as [Hfresh _].
      rewrite upsertAll_frame by done. by rewrite lookup_insert_eq, Hst.
    + destruct (idOf d') as [id'|] eqn:Hid'; [|by apply IH].
      apply NoDup_cons in Hnd as [Hfresh Hnd].
      apply IH; [done..|]. rewrite lookup_insert_ne; [done|].
      intros ->. apply Hfresh. apply elem_of_sourceIds. eauto.
Qed.

End SourceFacts.

Section RepairFacts.
Import Json Runtime Observe ReconciliationService.

(** The batches of [syncDocumentsByIds] on a healthy backend: every
    identifier from position [i] on is fetched from the source and
    upserted; nothing else in the target moves. *)
Lemma syncLoop_healthy turns (ids : list string) i synced w :
  healthy w ->
  wf_source (mongo w) = true ->
  NoDup ids ->
  (forall id, id ∈ ids -> id ∈ sourceIds w) ->
  (forall id, id ∈ drop i ids -> os w !! id = None) ->
  (length ids <= i + turns)%nat ->
  exists w',
    syncLoop turns ids i synced w = (Ok (synced + length (drop i ids))%nat, w')
    /\ healthy w' /\ mongo w' = mongo w
    /\ (forall id, id ∉ drop i ids -> os w' !! id = os w !! id)
    /\ (forall d id, d ∈ mongo w -> idOf d = Some id -> id ∈ drop i ids ->
          os w' !! id = Some (wireDoc id d))
    /\ (exists new, trace w' = (trace w ++ new)%list /\ bulkIds new ≡ₚ drop i ids).
Proof.
  revert i synced w.
  induction turns as [|turns IH]; intros i synced w Hw Hsrc Hnd Hsub Hfresh Hlen.
  - exists w. rewrite drop_ge by lia. simpl.
    rewrite (proj2 (Nat.ltb_ge _ _)) by lia. rewrite Nat.add_0_r.
    split; [done|]. split_and!; try done.
    + intros d id _ _ H. by apply elem_of_nil in H.
    + exists []. by rewrite app_nil_r.
  - cbn [syncLoop]. destruct (Nat.ltb_spec i (length ids)) as [Hi|Hi].
    2:{ exists w. rewrite drop_ge by lia. simpl. rewrite Nat.add_0_r.
        split; [done|]. split_and!; try done.
        - intros d id _ _ H. by apply elem_of_nil in H.
        - exists []. by rewrite app_nil_r. }
    destruct (wf_source_inv _ Hsrc) as [Hoid Hids].
    set (chunk := take 100 (drop i ids)).
    assert (drop i ids = (chunk ++ drop (i + 100) ids)%list) as Hsplit
      by (unfold chunk; rewrite <- drop_drop; by rewrite take_drop).
    assert (NoDup (drop i ids)) as Hnd_rest
      by (eapply sublist_NoDup; [exact Hnd|apply sublist_drop]).
    pose proof Hnd_rest as Hnd_split. rewrite Hsplit in Hnd_split.
    apply NoDup_app in Hnd_split as (Hnd_chunk & Hdisj & Hnd_tail).
    assert (forall id, id ∈ chunk -> id ∈ drop i ids) as Hchunk_in
      by (intros id Hid; rewrite Hsplit; apply elem_of_app; by left).
    assert (forall id, id ∈ chunk -> id ∈ omap idOf (mongo w)) as Hchunk_src.
    { intros id Hid. apply Hsub.
      eapply elem_of_sublist; [apply (Hchunk_in id Hid)|apply sublist_drop]. }
    rewrite !bind_run, tryCatch_eq, !bind_run, (findIn_healthy _ w Hw).
    set (documents := Collection.matching _ (mongo w)).
    pose proof (selected_identified (mongo w) chunk Hoid Hchunk_src) as Hdocs_id.
    pose proof (selected_NoDup (mongo w) chunk Hids) as Hdocs_nd.
    pose proof (selected_ids (mongo w) chunk Hoid Hids Hnd_chunk Hchunk_src) as Hdocs_ids.
    pose proof (selected_length (mongo w) chunk Hoid Hids Hnd_chunk Hchunk_src) as Hdocs_len.
    fold documents in Hdocs_id, Hdocs_nd, Hdocs_ids, Hdocs_len.
    assert (0 < length chunk)%nat as Hpos.
    { unfold chunk. rewrite length_take, length_drop. lia. }
    assert (documents <> []) as Hne by (intros E; rewrite E in Hdocs_len; simpl in *; lia).
    destruct (mapM_bulkEntry_is_Some documents Hdocs_id) as [body Hbody].
    rewrite (proj2 (Nat.ltb_lt _ _)) by lia.
    rewrite bind_run. cbv iota.
    rewrite (bind_run (OpenSearchService.bulkIndex documents)).
    rewrite (bulkIndex_healthy documents body _ Hne Hbody (healthy_called _ w Hw)).
    io_unfold.
    match goal with
    | |- context [syncLoop turns ids (i + 100) ?s ?w3] =>
        destruct (IH (i + 100)%nat s w3)
          as (w' & Hrun & Hw' & Hm & Hframe & Hnew & new & Htr & Hbulk)
    end; try done.
    + cbn [os]. intros id Hid. rewrite upsertAll_frame; [by apply Hfresh; rewrite Hsplit; apply elem_of_app; right|].
      rewrite Hdocs_ids. intros Hin. by apply (Hdisj id Hin).
    + lia.
    + exists w'. rewrite Hrun. cbn [mongo os] in *. split.
      { f_equal. f_equal. rewrite Hdocs_len, Hsplit, length_app. lia. }
      split; [done|]. split; [done|]. split; [|split].
      * intros id Hid. rewrite Hsplit in Hid. apply not_elem_of_app in Hid as [Hc Ht].
        rewrite Hframe by done. apply upsertAll_frame. by rewrite Hdocs_ids.
      * intros d id Hd Hid Hin. rewrite Hsplit in Hin.
        apply elem_of_app in Hin as [Hin|Hin]; [|by eapply Hnew].
        rewrite Hframe by (intros Ht; by apply (Hdisj id Hin)).
        apply upsertAll_fresh; [done| |done|].
        -- apply selected_elem; [done|done|]. split; [done|]. by exists id.
        -- apply Hfresh. by apply Hchunk_in.
      * eexists. rewrite Htr. cbn [trace]. rewrite <- !app_assoc.
        split; [reflexivity|]. rewrite !bulkIds_app.
        change (bulkIds [EvMongoFindIn (toObjectIds chunk)]) with (@nil string).
        change (bulkIds [EvSleep 200]) with (@nil string).
        change (bulkIds [EvOsBulk body]) with (map act_id body ++ [])%list.
        rewrite (body_ids documents body Hbody), Hdocs_ids, Hbulk, Hsplit.
        cbn [app]. by rewrite app_nil_r.
Qed.

End RepairFacts.

Section ReconciliationFacts.
Import Json Runtime Observe ReconciliationService.

Lemma length_sourceIds docs :
  Forall (fun d => has_oid d = true) docs -> length (omap idOf docs) = length docs.
Proof.
  intros H. symmetry. apply (length_mapM idOf). apply mapM_omap.
  eapply Forall_impl; [exact H|]. intros d (h & _ & _ & ->)%has_oid_inv. by eexists.
Qed.

(** The identifiers the target lacks are as many as the counts differ by,
    when the target holds source identifiers only. *)
Lemma missing_count (src : list string) (tgt : gset string) :
  NoDup src -> tgt ⊆ list_to_set src ->
  length (filter (fun id => id ∉ tgt) src) = (length src - size tgt)%nat.
Proof.
  intros Hnd Hsub.
  pose proof (filter_app_complement (fun id => id ∈ tgt) src) as Hperm.
  apply Permutation_length in Hperm. rewrite length_app in Hperm.
  assert (length (filter (fun id => id ∈ tgt) src) = size tgt) as Hin; [|lia].
  rewrite <- (size_list_to_set (C := gset string)) by by apply NoDup_filter.
  f_equal. apply set_eq. intros id.
  rewrite elem_of_list_to_set, list_elem_of_filter. split; [by intros []|].
  intros Hid. split; [done|]. apply (elem_of_list_to_set (C := gset string)).
  by apply Hsub.
Qed.

Lemma checkAndSync_in_sync fuel this w :
  answers 2 w -> isRunning this = true ->
  length (mongo w) = size (os w) ->
  checkAndSync fuel this w
  = (Ok (Some (mkResult true (Some true) (Some (Z.of_nat (length (mongo w))))
                 (Some (Z.of_nat (size (os w)))) (Some 0) (Some 0%nat)
                 None None None),
         mkService true
           (mkStats (S (totalChecks (stats this))) (totalSyncs (stats this))
                    (documentsSynced (stats this)) (errors (stats this)))),
     called EvOsStats (called EvMongoCount w)).
Proof.
  intros Hw Hrun Heq. unfold checkAndSync. rewrite Hrun. cbn [negb].
  rewrite tryCatch_eq, (reconciliation_counts_ok _ w Hw).
  cbn [OpenSearchService.docs_count]. rewrite Heq, Z.sub_diag. by io_unfold.
Qed.

(** One pass over a target that lacks some source documents, on a healthy
    backend: the missing documents, and only they, are upserted. *)
Lemma checkAndSync_repairs fuel this w :
  healthy w -> isRunning this = true ->
  wf_source (mongo w) = true -> target_within_source w = true ->
  (size (os w) < fuel)%nat -> (size (os w) < length (mongo w))%nat ->
  let missing := (length (mongo w) - size (os w))%nat in
  exists this' w',
    checkAndSync fuel this w
    = (Ok (Some (mkResult true (Some true) None None None (Some missing)
                   (Some missing) None None), this'), w')
    /\ isRunning this' = true /\ healthy w' /\ mongo w' = mongo w
    /\ dom (os w') = list_to_set (sourceIds w)
    /\ (forall id x, os w !! id = Some x -> os w' !! id = Some x)
    /\ (forall d id, d ∈ mongo w -> idOf d = Some id -> os w !! id = None ->
          os w' !! id = Some (wireDoc id d))
    /\ (exists new,
          trace w' = (trace w ++ new)%list
          /\ bulkIds new ≡ₚ filter (fun id => id ∉ dom (os w)) (sourceIds w)).
Proof.
  intros Hw Hrun Hsrc Hsub Hfuel Hlt missing.
  destruct (wf_source_inv _ Hsrc) as [Hoid Hids].
  apply bool_decide_eq_true in Hsub.
  unfold checkAndSync. rewrite Hrun. cbn [negb].
  rewrite tryCatch_eq, (reconciliation_counts_ok _ w (healthy_answers 2 w Hw)).
  cbn [OpenSearchService.docs_count].
  rewrite (proj2 (Z.eqb_neq _ _)) by lia. rewrite (proj2 (Z.ltb_lt _ _)) by lia.
  set (w2 := called EvOsStats (called EvMongoCount w)).
  assert (healthy w2) as Hw2 by by do 2 apply healthy_called.
  rewrite bind_run. unfold syncMissingDocuments.
  rewrite bind_run, (findIds_healthy w2 Hw2).
  change (mongo w2) with (mongo w). rewrite (sourceIds_toString _ Hoid).
  rewrite (newSet_NoDup _ Hids). rewrite bind_run.
  set (w3 := called EvMongoFindIds w2).
  destruct (getAllOpenSearchIds_healthy fuel w3)
    as (w4 & scan & -> & Hw4 & Hos4 & Hm4 & Htr4 & Hscan);
    [by apply healthy_called|done|].
  change (os w3) with (os w) in *. change (mongo w3) with (mongo w) in *.
  set (missingIds := filter (fun id => id ∉ dom (os w)) (omap idOf (mongo w))).
  assert (length missingIds = missing) as Hmissing.
  { unfold missingIds, missing. rewrite missing_count; [|done|done].
    by rewrite size_dom, length_sourceIds. }
  rewrite Hmissing. rewrite (proj2 (Nat.eqb_neq _ _)) by (unfold missing; lia).
  rewrite bind_run. unfold syncDocumentsByIds.
  destruct (syncLoop_healthy (length missingIds) missingIds 0 0 w4)
    as (w' & -> & Hw' & Hm' & Hframe & Hnew & new & Htr' & Hbulk); try done.
  - by rewrite Hm4.
  - by apply NoDup_filter.
  - intros id [_ Hid]%list_elem_of_filter. unfold sourceIds. by rewrite Hm4.
  - intros id [Hid _]%list_elem_of_filter. rewrite Hos4.
    by apply not_elem_of_dom.
  - rewrite drop_0, Hmissing in *. io_unfold. rewrite Hm4 in *. rewrite Hos4 in *.
    eexists _, w'. split; [reflexivity|]. cbn [isRunning]. split_and!; try done.
    + apply set_eq. intros id. rewrite elem_of_dom, elem_of_list_to_set.
      unfold sourceIds. destruct (decide (id ∈ missingIds)) as [Hin|Hout].
      * pose proof Hin as [_ Hid]%list_elem_of_filter.
        destruct (proj1 (elem_of_sourceIds _ _) Hid) as (d & Hd & Hd').
        rewrite (Hnew d id Hd Hd' Hin). split; [done|by eexists].
      * rewrite (Hframe id Hout). rewrite <- elem_of_dom. split.
        -- intros Hid. apply (elem_of_list_to_set (C := gset string)).
           by apply Hsub.
        -- intros Hid. destruct (decide (id ∈ dom (os w))) as [|Hnot]; [done|].
           destruct Hout. by apply list_elem_of_filter.
    + intros id x Hx. rewrite Hframe; [done|].
      intros [Hid _]%list_elem_of_filter. apply Hid. apply elem_of_dom. by eexists.
    + intros d id Hd Hid Hnone. apply (Hnew d id Hd Hid).
      apply list_elem_of_filter. split; [by apply not_elem_of_dom|].
      apply elem_of_sourceIds. eauto.
    + exists ([EvMongoCount; EvOsStats; EvMongoFindIds] ++ scan ++ new)%list.
      split.
      * rewrite Htr', Htr4. cbn [trace w3 w2 called]. by rewrite <- !app_assoc.
      * rewrite !bulkIds_app, Hscan, Hbulk. done.
Qed.

(** After the repair the two counts agree. *)
Lemma repaired_counts_agree (w w' : World) :
  wf_source (mongo w) = true -> mongo w' = mongo w ->
  dom (os w') = list_to_set (sourceIds w) ->
  length (mongo w') = size (os w').
Proof.
  intros Hsrc Hm Hdom. destruct (wf_source_inv _ Hsrc) as [Hoid Hids].
  rewrite <- size_dom, Hdom, Hm. unfold sourceIds.
  by rewrite size_list_to_set, length_sourceIds.
Qed.

(** The ObjectId keys of [wf_source] are needed: a source document keyed
    by a string of 24 hex digits is looked up by the ObjectId that the
    string converts to, which a string [_id] does not equal.  The pass
    reports [missingCount: 1] with [synced: 0], sends no bulk request and
    leaves the target empty. *)
Example string_key_is_not_fetched :
  let d := [("_id", JStr "0123456789abcdef01234567"); ("status", JStr "Active")] in
  let w := mkWorld [d] ∅ [] [] in
  let pass := checkAndSync 3 (mkService true (mkStats 0 0 0 0)) in
  outcome pass w
  = Ok (Some (mkResult true (Some true) None None None (Some 0%nat)
                (Some 1%nat) None None),
        mkService true (mkStats 1 1 0 0))
  /\ trace (exec pass w)
     = [EvMongoCount; EvOsStats; EvMongoFindIds; EvOsSearch 1000 None;
        EvMongoFindIn [JOid "0123456789abcdef01234567"]; EvSleep 200]
  /\ os (exec pass w) = ∅.
Proof. split_and!; by vm_compute. Qed.

End ReconciliationFacts.

(** ** The sample collections are well-formed *)

Section SampleFacts.
Import Json Runtime Observe.

Lemma hexDigit_code (n : N) :
  (n < 16)%N ->
  Ascii.N_of_ascii (hexDigit n) = (if (n <? 10)%N then 48 + n else 87 + n)%N.
Proof.
  intros Hn. unfold hexDigit. apply Ascii.N_ascii_embedding.
  destruct (N.ltb_spec n 10); lia.
Qed.


Lemma hexDigit_inj (a b : N) :
  (a < 16)%N -> (b < 16)%N -> hexDigit a = hexDigit b -> a = b.
Proof.
  intros Ha Hb E. apply (f_equal Ascii.N_of_ascii) in E.
  rewrite !hexDigit_code in E by done.
  destruct (N.ltb_spec a 10), (N.ltb_spec b 10); lia.
Qed.

Lemma mod16_lt (n : N) : (n mod 16 < 16)%N.
Proof. by apply N.mod_lt. Qed.



Lemma hexDigits_inj k n n' acc acc' :
  String.length acc = String.length acc' ->
  hexDigits k n acc = hexDigits k n' acc' ->
  (n mod 16 ^ N.of_nat k = n' mod 16 ^ N.of_nat k)%N /\ acc = acc'.
Proof.
  revert n n' acc acc'. induction k as [|k IH]; intros n n' acc acc' Hlen E.
  - split; [|done]. change (16 ^ N.of_nat 0)%N with 1%N. by rewrite !N.mod_1_r.
  - cbn [hexDigits] in E. apply IH in E as [Hhi [= Hd ->]]; [|simpl; by rewrite Hlen].
    apply hexDigit_inj in Hd; [|apply mod16_lt..]. split; [|done].
    rewrite Nat2N.inj_succ, N.pow_succ_r'.
    rewrite !N.Div0.mod_mul_r. by rewrite Hd, Hhi.
Qed.


Lemma oidOf_inj (bound a b : nat) :
  (N.of_nat bound <= 16 ^ 24)%N -> (a < bound)%nat -> (b < bound)%nat ->
  oidOf a = oidOf b -> a = b.
Proof.
  intros Hbound Ha Hb [E _]%hexDigits_inj; [|done].
  change (N.of_nat 24) with 24%N in E.
  rewrite !N.mod_small in E by lia. lia.
Qed.

Lemma idOf_sampleAd n status : idOf (sampleAd n status) = Some (oidOf n).
Proof. reflexivity. Qed.


Lemma sourceIds_sampleAds n : omap idOf (sampleAds n) = map oidOf (seq 0 n).
Proof.
  unfold sampleAds. induction (seq 0 n) as [|i l IH]; [done|].
  change (omap idOf (map (fun i => sampleAd i "Active") (i :: l)))
    with (oidOf i :: omap idOf (map (fun i => sampleAd i "Active") l)).
  by rewrite IH.
Qed.


Lemma NoDup_sampleIds n :
  (N.of_nat n <= 16 ^ 24)%N -> NoDup (map oidOf (seq 0 n)).
Proof.
  intros Hn. apply (NoDup_fmap_2_strong oidOf); [|apply NoDup_seq].
  intros a b Ha%elem_of_seq Hb%elem_of_seq E. apply (oidOf_inj n); [done|lia|lia|done].
Qed.


Lemma dom_upsertAll docs (st : gmap string Fields) :
  dom (upsertAll docs st) = dom st ∪ list_to_set (omap idOf docs).
Proof.
  revert st. induction docs as [|d docs IH]; intros st.
  - simpl. by rewrite (right_id_L ∅ (∪)).
  - rewrite upsertAll_cons, IH. simpl. destruct (idOf d) as [id|]; [|done].
    rewrite dom_insert_L, list_to_set_cons.
    by rewrite (assoc_L (∪)), (comm_L (∪) (dom st)).
Qed.




End SampleFacts.

(** ** Claims about the reconciliation engine *)

Section ReconciliationClaims.
Import Json Runtime Observe ReconciliationService.

(** C1, as the code has it.  When every target identifier is a source
    identifier (documents are missing from the target, none is orphaned),
    the service is running, the backend is healthy and the source keeps
    ObjectId keys, one pass leaves no source document missing from the
    target, and the pass after it takes the equal-count path: it returns
    [inSync: true] with difference 0 and [synced: 0] after the two count
    calls alone, without scanning identifiers. *)
Theorem convergence_when_only_missing (fuel fuel2 : nat) (this : t) (w : World) :
  healthy w ->
  isRunning this = true ->
  wf_source (mongo w) = true ->
  target_within_source w = true ->
  (size (os w) < fuel)%nat ->
  let n := Z.of_nat (length (mongo w)) in
  exists r1 this1 w1,
    checkAndSync fuel this w = (Ok (Some r1, this1), w1)
    /\ dom (os w1) = list_to_set (sourceIds w)
    /\ checkAndSync fuel2 this1 w1
       = (Ok (Some (mkResult true (Some true) (Some n) (Some n) (Some 0)
                      (Some 0%nat) None None None),
              mkService true
                (mkStats (S (totalChecks (stats this1))) (totalSyncs (stats this1))
                         (documentsSynced (stats this1)) (errors (stats this1)))),
          called EvOsStats (called EvMongoCount w1)).
Proof.
  intros Hw Hrun Hsrc Hsub Hfuel n.
  destruct (wf_source_inv _ Hsrc) as [Hoid Hids].
  pose proof (proj1 (bool_decide_eq_true _) Hsub) as Hsub'.
  assert (size (os w) <= length (mongo w))%nat as Hle.
  { rewrite <- size_dom, <- (length_sourceIds _ Hoid).
    rewrite <- (size_list_to_set (C := gset string)) by done.
    by apply subseteq_size. }
  destruct (decide (length (mongo w) = size (os w))) as [Heq|Hne].
  - (* nothing is missing *)
    assert (dom (os w) = list_to_set (sourceIds w)) as Hdom.
    { apply set_subseteq_size_eq; [done|]. unfold sourceIds.
      rewrite size_list_to_set, length_sourceIds, size_dom by done. lia. }
    eexists _, _, _. split;
      [by apply checkAndSync_in_sync; [apply healthy_answers|..]|].
    split; [done|].
    rewrite checkAndSync_in_sync; [|by apply healthy_answers, healthy_called, healthy_called|done|done].
    cbn [mongo os called]. by rewrite <- Heq.
  - destruct (checkAndSync_repairs fuel this w)
      as (this1 & w1 & Hrun1 & Hr1 & Hw1 & Hm1 & Hdom & _); [done..|lia|].
    eexists _, this1, w1. split; [exact Hrun1|]. split; [done|].
    pose proof (repaired_counts_agree w w1 Hsrc Hm1 Hdom) as Heq.
    rewrite checkAndSync_in_sync; [|by apply healthy_answers|done|done].
    rewrite <- Heq, Hm1. done.
Qed.

Lemma convergence_when_only_missing_witness :
  let this := mkService true (mkStats 0 0 0 0) in
  let w := mkWorld (sampleAds 5) (indexOf (sampleAds 3)) [] [] in
  exists r1 this1 w1,
    checkAndSync 4 this w = (Ok (Some r1, this1), w1)
    /\ dom (os w1) = list_to_set (sourceIds w)
    /\ checkAndSync 0 this1 w1
       = (Ok (Some (mkResult true (Some true) (Some 5) (Some 5) (Some 0)
                      (Some 0%nat) None None None),
              mkService true
                (mkStats (S (totalChecks (stats this1))) (totalSyncs (stats this1))
                         (documentsSynced (stats this1)) (errors (stats this1)))),
          called EvOsStats (called EvMongoCount w1)).
Proof.
  intros this w.
  apply (convergence_when_only_missing 4 0 this w).
  - reflexivity.
  - reflexivity.
  - vm_compute. reflexivity.
  - vm_compute. reflexivity.
  - vm_compute. lia.
Defined.

(** C1 as stated does not hold for every divergence: with the source
    holding documents 0, 1, 2 and the target holding 0 and an orphan 7, the
    first pass upserts 1 and 2, after which the target has four documents;
    the second pass then reports [inSync: false] with difference -1 and one
    orphaned document instead of taking the equal-count path. *)
Lemma convergence_fails_with_orphans :
  let this := mkService true (mkStats 0 0 0 0) in
  let w := mkWorld (sampleAds 3)
             (indexOf [sampleAd 0 "Active"; sampleAd 7 "Active"]) [] [] in
  outcome (pass1 ← checkAndSync 5 this; checkAndSync 5 pass1.2) w
  = Ok (Some (mkResult true (Some false) (Some 3) (Some 4) (Some (-1))
                (Some 0%nat) None (Some 1) None),
        mkService true (mkStats 2 1 2 0))
  /\ ~ (exists this2,
          outcome (pass1 ← checkAndSync 5 this; checkAndSync 5 pass1.2) w
          = Ok (Some (mkResult true (Some true) (Some 3) (Some 3) (Some 0)
                        (Some 0%nat) None None None), this2)).
Proof.
  intros this w.
  assert (outcome (pass1 ← checkAndSync 5 this; checkAndSync 5 pass1.2) w
          = Ok (Some (mkResult true (Some false) (Some 3) (Some 4) (Some (-1))
                        (Some 0%nat) None (Some 1) None),
                mkService true (mkStats 2 1 2 0))) as E
    by (vm_compute; reflexivity).
  split; [exact E|]. rewrite E. intros [this2 [=]].
Qed.



End ReconciliationClaims.

(** * Further properties of the code *)

(** ** The requests of the target adapter *)

Section RequestFacts.
Import Json Runtime Observe OpenSearchService.

Lemma jget_app k (l1 l2 : Fields) :
  jget k (l1 ++ l2) = match jget k l1 with Some v => Some v | None => jget k l2 end.
Proof.
  induction l1 as [|[k' v'] l1 IH]; [done|]. simpl.
  by destruct (String.eqb k k').
Qed.

Lemma jget_copied k doc (fs : list string) :
  jget k (concat (map (copyField doc) fs))
  = if bool_decide (k ∈ fs) then jget k doc else None.
Proof.
  induction fs as [|f fs IH]; [done|]. simpl. rewrite jget_app, IH.
  unfold copyField. destruct (String.eqb_spec k f) as [->|Hne].
  - rewrite (bool_decide_eq_true_2 (f ∈ f :: fs)) by apply list_elem_of_here.
    destruct (jget f doc) as [v|] eqn:E; simpl.
    + by rewrite String.eqb_refl.
    + by destruct (bool_decide _).
  - assert (jget k match jget f doc with Some v => [(f, v)] | None => [] end = None) as ->.
    { destruct (jget f doc); simpl; [|done]. by rewrite (proj2 (String.eqb_neq _ _)). }
    destruct (decide (k ∈ fs)) as [Hin|Hout].
    + rewrite (bool_decide_eq_true_2 (k ∈ fs)), (bool_decide_eq_true_2 (k ∈ f :: fs));
        [done|by apply list_elem_of_further|done].
    + rewrite (bool_decide_eq_false_2 (k ∈ fs)), (bool_decide_eq_false_2 (k ∈ f :: fs));
        [done| |done].
      by intros [?|?]%elem_of_cons.
Qed.

(** The keys [indexDoc] writes itself are not among the copied ones. *)
Lemma late_keys_not_copied :
  Forall (fun k => k ∉ copiedFields)
         ["mongo_id"; "countrySearchedfor_all"; "url-filter"; "url-filter-updated-at"].
Proof. compute_done. Qed.

Lemma copied_key_is_early k :
  k ∈ copiedFields ->
  k <> "mongo_id" /\ k <> "countrySearchedfor_all" /\ k <> "url-filter"
  /\ k <> "url-filter-updated-at".
Proof.
  intros Hk. pose proof late_keys_not_copied as H.
  repeat (apply Forall_cons in H as [? H]). repeat split; by intros ->.
Qed.

Lemma jget_indexDoc_copied k docId doc :
  k ∈ copiedFields -> jget k (indexDoc docId doc) = jget k doc.
Proof.
  intros Hk. unfold indexDoc.
  destruct (copied_key_is_early k Hk) as (H1 & H2 & H3 & H4).
  cbn [jget]. rewrite (proj2 (String.eqb_neq _ _)) by done.
  rewrite jget_app, jget_copied, bool_decide_eq_true_2 by done.
  destruct (jget k doc) as [v|] eqn:E; [done|].
  rewrite jget_app.
  assert (jget k (countrySearchedforAll doc) = None) as ->.
  { unfold countrySearchedforAll.
    destruct (jget "countrySearchedfor_all" doc) as [[]|]; simpl;
      by rewrite ?(proj2 (String.eqb_neq _ _)). }
  simpl. by rewrite !(proj2 (String.eqb_neq _ _)).
Qed.

Lemma jget_indexDoc_unlisted k docId doc :
  k ∉ indexDocKeys -> jget k (indexDoc docId doc) = None.
Proof.
  intros Hk. apply jget_None. intros Hin. apply Hk.
  eapply elem_of_sublist; [exact Hin|apply keys_indexDoc_sublist].
Qed.

Lemma jget_indexDoc_late k docId doc :
  k ∉ copiedFields -> k <> "mongo_id" ->
  jget k (indexDoc docId doc)
  = jget k (countrySearchedforAll doc
            ++ [("url-filter", urlFilter doc);
                ("url-filter-updated-at",
                 default JNull (jor (jget "url-filter-updated-at" doc) (Some JNull)))]).
Proof.
  intros Hk Hm. unfold indexDoc. cbn [jget].
  rewrite (proj2 (String.eqb_neq _ _)) by done.
  by rewrite jget_app, jget_copied, bool_decide_eq_false_2.
Qed.

Lemma bulkIndex_request docs w :
  trace (exec (bulkIndex docs) w) = trace w
  \/ exists body, mapM bulkEntry docs = Some body
                  /\ trace (exec (bulkIndex docs) w) = (trace w ++ [EvOsBulk body])%list.
Proof.
  unfold exec, bulkIndex. destruct docs as [|d docs]; [by left|].
  destruct (mapM bulkEntry (d :: docs)) as [body|] eqn:Hbody; [|by left].
  right. exists body. split; [done|]. unfold Client.bulk. rewrite !bind_run.
  unfold driverCall. destruct (script w) as [|[] s]; by io_unfold.
Qed.

(** X1. Whatever documents [bulkIndex] is given, each entry of the bulk
    request it sends comes from one of them: it is addressed to that
    document's [_id], carries the same string as [mongo_id], copies the
    listed source fields as they are, holds no property outside the list
    ([indexDocKeys]), and is a [doc_as_upsert] update with
    [retry_on_conflict: 3]. *)
Theorem bulkIndex_sends_listed_fields_only (docs : list Fields) (w : World) :
  exists new,
    trace (exec (bulkIndex docs) w) = (trace w ++ new)%list
    /\ forall body a,
         EvOsBulk body ∈ new -> a ∈ body ->
         (exists d, d ∈ docs
                    /\ idOf d = Some (act_id a)
                    /\ forall k, k ∈ copiedFields -> jget k (act_doc a) = jget k d)
         /\ (forall k, k ∉ indexDocKeys -> jget k (act_doc a) = None)
         /\ jget "mongo_id" (act_doc a) = Some (JStr (act_id a))
         /\ act_doc_as_upsert a = true
         /\ act_retry_on_conflict a = 3%nat.
Proof.
  destruct (bulkIndex_request docs w) as [->|(body & Hbody & ->)].
  - exists []. rewrite app_nil_r. split; [done|]. intros ? ? H. by apply elem_of_nil in H.
  - exists [EvOsBulk body]. split; [done|]. intros body' a Hin Ha.
    apply list_elem_of_singleton in Hin as [= ->].
    apply mapM_Some in Hbody.
    destruct (proj1 (list_elem_of_lookup _ _) Ha) as [i Hi].
    destruct (Forall2_lookup_r _ _ _ _ _ Hbody Hi) as (d & Hd & Hda).
    pose proof (bulkEntry_inv d a Hda) as (Hid & Hdoc & Hup).
    split_and!.
    + exists d. split; [by eapply list_elem_of_lookup_2|]. split; [done|].
      intros k Hk. rewrite Hdoc. by apply jget_indexDoc_copied.
    + intros k Hk. rewrite Hdoc. by apply jget_indexDoc_unlisted.
    + rewrite Hdoc. unfold indexDoc. done.
    + done.
    + unfold bulkEntry in Hda. destruct (toString _); [|done]. by injection Hda as <-.
Qed.

Lemma bulkIndex_sends_listed_fields_only_witness :
  let d := (sampleAd 1 "Active" ++ [("internal_note", JStr "draft")])%list in
  let w := mkWorld [d] ∅ [] [] in
  exists a,
    trace (exec (bulkIndex [d]) w) = [EvOsBulk [a]]
    /\ act_id a = oidOf 1
    /\ jget "status" (act_doc a) = Some (JStr "Active")
    /\ jget "internal_note" (act_doc a) = None.
Proof.
  intros d w.
  destruct (bulkIndex_sends_listed_fields_only [d] w) as (new & Htr & Hnew).
  assert (exists a, trace (exec (bulkIndex [d]) w) = [EvOsBulk [a]]) as [a Ha]
    by (vm_compute; eexists; reflexivity).
  rewrite Ha in Htr. cbn [trace w app] in Htr. subst new.
  destruct (Hnew [a] a) as ((d' & Hd' & Hid & Hcopy) & Hout & _);
    [apply list_elem_of_here..|].
  apply list_elem_of_singleton in Hd' as ->.
  exists a. split; [exact Ha|]. split; [|split].
  - assert (idOf d = Some (oidOf 1)) as E by reflexivity.
    rewrite E in Hid. by injection Hid.
  - rewrite Hcopy; [reflexivity|]. compute_done.
  - apply Hout. compute_done.
Defined.

(** X4. One document without [_id] fails the whole call: [bulkIndex]
    throws a TypeError while it builds the request, so nothing is sent, not
    even the documents that have an [_id]. *)
Theorem bulkIndex_document_without_id_sends_nothing (docs : list Fields)
    (d : Fields) (w : World) :
  d ∈ docs -> idOf d = None -> bulkIndex docs w = (Err TypeError, w).
Proof.
  intros Hd Hid. apply bulkIndex_no_id.
  destruct (mapM bulkEntry docs) as [body|] eqn:E; [|done].
  assert (is_Some (mapM bulkEntry docs)) as H by (by rewrite E).
  apply mapM_is_Some in H. rewrite Forall_forall in H.
  destruct (H d Hd) as [a Ha]. by rewrite (bulkEntry_None d Hid) in Ha.
Qed.

Lemma bulkIndex_document_without_id_witness :
  let d := [("status", JStr "Active")] in
  let docs := [sampleAd 1 "Active"; d] in
  let w := mkWorld docs ∅ [] [] in
  bulkIndex docs w = (Err TypeError, w).
Proof.
  intros d docs w.
  apply (bulkIndex_document_without_id_sends_nothing docs d w).
  - apply list_elem_of_further, list_elem_of_here.
  - reflexivity.
Defined.

(** X5. When the store rejects the bulk call, [bulkIndex] rethrows the
    very error; the request was made, the target is as it was. *)
Theorem bulkIndex_rethrows_client_error (docs : list Fields) (w : World)
    (e : JsError) (rest : list Fault) :
  docs <> [] ->
  Forall (fun d => is_Some (idOf d)) docs ->
  script w = Throws e :: rest ->
  exists body,
    mapM bulkEntry docs = Some body
    /\ bulkIndex docs w
       = (Err e, mkWorld (mongo w) (os w) rest (trace w ++ [EvOsBulk body])).
Proof.
  intros Hne Hids Hs. destruct (mapM_bulkEntry_is_Some docs Hids) as [body Hbody].
  exists body. split; [done|]. unfold bulkIndex. destruct docs as [|d docs]; [done|].
  rewrite Hbody. unfold Client.bulk. rewrite !bind_run.
  rewrite (driverCall_throws _ w e rest Hs). unfold called. by rewrite Hs.
Qed.

Lemma bulkIndex_rethrows_client_error_witness :
  let e := mkError (Some 503%nat) "Service Unavailable" in
  let docs := sampleAds 2 in
  let w := mkWorld docs ∅ [Throws e] [] in
  exists body,
    mapM bulkEntry docs = Some body
    /\ bulkIndex docs w = (Err e, mkWorld docs ∅ [] [EvOsBulk body]).
Proof.
  intros e docs w.
  apply (bulkIndex_rethrows_client_error docs w e []).
  - discriminate.
  - repeat constructor; vm_compute; eauto.
  - reflexivity.
Defined.

(** X2. [countrySearchedfor_all] on the wire: an array is mapped to the
    array of its normalised entries, each an object with exactly [country]
    and [is_active], never longer than the source array, a string [s]
    giving [{country: s, is_active: null}]; any other value is passed on as
    it is; a document without the field sends none. *)
Theorem countrySearchedfor_all_is_normalised (docId : string) (doc : Fields) :
  let field := "countrySearchedfor_all" in
  (forall l, jget field doc = Some (JArr l) ->
     exists l',
       jget field (indexDoc docId doc) = Some (JArr l')
       /\ Forall (fun x => exists c a, x = countryEntry c a) l'
       /\ (length l' <= length l)%nat
       /\ (forall strings, l = map JStr strings ->
             l' = map (fun s => countryEntry (JStr s) JNull) strings))
  /\ (forall v, jget field doc = Some v -> (forall l, v <> JArr l) ->
        jget field (indexDoc docId doc) = Some v)
  /\ (jget field doc = None -> jget field (indexDoc docId doc) = None).
Proof.
  intros field. subst field. set (field := "countrySearchedfor_all").
  assert (forall v, jget field (countrySearchedforAll doc
            ++ [("url-filter", urlFilter doc);
                ("url-filter-updated-at", v)])
          = jget field (countrySearchedforAll doc)) as Hlate.
  { intros v. rewrite jget_app. by destruct (jget field (countrySearchedforAll doc)). }
  assert (jget field (indexDoc docId doc) = jget field (countrySearchedforAll doc)) as E.
  { rewrite jget_indexDoc_late; [apply Hlate| |done].
    pose proof late_keys_not_copied as H. by repeat (apply Forall_cons in H as [? H]). }
  rewrite E. unfold countrySearchedforAll. subst field. split_and!.
  - intros l ->. exists (omap normalizeCountry l). split; [done|]. split_and!.
    + apply Forall_forall. intros x (item & _ & Hx)%list_elem_of_omap.
      destruct item; simpl in Hx; simplify_eq; by eexists _, _.
    + clear. induction l as [|x l IH]; [done|]. cbn [omap list_omap length] in *.
      destruct (normalizeCountry x); cbn [length]; lia.
    + intros strings ->. clear. induction strings as [|s l IH]; [done|].
      cbn [map omap list_omap normalizeCountry] in *. by rewrite IH.
  - intros v -> Hv. destruct v; try done. by destruct (Hv items).
  - by intros ->.
Qed.

Lemma countrySearchedfor_all_is_normalised_witness :
  jget "countrySearchedfor_all" (indexDoc (oidOf 1) (sampleAd 1 "Active"))
  = Some (JArr [countryEntry (JStr "FR") JNull]).
Proof.
  destruct (proj1 (countrySearchedfor_all_is_normalised (oidOf 1) (sampleAd 1 "Active"))
              [JStr "FR"] eq_refl) as (l' & Hl & _ & _ & Hs).
  rewrite Hl, (Hs ["FR"] eq_refl). reflexivity.
Defined.



(** X6. Upserting a document and then deleting its identifier leaves the
    target without it and every other document as it was: on a target that
    did not hold the identifier the two calls change nothing. *)
Theorem upsert_then_delete_round_trip (d : Fields) (X : string) (w : World) :
  healthy w ->
  idOf d = Some X ->
  let w' := exec (_ ← bulkIndex [d]; deleteDocument X) w in
  outcome (_ ← bulkIndex [d]; deleteDocument X) w = Ok (mkDeleteResult true)
  /\ os w' = base.delete X (os w)
  /\ (os w !! X = None -> os w' = os w).
Proof.
  intros Hw Hid w'. unfold w', outcome, exec. rewrite bind_run.
  destruct (bulkEntry_Some d X Hid) as (a & Ha & _).
  rewrite (bulkIndex_healthy [d] [a] w); [|done|by simpl; rewrite Ha|done].
  rewrite deleteDocument_answers by (by apply healthy_answers).
  cbn [fst snd os]. unfold upsertAll. cbn [foldl]. rewrite Hid.
  rewrite delete_insert_eq. split_and!; [done|done|].
  intros Hn. by apply delete_id.
Qed.

Lemma upsert_then_delete_round_trip_witness :
  let d := sampleAd 5 "Active" in
  let w := mkWorld [d] (indexOf (sampleAds 2)) [] [] in
  os (exec (_ ← bulkIndex [d]; deleteDocument (oidOf 5)) w) = os w.
Proof.
  intros d w.
  destruct (upsert_then_delete_round_trip d (oidOf 5) w eq_refl eq_refl) as (_ & _ & H).
  apply H. vm_compute. reflexivity.
Defined.

(** X7. When the store rejects a delete, [deleteDocument] resolves to
    [{success: true}] if the error carries status 404 and rethrows the
    error otherwise; either way the target is as it was. *)
Theorem deleteDocument_swallows_only_not_found (id : string) (w : World)
    (e : JsError) (rest : list Fault) :
  script w = Throws e :: rest ->
  let w' := mkWorld (mongo w) (os w) rest (trace w ++ [EvOsDelete id]) in
  (statusCode e = Some 404%nat ->
   deleteDocument id w = (Ok (mkDeleteResult true), w'))
  /\ (statusCode e <> Some 404%nat -> deleteDocument id w = (Err e, w')).
Proof.
  intros Hs w'. unfold w'. split; intros He.
  - rewrite (deleteDocument_status_404 id w e rest Hs He). unfold called. by rewrite Hs.
  - rewrite (deleteDocument_rethrows id w e rest Hs He). unfold called. by rewrite Hs.
Qed.

Lemma deleteDocument_swallows_only_not_found_witness :
  let e := mkError (Some 503%nat) "Service Unavailable" in
  let w := mkWorld [] (indexOf (sampleAds 2)) [Throws e] [] in
  deleteDocument (oidOf 1) w
  = (Err e, mkWorld [] (indexOf (sampleAds 2)) [] [EvOsDelete (oidOf 1)]).
Proof.
  intros e w.
  apply (proj2 (deleteDocument_swallows_only_not_found (oidOf 1) w e [] eq_refl)).
  discriminate.
Defined.

End RequestFacts.

(** ** The batches of [splitLargeBatch] *)

Section SplitFacts.
Import Json Runtime Observe BulkProcessor.

Lemma adjacent_cons {A} (R : A -> A -> Prop) x y l :
  adjacent R (x :: y :: l) <-> R x y /\ adjacent R (y :: l).
Proof. done. Qed.

Lemma adjacent_lookup {A} (R : A -> A -> Prop) l i a b :
  adjacent R l -> l !! i = Some a -> l !! S i = Some b -> R a b.
Proof.
  revert i. induction l as [|x l IH]; intros i H Ha Hb; [done|].
  destruct l as [|y l]; [done|]. apply adjacent_cons in H as [Hxy H].
  destruct i as [|i].
  - simpl in Ha, Hb. by simplify_eq.
  - by apply (IH i).
Qed.

Lemma adjacent_snoc {A} (R : A -> A -> Prop) l x y :
  adjacent R (l ++ [x]) -> R x y -> adjacent R ((l ++ [x]) ++ [y]).
Proof.
  induction l as [|a l IH]; intros H Hxy; [by split|].
  destruct l as [|b l].
  - destruct H as [Hax _]. by repeat split.
  - apply adjacent_cons in H as [Hab H]. apply adjacent_cons. split; [done|].
    by apply IH.
Qed.

Lemma adjacent_last {A} (R : A -> A -> Prop) l x x' :
  adjacent R (l ++ [x]) -> (forall z, R z x -> R z x') -> adjacent R (l ++ [x']).
Proof.
  induction l as [|a l IH]; intros H Hx; [done|].
  destruct l as [|b l].
  - destruct H as [Hax _]. split; [by apply Hx|done].
  - apply adjacent_cons in H as [Hab H]. apply adjacent_cons. split; [done|].
    by apply IH.
Qed.

Variable size : Fields -> Z.
Variables batchSize batchSizeBytes : Z.

Lemma totalSize_app b d : totalSize size (b ++ [d]) = totalSize size b + size d.
Proof. unfold totalSize. induction b as [|x b IH]; simpl; lia. Qed.

Lemma split_inv_init : split_inv size batchSize batchSizeBytes (mkSplit [] [] 0).
Proof. split; simpl; try done. by left. Qed.

Lemma split_inv_step st d :
  split_inv size batchSize batchSizeBytes st -> split_inv size batchSize batchSizeBytes (splitStep size batchSize batchSizeBytes st d).
Proof.
  intros [Hs H0 Hn Hb Hcur Hcl]. unfold splitStep.
  destruct ((batchSizeBytes <? currentBatchSize st + size d)
            || (batchSize <=? Z.of_nat (length (currentBatch st)))) eqn:Hc.
  - destruct (currentBatch st) as [|x b] eqn:Hx; cbn [length Nat.ltb Nat.leb].
    + rewrite Hx, (H0 eq_refl). split; cbn [batches currentBatch currentBatchSize app].
      * rewrite Hs. simpl. lia.
      * done.
      * done.
      * done.
      * right. by left.
      * done.
    + destruct Hcur as [|Hcur]; [done|].
      split; cbn [batches currentBatch currentBatchSize app].
      * simpl. lia.
      * done.
      * apply Forall_app. split; [done|]. by repeat constructor.
      * apply Forall_app. split; [done|]. constructor; [done|constructor].
      * right. by left.
      * apply adjacent_snoc; [done|]. exists d. split; [done|].
        apply orb_true_iff in Hc as [H%Z.ltb_lt|H%Z.leb_le]; [left|by right].
        by rewrite <- Hs.
  - apply orb_false_iff in Hc as [H1%Z.ltb_ge H2%Z.leb_gt].
    split; cbn [batches currentBatch currentBatchSize].
    + rewrite totalSize_app. lia.
    + by intros [_ [=]]%app_eq_nil.
    + done.
    + done.
    + right. right. rewrite length_app, totalSize_app. simpl. lia.
    + destruct (currentBatch st) as [|x b] eqn:Hx.
      * by rewrite (H0 eq_refl).
      * apply (adjacent_last _ _ (x :: b)); [done|].
        by intros z (d' & Hd' & Hz); exists d'.
Qed.

Lemma split_inv_fold docs st :
  split_inv size batchSize batchSizeBytes st -> split_inv size batchSize batchSizeBytes (fold_left (splitStep size batchSize batchSizeBytes) docs st).
Proof.
  revert st. induction docs as [|d docs IH]; intros st H; [done|].
  simpl. by apply IH, split_inv_step.
Qed.

Lemma split_flat_step st d :
  (concat (batches (splitStep size batchSize batchSizeBytes st d))
   ++ currentBatch (splitStep size batchSize batchSizeBytes st d))%list
  = ((concat (batches st) ++ currentBatch st) ++ [d])%list.
Proof.
  unfold splitStep.
  destruct ((batchSizeBytes <? currentBatchSize st + size d)
            || (batchSize <=? Z.of_nat (length (currentBatch st)))).
  - destruct (currentBatch st) as [|x b] eqn:Hx; cbn [length Nat.ltb Nat.leb].
    + cbn [batches currentBatch]. by rewrite Hx, !app_nil_r.
    + cbn [batches currentBatch]. rewrite concat_app. simpl.
      by rewrite !app_nil_r, <- !app_assoc.
  - cbn [batches currentBatch]. by rewrite app_assoc.
Qed.

Lemma split_flat_fold docs st :
  let st' := fold_left (splitStep size batchSize batchSizeBytes) docs st in
  (concat (batches st') ++ currentBatch st')%list
  = ((concat (batches st) ++ currentBatch st) ++ docs)%list.
Proof.
  revert st. induction docs as [|d docs IH]; intros st; simpl.
  - by rewrite app_nil_r.
  - rewrite IH, split_flat_step. by rewrite <- !app_assoc.
Qed.

(** X8. [splitLargeBatch] cuts the documents into consecutive batches:
    put end to end the batches are the input, in order, and no batch is
    empty (so no document is lost or repeated, and an empty input gives no
    batch).  This holds for every size estimate and both limits. *)
Theorem splitLargeBatch_partitions (documents : list Fields) :
  concat (splitLargeBatch size batchSize batchSizeBytes documents) = documents
  /\ Forall (fun b => b <> []) (splitLargeBatch size batchSize batchSizeBytes documents).
Proof.
  unfold splitLargeBatch.
  pose proof (split_flat_fold documents (mkSplit [] [] 0)) as Hflat.
  pose proof (split_inv_fold documents _ split_inv_init) as [_ _ Hn _ _ _].
  cbv zeta in Hflat. simpl in Hflat.
  destruct (currentBatch _) as [|x b] eqn:Hx; cbn [length Nat.ltb Nat.leb].
  - rewrite app_nil_r in Hflat. done.
  - split.
    + rewrite concat_app. simpl. by rewrite app_nil_r.
    + apply Forall_app. split; [done|]. by repeat constructor.
Qed.

(** X9. Every batch of [splitLargeBatch] is within both limits, at most
    [batchSize] documents and at most [batchSizeBytes] bytes in total,
    unless it is a single document (one that is too large on its own, or
    any document when [batchSize] is below 1). *)
Theorem splitLargeBatch_within_limits (documents : list Fields) :
  Forall (withinLimits size batchSize batchSizeBytes)
         (splitLargeBatch size batchSize batchSizeBytes documents).
Proof.
  unfold splitLargeBatch.
  pose proof (split_inv_fold documents _ split_inv_init) as [_ _ _ Hb Hc _].
  destruct (currentBatch _) as [|x b] eqn:Hx; cbn [length Nat.ltb Nat.leb]; [done|].
  destruct Hc as [|Hc]; [done|]. apply Forall_app. split; [done|].
  constructor; [done|constructor].
Qed.

(** X10. [splitLargeBatch] closes a batch only when it must: the first
    document of the next batch would have taken the batch over
    [batchSizeBytes], or the batch already held [batchSize] documents. *)
Theorem splitLargeBatch_greedy (documents : list Fields) (i : nat)
    (b next : list Fields) :
  splitLargeBatch size batchSize batchSizeBytes documents !! i = Some b ->
  splitLargeBatch size batchSize batchSizeBytes documents !! S i = Some next ->
  closedBy size batchSize batchSizeBytes b next.
Proof.
  unfold splitLargeBatch.
  pose proof (split_inv_fold documents _ split_inv_init) as [_ H0 _ _ _ Hcl].
  destruct (currentBatch _) as [|x c] eqn:Hx; cbn [length Nat.ltb Nat.leb].
  - rewrite (H0 eq_refl). done.
  - by apply adjacent_lookup.
Qed.

End SplitFacts.


Section SplitRuns.
Import Json Runtime Observe BulkProcessor.

Lemma splitLargeBatch_greedy_witness :
  let estimate := fun d : Fields => Z.of_nat (length d) in
  closedBy estimate 2 100 [sampleAd 0 "Active"; sampleAd 1 "Active"]
    [sampleAd 2 "Active"].
Proof.
  intros estimate.
  apply (splitLargeBatch_greedy estimate 2 100 (sampleAds 3) 0); reflexivity.
Defined.

End SplitRuns.

(** ** The queue of the batch processor *)

Section QueueFacts.
Import Json Runtime Observe BulkProcessor.

Lemma advanced_trans this1 this2 this3 a b :
  advanced this1 this2 a -> advanced this2 this3 b -> advanced this1 this3 (a ++ b).
Proof.
  intros (k1 & Hq1 & Hp1 & Hk1 & _) (k2 & Hq2 & Hp2 & Hk2 & Hpr).
  exists (k1 + k2)%nat. rewrite Hq2, Hp2, Hq1, Hp1. split_and!; [|lia| |done].
  - rewrite app_assoc, <- drop_drop. f_equal.
    by rewrite (drop_app_le (queue this1 ++ a)).
  - rewrite Hq1 in Hk2. rewrite !length_app, length_drop in *. rewrite length_app in Hk2. lia.
Qed.

Lemma processBatch_advances this w this' w' :
  processing this = false ->
  processBatch this w = (Ok this', w') -> advanced this this' [].
Proof.
  intros Hp. unfold processBatch, advanced. rewrite Hp, app_nil_r.
  destruct (queue this) as [|i q] eqn:Hq; cbn [orb length Nat.eqb].
  - intros [= <- _]. exists 0%nat. rewrite Hq. simpl. split_and!; [done|lia|lia|done].
  - unfold splice0. rewrite tryCatch_eq, bind_run.
    set (n := Z.to_nat (batchSize this)).
    destruct (processBatchWithRetry _ w) as [[[]| |] w1]; intros [= <- _];
      cbn [queue stats processed processing].
    + exists (length (take n (i :: q))). split_and!; [|done| |done].
      * rewrite length_take. destruct (Nat.le_ge_cases n (length (i :: q))).
        -- by rewrite Nat.min_l.
        -- rewrite Nat.min_r by done. by rewrite !drop_ge.
      * rewrite length_take. cbn [length]. lia.
    + exists 0%nat. rewrite take_drop. simpl. split_and!; [done|lia|lia|done].
Qed.

Lemma flush_advances fuel this w this' w' :
  processing this = false ->
  flush fuel this w = (Ok this', w') -> advanced this this' [].
Proof.
  revert this w. induction fuel as [|fuel IH]; intros this w Hp; simpl.
  - destruct (0 <? _)%nat; [done|]. intros [= <- _]. exists 0%nat.
    rewrite app_nil_r. simpl. split_and!; [done|lia|lia|done].
  - destruct (0 <? _)%nat.
    2:{ intros [= <- _]. exists 0%nat. rewrite app_nil_r. simpl.
        split_and!; [done|lia|lia|done]. }
    rewrite bind_run. destruct (processBatch this w) as [[t1| |] w1] eqn:E; [|done..].
    intros H. pose proof (processBatch_advances _ _ _ _ Hp E) as H1.
    assert (processing t1 = false) as Hp1 by (by destruct H1 as (? & _ & _ & _ & ?)).
    apply (advanced_trans _ _ _ [] [] H1 (IH _ _ Hp1 H)).
Qed.

Lemma enqueue_advances this items :
  processing this = false -> advanced this (enqueue this items) items.
Proof.
  intros Hp. exists 0%nat. simpl. split_and!; [done|lia|lia|done].
Qed.

Lemma runOp_advances op this w this' w' :
  processing this = false ->
  runOp op this w = (Ok this', w') -> advanced this this' (added op).
Proof.
  intros Hp. destruct op; simpl; unfold addDocument, addDocuments, thresholdFlush.
  - destruct (_ <=? _).
    + intros H%processBatch_advances; [|done].
      rewrite <- (app_nil_r [_]). eapply advanced_trans; [|exact H].
      by apply enqueue_advances.
    + intros [= <- _]. by apply enqueue_advances.
  - destruct (_ <=? _).
    + intros H%processBatch_advances; [|done].
      rewrite <- (app_nil_r (map _ _)). eapply advanced_trans; [|exact H].
      by apply enqueue_advances.
    + intros [= <- _]. by apply enqueue_advances.
  - by apply processBatch_advances.
  - by apply flush_advances.
Qed.

Lemma runOps_advances ops this w this' w' :
  processing this = false ->
  runOps ops this w = (Ok this', w') ->
  advanced this this' (concat (map added ops)).
Proof.
  revert this w. induction ops as [|op ops IH]; intros this w Hp; simpl.
  - intros [= <- _]. exists 0%nat. rewrite app_nil_r. simpl.
    split_and!; [done|lia|lia|done].
  - rewrite bind_run. destruct (runOp op this w) as [[t1| |] w1] eqn:E; [|done..].
    intros H. pose proof (runOp_advances _ _ _ _ _ Hp E) as H1.
    assert (processing t1 = false) as Hp1 by (by destruct H1 as (? & _ & _ & _ & ?)).
    exact (advanced_trans _ _ _ _ _ H1 (IH _ _ Hp1 H)).
Qed.

Lemma runOps_resolves ops this w :
  forallb (fun op => negb (isFlush op)) ops = true ->
  exists this' w', runOps ops this w = (Ok this', w').
Proof.
  revert this w. induction ops as [|op ops IH]; intros this w H; simpl.
  - by eexists _, _.
  - apply andb_true_iff in H as [Hop H]. rewrite bind_run.
    assert (exists t1 w1, runOp op this w = (Ok t1, w1)) as (t1 & w1 & ->).
    { destruct op; simpl in *; unfold addDocument, addDocuments, thresholdFlush;
        try done.
      - destruct (_ <=? _); [apply processBatch_resolves|by eexists _, _].
      - destruct (_ <=? _); [apply processBatch_resolves|by eexists _, _].
      - apply processBatch_resolves. }
    by apply IH.
Qed.

(** X11. Whatever the backend does, a processor whose calls are awaited
    one after another never loses, repeats or reorders an operation: after
    any sequence of [addDocument], [addDocuments], timer ticks and flushes
    that returns, the queue is what is left of the initial queue followed
    by the added operations once the first [k] are removed, and
    [stats.processed] grew by exactly [k].  Without a flush the sequence
    always returns. *)
Theorem queue_is_a_suffix_of_the_feed (ops : list Op) (this : t) (w : World) :
  processing this = false ->
  let feed := (queue this ++ concat (map added ops))%list in
  (forall this' w',
      runOps ops this w = (Ok this', w') ->
      exists k,
        (k <= length feed)%nat
        /\ queue this' = drop k feed
        /\ processed (stats this') = (processed (stats this) + k)%nat)
  /\ (forallb (fun op => negb (isFlush op)) ops = true ->
      exists this' w', runOps ops this w = (Ok this', w')).
Proof.
  intros Hp feed. split.
  - intros this' w' H.
    destruct (runOps_advances _ _ _ _ _ Hp H) as (k & Hq & Hpr & Hk & _).
    by exists k.
  - apply runOps_resolves.
Qed.

Lemma queue_is_a_suffix_of_the_feed_witness :
  let e := mkError (Some 503%nat) "Service Unavailable" in
  let this := mkProcessor 2 [] false (mkStats 0 0) in
  let w := mkWorld [] ∅ [Throws e; Throws e; Throws e] [] in
  let ops := [OpAddMany (sampleAds 3) "upsert"; OpTick] in
  exists this' w' k,
    runOps ops this w = (Ok this', w')
    /\ queue this' = drop k (map (fun d => mkQueueItem d "upsert") (sampleAds 3))
    /\ processed (stats this') = k.
Proof.
  intros e this w ops.
  destruct (queue_is_a_suffix_of_the_feed ops this w eq_refl) as [Hdone Hruns].
  destruct (Hruns eq_refl) as (this' & w' & Hrun).
  destruct (Hdone this' w' Hrun) as (k & _ & Hq & Hp).
  exists this', w', k. split; [exact Hrun|]. split; [exact Hq|exact Hp].
Defined.

End QueueFacts.

(** ** Passes that cannot make progress *)

Section StuckFacts.
Import Json Runtime Observe BulkProcessor.

Lemma mapM_None_elem {A B} (f : A -> option B) (l : list A) x :
  x ∈ l -> f x = None -> mapM f l = None.
Proof.
  intros Hx Hf. destruct (mapM f l) as [k|] eqn:E; [|done].
  assert (is_Some (mapM f l)) as H by (by rewrite E).
  apply mapM_is_Some in H. rewrite Forall_forall in H.
  destruct (H x Hx) as [y Hy]. simpl in Hy. congruence.
Qed.

(** An attempt at a batch that holds an operation without [_id] throws
    before any call is made. *)
Lemma attemptBatch_unidentified batch i w :
  i ∈ batch -> idOf (document i) = None ->
  attemptBatch batch w = (Err TypeError, w).
Proof.
  intros Hi Hid. unfold attemptBatch.
  destruct (mapM _ (List.filter isDelete batch)) as [deleteIds|] eqn:Hdel; [|done].
  destruct (isDelete i) eqn:Hop.
  - rewrite (mapM_None_elem _ _ i) in Hdel; [done| |exact Hid].
    apply list_elem_of_In, List.filter_In. split; [by apply list_elem_of_In|done].
  - assert (document i ∈ map document (List.filter (fun i => negb (isDelete i)) batch))
      as Hdoc.
    { apply list_elem_of_fmap. exists i. split; [done|].
      apply list_elem_of_In, List.filter_In. split; [by apply list_elem_of_In|].
      by rewrite Hop. }
    destruct (map document _) as [|d docs] eqn:Hdocs; [by apply elem_of_nil in Hdoc|].
    cbn [length Nat.ltb Nat.leb]. rewrite !bind_run.
    rewrite bulkIndex_no_id; [done|].
    apply (mapM_None_elem _ _ (document i)); [done|]. by apply bulkEntry_None.
Qed.

Lemma processBatchWithRetry_unidentified batch i w :
  i ∈ batch -> idOf (document i) = None ->
  processBatchWithRetry batch w
  = (Err TypeError,
     mkWorld (mongo w) (os w) (script w) (trace w ++ [EvSleep 2000; EvSleep 4000])).
Proof.
  intros Hi Hid. unfold processBatchWithRetry.
  rewrite (retryLoop_rejected _ _ _ _ _ _ _ _ (attemptBatch_unidentified _ _ w Hi Hid)).
  cbn [Nat.ltb Nat.leb]. rewrite bind_run. unfold sleep, emit.
  erewrite retryLoop_rejected; [|by apply (attemptBatch_unidentified _ i)].
  cbn [Nat.ltb Nat.leb]. rewrite bind_run. unfold sleep, emit.
  cbn [mongo os script trace].
  erewrite retryLoop_rejected; [|by apply (attemptBatch_unidentified _ i)].
  cbn [Nat.ltb Nat.leb]. rewrite bind_run.
  cbn [retryLoop]. unfold throw. cbn. by rewrite <- !app_assoc.
Qed.

Lemma processBatch_unidentified this i w :
  processing this = false ->
  i ∈ take (Z.to_nat (batchSize this)) (queue this) ->
  idOf (document i) = None ->
  processBatch this w
  = (Ok (mkProcessor (batchSize this) (queue this) false
           (mkStats (processed (stats this))
              (errors (stats this)
               + length (take (Z.to_nat (batchSize this)) (queue this))))),
     mkWorld (mongo w) (os w) (script w) (trace w ++ [EvSleep 2000; EvSleep 4000])).
Proof.
  intros Hp Hi Hid. unfold processBatch. rewrite Hp.
  destruct (queue this) as [|j q] eqn:Hq.
  { rewrite take_nil in Hi. by apply elem_of_nil in Hi. }
  cbn [orb length Nat.eqb]. unfold splice0.
  rewrite tryCatch_eq, bind_run, (processBatchWithRetry_unidentified _ i w Hi Hid).
  by rewrite take_drop.
Qed.

Lemma flush_unidentified fuel this i w :
  processing this = false ->
  i ∈ take (Z.to_nat (batchSize this)) (queue this) ->
  idOf (document i) = None ->
  outcome (flush fuel this) w = Diverge
  /\ os (exec (flush fuel this) w) = os w
  /\ targetWrites (trace (exec (flush fuel this) w)) = targetWrites (trace w).
Proof.
  revert this w. induction fuel as [|fuel IH]; intros this w Hp Hi Hid;
    unfold outcome, exec; cbn [flush].
  all: assert ((0 <? length (queue this))%nat = true) as ->
    by (apply Nat.ltb_lt; destruct (queue this);
        [rewrite take_nil in Hi; by apply elem_of_nil in Hi|simpl; lia]).
  - done.
  - rewrite bind_run, (processBatch_unidentified this i w Hp Hi Hid).
    match goal with
    | |- context [flush fuel ?t ?w1] =>
        destruct (IH t w1) as (H1 & H2 & H3); [done|done|done|]
    end.
    unfold outcome, exec in *. rewrite H1, H2, H3. cbn [os trace].
    split_and!; [done|done|].
    unfold targetWrites. rewrite List.filter_app. simpl. by rewrite app_nil_r.
Qed.

(** X14. An operation whose document has no [_id] blocks the queue.  Each
    attempt at its batch throws before any call is made; the pass waits 2 s
    and 4 s, puts the batch back in front and adds its size to
    [stats.errors], leaving the backend untouched.  [flush] then never
    returns: however many passes it is given it is still running, with no
    write sent. *)
Theorem operation_without_id_blocks_the_queue (this : t) (i : QueueItem) (w : World) :
  processing this = false ->
  let batch := take (Z.to_nat (batchSize this)) (queue this) in
  i ∈ batch ->
  idOf (document i) = None ->
  processBatch this w
  = (Ok (mkProcessor (batchSize this) (queue this) false
           (mkStats (processed (stats this)) (errors (stats this) + length batch))),
     mkWorld (mongo w) (os w) (script w) (trace w ++ [EvSleep 2000; EvSleep 4000]))
  /\ forall fuel,
       outcome (flush fuel this) w = Diverge
       /\ os (exec (flush fuel this) w) = os w
       /\ targetWrites (trace (exec (flush fuel this) w)) = targetWrites (trace w).
Proof.
  intros Hp batch Hi Hid. split.
  - by apply (processBatch_unidentified this i).
  - intros fuel. by apply (flush_unidentified fuel this i).
Qed.

Lemma operation_without_id_blocks_the_queue_witness :
  let i := mkQueueItem [("status", JStr "Active")] "upsert" in
  let this := mkProcessor 2 [i; mkQueueItem (sampleAd 1 "Active") "upsert";
                             mkQueueItem (sampleAd 2 "Active") "upsert"]
                false (mkStats 0 0) in
  let w := mkWorld [] ∅ [] [] in
  processBatch this w
  = (Ok (mkProcessor 2 (queue this) false (mkStats 0 2)),
     mkWorld [] ∅ [] [EvSleep 2000; EvSleep 4000])
  /\ outcome (flush 50 this) w = Diverge.
Proof.
  intros i this w.
  destruct (operation_without_id_blocks_the_queue this i w eq_refl
              ltac:(apply list_elem_of_here) eq_refl) as [Hpass Hflush].
  split; [exact Hpass|]. exact (proj1 (Hflush 50%nat)).
Defined.

(** With a batch size of 0 or less a pass takes nothing from the queue. *)
Lemma processBatch_nonpositive this w :
  batchSize this <= 0 -> processing this = false ->
  processBatch this w = (Ok this, w).
Proof.
  intros Hbs Hp. unfold processBatch.
  destruct this as [bs q p [pr er]]. cbn [queue batchSize stats processed errors processing] in *. subst p.
  destruct q as [|i q]; [done|]. cbn [orb length Nat.eqb]. unfold splice0.
  assert (Z.to_nat bs = 0%nat) as -> by lia. cbn [take drop firstn skipn].
  rewrite tryCatch_eq, bind_run. unfold processBatchWithRetry. cbn [retryLoop].
  rewrite tryCatch_eq. unfold attemptBatch. cbn. by rewrite Nat.add_0_r.
Qed.

Lemma runOps_nonpositive ops this w :
  batchSize this <= 0 -> processing this = false ->
  exec (runOps ops this) w = w.
Proof.
  unfold exec. revert this. induction ops as [|op ops IH]; intros this Hbs Hp; [done|].
  cbn [runOps]. rewrite bind_run.
  assert (forall t, batchSize t <= 0 -> processing t = false ->
            forall fuel, exists r, flush fuel t w = (r, w)
              /\ forall t', r = Ok t' -> batchSize t' <= 0 /\ processing t' = false)
    as Hflush.
  { intros t Ht Hpt fuel. revert t Ht Hpt.
    induction fuel as [|fuel IHf]; intros t Ht Hpt; cbn [flush].
    - destruct (0 <? _)%nat; eexists; (split; [reflexivity|]); [done|].
      by intros t' [= <-].
    - destruct (0 <? _)%nat.
      + rewrite bind_run, processBatch_nonpositive by done. by apply IHf.
      + eexists; split; [reflexivity|]. by intros t' [= <-]. }
  assert (exists r, runOp op this w = (r, w)
            /\ forall t', r = Ok t' -> batchSize t' <= 0 /\ processing t' = false)
    as (r & -> & Hr).
  { destruct op; cbn [runOp]; unfold addDocument, addDocuments, thresholdFlush.
    - destruct (_ <=? _).
      + rewrite processBatch_nonpositive by done. eexists. split; [done|].
        by intros t' [= <-].
      + eexists. split; [done|]. by intros t' [= <-].
    - destruct (_ <=? _).
      + rewrite processBatch_nonpositive by done. eexists. split; [done|].
        by intros t' [= <-].
      + eexists. split; [done|]. by intros t' [= <-].
    - rewrite processBatch_nonpositive by done. eexists. split; [done|].
      by intros t' [= <-].
    - by apply Hflush. }
  destruct r as [t1| |]; [|done..]. destruct (Hr t1 eq_refl). by apply IH.
Qed.

(** X15. With a batch size of 0 or less (a negative [SYNC_BATCH_SIZE]
    passes the configuration's [parseInt(...) || 100]) a pass takes nothing
    from the queue: no sequence of calls on the processor ever reaches the
    backend, and [flush] on a non-empty queue never returns. *)
Theorem nonpositive_batch_size_delivers_nothing (this : t) (w : World) :
  batchSize this <= 0 ->
  processing this = false ->
  (forall ops, exec (runOps ops this) w = w)
  /\ (queue this <> [] -> forall fuel, flush fuel this w = (Diverge, w)).
Proof.
  intros Hbs Hp. split; [intros ops; by apply runOps_nonpositive|].
  intros Hq fuel.
  assert ((0 <? length (queue this))%nat = true) as Hpos
    by (apply Nat.ltb_lt; destruct (queue this); [done|simpl; lia]).
  induction fuel as [|fuel IH]; cbn [flush]; rewrite Hpos; [done|].
  by rewrite bind_run, processBatch_nonpositive.
Qed.

Lemma nonpositive_batch_size_delivers_nothing_witness :
  let this := mkProcessor (-5) [mkQueueItem (sampleAd 1 "Active") "upsert"] false
                (mkStats 0 0) in
  let w := mkWorld [] ∅ [] [] in
  flush 50 this w = (Diverge, w).
Proof.
  intros this w.
  destruct (nonpositive_batch_size_delivers_nothing this w) as [_ H].
  - vm_compute. discriminate.
  - reflexivity.
  - apply H. discriminate.
Defined.

End StuckFacts.

(** ** Deliveries on a healthy backend *)

Section DeliveryFacts.
Import Json Runtime Observe BulkProcessor.

Lemma flush_empty fuel this w : queue this = [] -> flush fuel this w = (Ok this, w).
Proof. intros H. destruct fuel; simpl; by rewrite H. Qed.

Lemma addDocument_below d op this w :
  Z.of_nat (length (queue this)) + 1 < batchSize this ->
  addDocument d op this w = (Ok (enqueue this [mkQueueItem d op]), w).
Proof.
  intros H. unfold addDocument, thresholdFlush. cbn [enqueue batchSize queue].
  rewrite length_app. cbn [length].
  by rewrite (proj2 (Z.leb_gt _ _)) by lia.
Qed.

Lemma addDocument_full_healthy d op this w :
  healthy w -> processing this = false ->
  batchSize this <= Z.of_nat (length (queue this)) + 1 ->
  (length (queue this) + 1 <= Z.to_nat (batchSize this))%nat ->
  identified (queue this ++ [mkQueueItem d op]) ->
  let batch := (queue this ++ [mkQueueItem d op])%list in
  addDocument d op this w
  = (Ok (mkProcessor (batchSize this) [] false
           (mkStats (processed (stats this) + length batch) (errors (stats this)))),
     mkWorld (mongo w) (batchEffect batch (os w)) [] (trace w ++ batchCalls batch)).
Proof.
  intros Hw Hp Hbs Hlen Hid batch. unfold addDocument, thresholdFlush.
  cbn [enqueue batchSize queue]. fold batch.
  assert (length batch = length (queue this) + 1)%nat as Hb
    by (unfold batch; rewrite length_app; simpl; lia).
  rewrite Hb. rewrite (proj2 (Z.leb_le _ _)) by lia.
  rewrite (processBatch_healthy _ w); [|done|done| |done].
  2:{ cbn [queue]. by intros [_ [=]]%app_eq_nil. }
  cbn [enqueue batchSize queue processing stats processed errors]. fold batch.
  rewrite take_ge, drop_ge by lia. by rewrite Hb.
Qed.

Lemma flush_one_healthy fuel this w :
  healthy w -> processing this = false -> queue this <> [] ->
  (length (queue this) <= Z.to_nat (batchSize this))%nat ->
  identified (queue this) ->
  flush (S fuel) this w
  = (Ok (mkProcessor (batchSize this) [] false
           (mkStats (processed (stats this) + length (queue this))
                    (errors (stats this)))),
     mkWorld (mongo w) (batchEffect (queue this) (os w)) []
             (trace w ++ batchCalls (queue this))).
Proof.
  intros Hw Hp Hq Hlen Hid. cbn [flush].
  assert ((0 <? length (queue this))%nat = true) as ->
    by (apply Nat.ltb_lt; destruct (queue this); [done|simpl; lia]).
  rewrite bind_run, (processBatch_healthy _ w) by done.
  rewrite take_ge, drop_ge by lia. by rewrite flush_empty.
Qed.

Lemma filter_deletes_none batch :
  Forall (fun i => isDelete i = false) batch -> List.filter isDelete batch = [].
Proof. induction 1 as [|i b Hi _ IH]; [done|]. simpl. by rewrite Hi. Qed.

Lemma filter_upserts_all batch :
  Forall (fun i => isDelete i = false) batch ->
  List.filter (fun i => negb (isDelete i)) batch = batch.
Proof. induction 1 as [|i b Hi _ IH]; [done|]. simpl. by rewrite Hi, IH. Qed.

Lemma upsert_only_effect batch st :
  Forall (fun i => isDelete i = false) batch ->
  batchEffect batch st = upsertAll (map document batch) st.
Proof.
  intros H. unfold batchEffect, upsertsOf, deletesOf.
  by rewrite filter_deletes_none, filter_upserts_all.
Qed.

Lemma upsert_only_calls batch :
  batch <> [] -> identified batch ->
  Forall (fun i => isDelete i = false) batch ->
  exists body, batchCalls batch = [EvOsBulk body]
               /\ map act_id body = omap idOf (map document batch).
Proof.
  intros Hne Hid H. unfold batchCalls, upsertsOf, deletesOf.
  rewrite filter_deletes_none, filter_upserts_all by done.
  destruct (mapM_bulkEntry_is_Some (map document batch)) as [body Hbody].
  { apply Forall_fmap. exact Hid. }
  rewrite Hbody. pose proof (body_ids _ _ Hbody) as Hids.
  destruct body as [|a body].
  - apply length_mapM in Hbody. rewrite length_map in Hbody.
    destruct batch; [done|simpl in Hbody; lia].
  - exists (a :: body). by rewrite app_nil_r.
Qed.

Lemma upsertAll_app docs1 docs2 st :
  upsertAll (docs1 ++ docs2) st = upsertAll docs2 (upsertAll docs1 st).
Proof. unfold upsertAll. by rewrite foldl_app. Qed.

Lemma flush_upserts_healthy fuel this w :
  healthy w -> processing this = false -> 1 <= batchSize this ->
  identified (queue this) ->
  Forall (fun i => isDelete i = false) (queue this) ->
  (length (queue this) <= fuel)%nat ->
  exists this' w' new,
    flush fuel this w = (Ok this', w')
    /\ queue this' = []
    /\ os w' = upsertAll (map document (queue this)) (os w)
    /\ trace w' = (trace w ++ new)%list
    /\ bulkIds new = omap idOf (map document (queue this))
    /\ targetWrites new = new
    /\ Forall (fun ev => exists body, ev = EvOsBulk body) new.
Proof.
  revert this w. induction fuel as [|fuel IH]; intros this w Hw Hp Hbs Hid Hups Hlen.
  - destruct (queue this) as [|i q] eqn:Hq; [|simpl in Hlen; lia].
    exists this, w, []. rewrite flush_empty by done. rewrite Hq, app_nil_r.
    by split_and!.
  - destruct (queue this) as [|i q] eqn:Hq.
    { exists this, w, []. rewrite flush_empty by done. rewrite Hq, app_nil_r.
      by split_and!. }
    cbn [flush]. rewrite Hq. cbn [length Nat.ltb Nat.leb].
    rewrite bind_run, (processBatch_healthy _ w); [|done|done|by rewrite Hq|by rewrite Hq].
    rewrite Hq. set (n := Z.to_nat (batchSize this)).
    assert (take n (i :: q) <> []) as Hne
      by (assert (n = S (pred n)) as -> by lia; done).
    rewrite <- Hq in Hid, Hups.
    rewrite (upsert_only_effect (take n (i :: q)))
      by (rewrite <- Hq; by apply Forall_take).
    destruct (upsert_only_calls (take n (i :: q)) Hne) as (body & -> & Hbody).
    { rewrite <- Hq. by apply identified_take. }
    { rewrite <- Hq. by apply Forall_take. }
    match goal with
    | |- context [flush fuel ?t ?w1] =>
        destruct (IH t w1)
          as (this' & w' & new & Hrun & Hq' & Hos & Htr & Hids & Hwr & Hbulk)
    end; cbn [queue processing batchSize]; try done.
    + rewrite <- Hq. by apply identified_drop.
    + rewrite <- Hq. by apply Forall_drop.
    + rewrite length_drop. simpl in *. lia.
    + exists this', w', (EvOsBulk body :: new). rewrite Hrun.
      cbn [queue os trace] in *. split_and!; [done|done| | | | |].
      * rewrite Hos, <- upsertAll_app, <- map_app. by rewrite take_drop.
      * rewrite Htr. by rewrite <- app_assoc.
      * change (EvOsBulk body :: new) with ([EvOsBulk body] ++ new)%list.
        rewrite bulkIds_app, Hids.
        change (bulkIds [EvOsBulk body]) with (map act_id body ++ [])%list.
        rewrite app_nil_r, Hbody, <- omap_app, <- map_app. by rewrite take_drop.
      * simpl. by rewrite Hwr.
      * constructor; [by exists body|exact Hbulk].
Qed.

(** X12. On a healthy backend [flush] empties a queue of upserts within
    as many passes as it has operations and leaves the target as if the
    documents had been upserted one by one in queue order, whatever the
    batch size; the identifiers of its bulk requests, read in order, are
    those of the queue, and it makes no call but bulk requests: every event
    it adds to the trace is one. *)
Theorem flush_applies_upserts_in_queue_order (this : t) (w : World) :
  healthy w ->
  processing this = false ->
  1 <= batchSize this ->
  identified (queue this) ->
  Forall (fun i => operation i <> "delete") (queue this) ->
  let docs := map document (queue this) in
  exists this' w' new,
    flush (length (queue this)) this w = (Ok this', w')
    /\ queue this' = []
    /\ os w' = upsertAll docs (os w)
    /\ trace w' = (trace w ++ new)%list
    /\ bulkIds new = omap idOf docs
    /\ targetWrites new = new
    /\ Forall (fun ev => exists body, ev = EvOsBulk body) new.
Proof.
  intros Hw Hp Hbs Hid Hups docs.
  apply flush_upserts_healthy; try done.
  eapply Forall_impl; [exact Hups|]. intros i Hi. unfold isDelete.
  by apply String.eqb_neq.
Qed.

Lemma flush_applies_upserts_in_queue_order_witness :
  let this := mkProcessor 2 (map (fun d => mkQueueItem d "upsert") (sampleAds 3))
                false (mkStats 0 0) in
  let w := mkWorld [] ∅ [] [] in
  exists this' w' new,
    flush 3 this w = (Ok this', w')
    /\ queue this' = []
    /\ os w' = upsertAll (map document (queue this)) ∅
    /\ trace w' = new
    /\ bulkIds new = omap idOf (map document (queue this))
    /\ targetWrites new = new
    /\ Forall (fun ev => exists body, ev = EvOsBulk body) new.
Proof.
  intros this w.
  apply (flush_applies_upserts_in_queue_order this w).
  - reflexivity.
  - reflexivity.
  - vm_compute. discriminate.
  - repeat constructor; vm_compute; eauto.
  - repeat constructor; discriminate.
Defined.

(** X13. Inside one batch every upsert is sent before any delete,
    whatever their order in the queue: on a healthy backend a pass over
    any queue of identified operations sends the upserts of its batch, in
    queue order, as one bulk request (none when the batch has no upsert)
    and only then the deletes of the batch, one call each, in queue order;
    the target ends as the upserts followed by the deletes leave it.  So a
    delete of X followed by an upsert of X ends, with a batch size of 2 or
    more, with X absent from the target (the bulk request, then the
    delete); with a batch size of 1 the two are separate batches and X is
    stored. *)
Theorem delete_then_upsert_in_one_batch (this : t) (bs : Z) (st : Stats)
    (key v : Fields) (X : string) (w : World) (fuel : nat) :
  healthy w ->
  (processing this = false -> queue this <> [] -> identified (queue this) ->
   let batch := take (Z.to_nat (batchSize this)) (queue this) in
   exists this' w' bulk,
     processBatch this w = (Ok this', w')
     /\ trace w' = (trace w ++ bulk ++ map EvOsDelete (deletesOf batch))%list
     /\ (bulk = [] /\ upsertsOf batch = []
         \/ exists body,
              bulk = [EvOsBulk body]
              /\ mapM OpenSearchService.bulkEntry (upsertsOf batch) = Some body
              /\ map act_id body = omap idOf (upsertsOf batch))
     /\ os w' = batchEffect batch (os w)
     /\ queue this' = drop (Z.to_nat (batchSize this)) (queue this))
  /\
  (idOf key = Some X ->
  idOf v = Some X ->
  let run := (this1 ← addDocument key "delete" (mkProcessor bs [] false st);
              this2 ← addDocument v "upsert" this1;
              flush (S fuel) this2) in
  (2 <= bs ->
   exists this' w' a,
     run w = (Ok this', w')
     /\ queue this' = []
     /\ OpenSearchService.bulkEntry v = Some a
     /\ trace w' = (trace w ++ [EvOsBulk [a]; EvOsDelete X])%list
     /\ os w' = base.delete X (os w))
  /\ (bs = 1 ->
      exists this' w',
        run w = (Ok this', w')
        /\ queue this' = []
        /\ os w' = <[X := wireDoc X v]> (os w))).
Proof.
  intros Hw. split.
  { intros Hp Hq Hid batch.
    rewrite (processBatch_healthy this w Hw Hp Hq Hid). fold batch.
    assert (identified batch) as Hidb by by apply identified_take.
    destruct (mapM_bulkEntry_is_Some _ (identified_upserts batch Hidb))
      as [body Hbody].
    eexists _, _, (match body with [] => [] | _ => [EvOsBulk body] end).
    split; [reflexivity|]. cbn [trace os queue]. split_and!.
    - unfold batchCalls. rewrite Hbody. by destruct body.
    - destruct body as [|a body].
      + left. split; [done|]. apply length_mapM in Hbody.
        by destruct (upsertsOf batch).
      + right. exists (a :: body). split_and!; [done|done|].
        exact (body_ids _ _ Hbody).
    - done.
    - done. }
  intros Hk Hv run.
  set (i1 := mkQueueItem key "delete"). set (i2 := mkQueueItem v "upsert").
  destruct (bulkEntry_Some v X Hv) as (a & Ha & _).
  assert (identified [i1; i2]) as Hid12
    by (repeat constructor; simpl; by rewrite ?Hk, ?Hv).
  assert (identified [i1]) as Hid1 by (repeat constructor; simpl; by rewrite Hk).
  assert (identified [i2]) as Hid2 by (repeat constructor; simpl; by rewrite Hv).
  assert (forall s, batchEffect [i1; i2] s = base.delete X s) as Heff.
  { intros s. unfold batchEffect, upsertsOf, deletesOf. cbn.
    unfold upsertAll. cbn [foldl]. rewrite Hk, Hv. cbn [foldl].
    by rewrite delete_insert_eq. }
  assert (batchCalls [i1; i2] = [EvOsBulk [a]; EvOsDelete X]) as Hcalls.
  { unfold batchCalls, upsertsOf, deletesOf. cbn. by rewrite Ha, Hk. }
  split.
  - intros Hbs. unfold run. rewrite bind_run.
    rewrite addDocument_below by (simpl; lia). rewrite bind_run.
    destruct (Z.leb_spec bs 2) as [Hle|Hgt].
    + rewrite addDocument_full_healthy;
        [|done|done|simpl; lia|simpl; lia|exact Hid12].
      rewrite flush_empty by done.
      eexists _, _, a. split; [reflexivity|]. cbn [enqueue queue trace os app].
      fold i1 i2. by rewrite Heff, Hcalls.
    + rewrite addDocument_below by (simpl; lia).
      rewrite flush_one_healthy; [|done|done|done|simpl; lia|exact Hid12].
      eexists _, _, a. split; [reflexivity|]. cbn [enqueue queue trace os app].
      fold i1 i2. by rewrite Heff, Hcalls.
  - intros ->. unfold run. rewrite bind_run.
    rewrite addDocument_full_healthy; [|done|done|simpl; lia|simpl; lia|exact Hid1].
    rewrite bind_run.
    rewrite addDocument_full_healthy; [|done|done|simpl; lia|simpl; lia|exact Hid2].
    rewrite flush_empty by done.
    eexists _, _. split; [reflexivity|]. cbn [queue os app]. split; [done|].
    fold i1 i2.
    unfold batchEffect, upsertsOf, deletesOf. cbn. unfold upsertAll. cbn [foldl].
    rewrite Hk, Hv. cbn [foldl]. rewrite lookup_delete_eq. cbn [upserted].
    by rewrite insert_delete_eq.
Qed.

Lemma delete_then_upsert_in_one_batch_witness :
  let key := [("_id", JOid (oidOf 1))] in
  let v := sampleAd 1 "Active" in
  let w := mkWorld [v] (indexOf (sampleAds 2)) [] [] in
  let this := mkProcessor 3 [mkQueueItem key "delete";
                             mkQueueItem (sampleAd 0 "Paused") "upsert";
                             mkQueueItem v "upsert"] false (mkStats 0 0) in
  (exists this' w' body,
      processBatch this w = (Ok this', w')
      /\ trace w' = [EvOsBulk body; EvOsDelete (oidOf 1)]
      /\ map act_id body = [oidOf 0; oidOf 1]
      /\ queue this' = [])
  /\ exists this' w' a,
       (this1 ← addDocument key "delete" (mkProcessor 100 [] false (mkStats 0 0));
        this2 ← addDocument v "upsert" this1;
        flush 1 this2) w = (Ok this', w')
       /\ queue this' = []
       /\ OpenSearchService.bulkEntry v = Some a
       /\ trace w' = [EvOsBulk [a]; EvOsDelete (oidOf 1)]
       /\ os w' = base.delete (oidOf 1) (os w).
Proof.
  intros key v w this.
  destruct (delete_then_upsert_in_one_batch this 100 (mkStats 0 0) key v (oidOf 1)
              w 0 eq_refl) as [G H].
  split.
  - destruct G as (this' & w' & bulk & Hrun & Htr & Hbulk & _ & Hq);
      [reflexivity|discriminate|repeat constructor; vm_compute; eauto|].
    destruct Hbulk as [[_ Hup]|(body & -> & _ & Hids)]; [by vm_compute in Hup|].
    exists this', w', body. split; [exact Hrun|]. split; [exact Htr|].
    split; [exact Hids|exact Hq].
  - destruct (H eq_refl eq_refl) as [H2 _].
    apply H2. vm_compute. discriminate.
Defined.

End DeliveryFacts.

(** ** The change-stream listener *)

Section StreamFacts.
Import Json Runtime Observe BulkProcessor SyncStream.

(** One operation added to an idle, empty processor and flushed. *)
Lemma add_then_flush_healthy doc op bp w fuel :
  healthy w -> queue bp = [] -> processing bp = false -> 1 <= batchSize bp ->
  is_Some (idOf doc) ->
  (bp1 ← addDocument doc op bp; flush (S fuel) bp1) w
  = (Ok (mkProcessor (batchSize bp) [] false
           (BulkProcessor.mkStats (processed (BulkProcessor.stats bp) + 1)
                                  (BulkProcessor.errors (BulkProcessor.stats bp)))),
     mkWorld (mongo w) (batchEffect [mkQueueItem doc op] (os w)) []
             (trace w ++ batchCalls [mkQueueItem doc op])).
Proof.
  intros Hw Hq Hp Hbs Hid. rewrite bind_run.
  assert (identified [mkQueueItem doc op]) as Hident by (by repeat constructor).
  destruct (Z.leb_spec (batchSize bp) 1) as [Hle|Hgt].
  - rewrite addDocument_full_healthy; rewrite ?Hq; [|done|done|simpl; lia|simpl; lia|done].
    by rewrite flush_empty.
  - rewrite addDocument_below by (rewrite Hq; simpl; lia).
    rewrite flush_one_healthy; cbn [enqueue queue batchSize processing stats]; rewrite ?Hq;
      [done|done|done|done|simpl; lia|done].
Qed.

Lemma idOf_keyDocument key : idOf (keyDocument key) = idOf key.
Proof. unfold idOf, keyDocument. by destruct (jget "_id" key). Qed.

Lemma delete_single_effect X key st :
  idOf key = Some X -> batchEffect [mkQueueItem key "delete"] st = base.delete X st.
Proof.
  intros H. unfold batchEffect, upsertsOf, deletesOf. cbn. by rewrite H.
Qed.

(** X16. One change event handled by the ['change'] listener and then
    flushed, on a healthy backend and an idle, empty processor.  An insert,
    update or replace with its full document upserts that document; a
    delete removes the identifier of its document key; both count one
    processed document.  An insert, update or replace without a full
    document, and any other operation type, leave the target untouched and
    count one skipped document.  An event without a document key makes
    [handleChange] throw, which the listener counts in [stats.errors]. *)
Theorem change_event_reaches_the_target (change : Change) (this : t) (w : World)
    (fuel : nat) :
  healthy w ->
  queue (bulkProcessor this) = [] ->
  processing (bulkProcessor this) = false ->
  1 <= batchSize (bulkProcessor this) ->
  let run := (this1 ← onChange change this; flushPending (S fuel) this1) in
  let op := operationType change in
  let isUpsert := String.eqb op "insert" || String.eqb op "update"
                  || String.eqb op "replace" in
  (forall key doc X,
      documentKey change = Some key -> isUpsert = true ->
      fullDocument change = Some doc -> idOf doc = Some X ->
      exists this' w',
        run w = (Ok this', w')
        /\ os w' = <[X := upserted X doc (os w !! X)]> (os w)
        /\ queue (bulkProcessor this') = []
        /\ stats this' = mkStats (S (documentsProcessed (stats this)))
                                 (documentsSkipped (stats this)) (errors (stats this)))
  /\ (forall key X,
        documentKey change = Some key -> op = "delete" -> idOf key = Some X ->
        exists this' w',
          run w = (Ok this', w')
          /\ os w' = base.delete X (os w)
          /\ queue (bulkProcessor this') = []
          /\ stats this' = mkStats (S (documentsProcessed (stats this)))
                                   (documentsSkipped (stats this)) (errors (stats this)))
  /\ (forall key,
        documentKey change = Some key ->
        (isUpsert = true /\ fullDocument change = None)
        \/ (isUpsert = false /\ op <> "delete") ->
        run w = (Ok (skippedOne this), w))
  /\ (documentKey change = None ->
      run w = (Ok (mkSync (bulkProcessor this)
                     (mkStats (documentsProcessed (stats this))
                              (documentsSkipped (stats this))
                              (S (errors (stats this))))), w)).
Proof.
  intros Hw Hq Hp Hbs run op isUpsert. subst run op isUpsert.
  unfold onChange, handleChange, flushPending. cbv zeta. split_and!.
  - intros key doc X Hkey Hop Hdoc Hid. rewrite bind_run, tryCatch_eq, Hkey, Hop, Hdoc.
    rewrite bind_run.
    pose proof (add_then_flush_healthy doc "upsert" (bulkProcessor this) w fuel
                  Hw Hq Hp Hbs ltac:(by rewrite Hid)) as E.
    rewrite bind_run in E.
    destruct (addDocument doc "upsert" (bulkProcessor this) w) as [[bp1| |] w1];
      [|done..].
    cbv [mret IO_ret] in *. cbv iota beta. cbn [processedOne bulkProcessor stats].
    rewrite bind_run, E.
    eexists _, _. split; [reflexivity|]. cbn [os bulkProcessor queue stats].
    by rewrite (upsert_single_effect X doc _ Hid).
  - intros key X Hkey Hop Hid. rewrite bind_run, tryCatch_eq, Hkey, Hop.
    cbn [String.eqb Ascii.eqb Bool.eqb orb]. rewrite bind_run.
    pose proof (add_then_flush_healthy (keyDocument key) "delete" (bulkProcessor this)
                  w fuel Hw Hq Hp Hbs
                  ltac:(by rewrite idOf_keyDocument, Hid)) as E.
    rewrite bind_run in E.
    destruct (addDocument (keyDocument key) "delete" (bulkProcessor this) w)
      as [[bp1| |] w1]; [|done..].
    cbv [mret IO_ret] in *. cbv iota beta. cbn [processedOne bulkProcessor stats].
    rewrite bind_run, E.
    eexists _, _. split; [reflexivity|]. cbn [os bulkProcessor queue stats].
    rewrite (delete_single_effect X (keyDocument key)); [done|].
    by rewrite idOf_keyDocument.
  - intros key Hkey [[Hop Hdoc]|[Hop Hdel]]; rewrite bind_run, tryCatch_eq, Hkey, Hop.
    + rewrite Hdoc. cbv [mret IO_ret]. cbv iota beta.
      cbn [skippedOne bulkProcessor]. rewrite bind_run.
      rewrite flush_empty by done. by destruct this.
    + rewrite (proj2 (String.eqb_neq _ _) Hdel). cbv [mret IO_ret]. cbv iota beta.
      cbn [skippedOne bulkProcessor]. rewrite bind_run.
      rewrite flush_empty by done. by destruct this.
  - intros Hkey. rewrite bind_run, tryCatch_eq, Hkey. cbv [mret IO_ret throw].
    cbv iota beta. cbn [bulkProcessor]. rewrite bind_run. by rewrite flush_empty.
Qed.

Lemma change_event_reaches_the_target_witness :
  let doc := sampleAd 1 "Paused" in
  let change := mkChange "update" (Some doc) (Some [("_id", JOid (oidOf 1))]) in
  let this := mkSync (BulkProcessor.mkProcessor 100 [] false (BulkProcessor.mkStats 0 0))
                (mkStats 0 0 0) in
  let w := mkWorld [doc] (indexOf (sampleAds 2)) [] [] in
  exists this' w',
    (this1 ← onChange change this; flushPending 1 this1) w = (Ok this', w')
    /\ os w' = <[oidOf 1 := upserted (oidOf 1) doc (os w !! oidOf 1)]> (os w)
    /\ queue (bulkProcessor this') = []
    /\ stats this' = mkStats 1 0 0.
Proof.
  intros doc change this w.
  destruct (change_event_reaches_the_target change this w 0 eq_refl eq_refl eq_refl)
    as [H _]; [vm_compute; discriminate|].
  exact (H [("_id", JOid (oidOf 1))] doc (oidOf 1) eq_refl eq_refl eq_refl eq_refl).
Defined.

End StreamFacts.

(** ** The identifier scan, page by page *)

Section ScanPages.
Import Json Runtime Observe ReconciliationService.

Lemma scanPages_step n : (0 < n)%nat -> scanPages n = S (scanPages (n - 1000)).
Proof.
  intros Hn. unfold scanPages.
  destruct (Nat.le_gt_cases n 1000) as [Hle|Hgt].
  - replace (n - 1000)%nat with 0%nat by lia.
    replace ((n + 999) / 1000)%nat with 1%nat; [done|].
    apply Nat.div_unique with (r := (n - 1)%nat); lia.
  - replace (n + 999)%nat with ((n - 1000 + 999) + 1 * 1000)%nat by lia.
    rewrite Nat.div_add by lia. lia.
Qed.

Lemma scanLoop_pages fuel (acc : gset string) cursor w (pre : list string) :
  healthy w ->
  let rem := filter (fun id => Client.after cursor id = true)
                    (Client.sortedIds (os w)) in
  Client.sortedIds (os w) = (pre ++ rem)%list ->
  (scanPages (length rem) <= fuel)%nat ->
  exists w' new,
    scanLoop fuel acc cursor w = (Ok (acc ∪ list_to_set rem), w')
    /\ healthy w' /\ os w' = os w /\ mongo w' = mongo w
    /\ trace w' = (trace w ++ new)%list
    /\ length new = scanPages (length rem)
    /\ Forall isScanPage new.
Proof.
  revert acc cursor w pre.
  induction fuel as [|fuel IH]; intros acc cursor w pre Hw rem Hl Hlen;
    [unfold scanPages in Hlen; lia|].
  cbn [scanLoop]. rewrite bind_run, (search_healthy _ _ w Hw). fold rem.
  set (w1 := called (EvOsSearch 1000 cursor) w).
  assert (healthy w1) as Hw1 by by apply healthy_called.
  destruct (last (take 1000 rem)) as [a|] eqn:Hlast.
  - apply last_Some in Hlast as [hits' Hhits].
    pose proof (take_drop 1000 rem) as Hsplit. rewrite Hhits in Hsplit.
    assert (length rem <> 0)%nat as Hpos.
    { intros H0. apply length_zero_iff_nil in H0. rewrite H0 in Hhits.
      rewrite take_nil in Hhits. by destruct hits'. }
    assert (Client.sortedIds (os w)
            = ((pre ++ hits') ++ a :: drop 1000 rem)%list) as Hl'.
    { rewrite Hl. rewrite <- Hsplit at 1. by rewrite <- !app_assoc. }
    assert (filter (fun id => Client.after (Some a) id = true)
                   (Client.sortedIds (os w)) = drop 1000 rem) as Hrem'.
    { rewrite Hl'. apply sorted_filter_after; rewrite <- Hl';
        [apply StronglySorted_sortedIds|apply NoDup_sortedIds]. }
    rewrite (scanPages_step (length rem)) in Hlen |- * by lia.
    destruct (IH (acc ∪ list_to_set (take 1000 rem)) (Some a) w1
                 (pre ++ hits' ++ [a])%list Hw1)
      as (w' & new & Hrun & Hw' & Hos & Hm & Htr & Hnew & Hpages).
    + change (os w1) with (os w). rewrite Hrem', Hl'. by rewrite <- !app_assoc.
    + change (os w1) with (os w). rewrite Hrem', length_drop. lia.
    + change (os w1) with (os w) in *. rewrite Hrem', length_drop in *.
      exists w', (EvOsSearch 1000 cursor :: new). split_and!; try done.
      * rewrite Hrun. f_equal. f_equal.
        rewrite <- (take_drop 1000 rem) at 3. rewrite list_to_set_app_L.
        by rewrite (assoc_L (∪)).
      * rewrite Htr. unfold w1, called. cbn [trace]. by rewrite <- app_assoc.
      * simpl. by rewrite Hnew.
      * constructor; [by eexists|done].
  - exists w1, [EvOsSearch 1000 cursor].
    apply last_None in Hlast. destruct rem as [|id rem'] eqn:Hrem; [|done].
    split_and!; try done.
    + io_unfold. f_equal. f_equal.
      by rewrite list_to_set_nil, (right_id_L ∅ (∪)).
    + repeat constructor. by eexists.
Qed.

(** X17. On a healthy backend [getAllOpenSearchIds] returns exactly the
    identifiers of the target, however many there are, and only reads: for
    [n] documents it sends ceil(n / 1000) + 1 search requests of size 1000
    (the last one comes back empty and ends the loop) and nothing else. *)
Theorem getAllOpenSearchIds_reads_every_page (fuel : nat) (w : World) :
  healthy w ->
  (scanPages (size (os w)) <= fuel)%nat ->
  exists w' new,
    getAllOpenSearchIds fuel w = (Ok (dom (os w)), w')
    /\ os w' = os w /\ mongo w' = mongo w
    /\ trace w' = (trace w ++ new)%list
    /\ length new = scanPages (size (os w))
    /\ Forall isScanPage new.
Proof.
  intros Hw Hfuel. unfold getAllOpenSearchIds.
  destruct (scanLoop_pages fuel ∅ None w [] Hw)
    as (w' & new & Hrun & _ & Hos & Hm & Htr & Hnew & Hpages).
  - by rewrite filter_all by by apply Forall_forall.
  - rewrite filter_all by by apply Forall_forall. by rewrite length_sortedIds.
  - rewrite filter_all in Hrun, Hnew by by apply Forall_forall.
    rewrite length_sortedIds in Hnew.
    exists w', new. split_and!; try done.
    rewrite Hrun. by rewrite sortedIds_dom, (left_id_L ∅ (∪)).
Qed.

Lemma getAllOpenSearchIds_reads_every_page_witness :
  let w := mkWorld [] (indexOf (sampleAds 3)) [] [] in
  exists w' new,
    getAllOpenSearchIds 2 w = (Ok (dom (os w)), w')
    /\ os w' = os w /\ mongo w' = mongo w
    /\ trace w' = new
    /\ length new = scanPages (size (os w))
    /\ Forall isScanPage new.
Proof.
  intros w. apply (getAllOpenSearchIds_reads_every_page 2 w).
  - reflexivity.
  - vm_compute. lia.
Defined.

End ScanPages.

(** ** Failures of a reconciliation pass *)

Section CleanFacts.
Import Json Runtime Observe ReconciliationService.

Lemma targetWrites_notWrite new : Forall notWrite new -> targetWrites new = [].
Proof.
  unfold targetWrites. induction 1 as [|ev new Hev _ IH]; [done|].
  destruct ev; simpl; done.
Qed.

Lemma readOnly_ret {A} (a : A) : readOnly (mret a).
Proof. split; [apply emits_ret|done]. Qed.

Lemma readOnly_throw {A} e : readOnly (@throw A e).
Proof. split; [apply emits_throw|done]. Qed.

Lemma readOnly_diverge {A} : readOnly (@diverge A).
Proof. split; [apply emits_diverge|done]. Qed.

Lemma readOnly_getWorld : readOnly getWorld.
Proof. split; [apply emits_getWorld|done]. Qed.

Lemma readOnly_driverCall ev : notWrite ev -> readOnly (driverCall ev).
Proof.
  intros Hev. split; [by apply emits_driverCall|].
  intros w. unfold exec, driverCall. by destruct (script w) as [|[] ?].
Qed.

Lemma readOnly_emit ev : notWrite ev -> readOnly (emit ev).
Proof. intros Hev. split; [by apply emits_emit|done]. Qed.

Lemma readOnly_bind {A B} (m : IO A) (f : A -> IO B) :
  readOnly m -> (forall a, readOnly (f a)) -> readOnly (m ≫= f).
Proof.
  intros [Hm Hos] Hf. split.
  - apply emits_bind; [done|]. intros a. apply Hf.
  - intros w. unfold exec in *. rewrite bind_run. specialize (Hos w).
    destruct (m w) as [[a| |] w1]; simpl in *; [|done..].
    destruct (Hf a) as [_ Hfa]. unfold exec in Hfa. by rewrite Hfa.
Qed.

Lemma readOnly_tryCatch {A} (m : IO A) h :
  readOnly m -> (forall e, readOnly (h e)) -> readOnly (tryCatch m h).
Proof.
  intros [Hm Hos] Hh. split.
  - apply emits_tryCatch; [done|]. intros e. apply Hh.
  - intros w. unfold exec in *. rewrite tryCatch_eq. specialize (Hos w).
    destruct (m w) as [[a| |] w1]; simpl in *; [done| |done].
    destruct (Hh e) as [_ Hhe]. unfold exec in Hhe. by rewrite Hhe.
Qed.

Lemma readOnly_countDocuments : readOnly Collection.countDocuments.
Proof.
  apply readOnly_bind; [by apply readOnly_driverCall|]. intros _.
  apply readOnly_bind; [apply readOnly_getWorld|intros; apply readOnly_ret].
Qed.

Lemma readOnly_getIndexStats : readOnly OpenSearchService.getIndexStats.
Proof.
  apply readOnly_bind; [|intros; apply readOnly_ret].
  apply readOnly_bind; [by apply readOnly_driverCall|]. intros _.
  apply readOnly_bind; [apply readOnly_getWorld|intros; apply readOnly_ret].
Qed.

Lemma readOnly_findIds : readOnly Collection.findIds.
Proof.
  apply readOnly_bind; [by apply readOnly_driverCall|]. intros _.
  apply readOnly_bind; [apply readOnly_getWorld|intros; apply readOnly_ret].
Qed.

Lemma readOnly_getAllOpenSearchIds fuel : readOnly (getAllOpenSearchIds fuel).
Proof.
  unfold getAllOpenSearchIds. generalize (∅ : gset string), (@None string).
  induction fuel as [|fuel IH]; intros acc cursor; simpl; [apply readOnly_diverge|].
  apply readOnly_bind.
  - apply readOnly_bind; [by apply readOnly_driverCall|]. intros _.
    apply readOnly_bind; [apply readOnly_getWorld|intros; apply readOnly_ret].
  - intros hits. destruct (last hits); [apply IH|apply readOnly_ret].
Qed.

Lemma failsClean_no_throw {A} (m : IO A) : no_throw m -> failsClean m.
Proof. intros H w e He. by destruct (H w e). Qed.

Lemma failsClean_throw {A} e : failsClean (@throw A e).
Proof.
  intros w e' _. split; [done|]. exists []. by rewrite app_nil_r.
Qed.

Lemma failsClean_bind {A B} (m : IO A) (f : A -> IO B) :
  readOnly m -> (forall a, failsClean (f a)) -> failsClean (m ≫= f).
Proof.
  intros [Hm Hos] Hf w e. unfold outcome, exec in *. rewrite bind_run.
  destruct (Hm w) as (n1 & E1 & F1). specialize (Hos w).
  destruct (m w) as [[a| |] w1] eqn:Em; simpl in *; [| |done].
  - intros He. destruct (Hf a w1 e He) as (Hos2 & n2 & E2 & F2).
    unfold exec in *. split; [congruence|]. exists (n1 ++ n2)%list.
    rewrite E2, E1, app_assoc. split; [done|]. by apply Forall_app.
  - intros _. split; [done|]. by exists n1.
Qed.

Lemma failsClean_then {A B} (m : IO A) (f : A -> IO B) :
  failsClean m -> (forall a, no_throw (f a)) -> failsClean (m ≫= f).
Proof.
  intros Hm Hf w e. unfold outcome, exec in *. rewrite bind_run.
  specialize (Hm w). unfold outcome, exec in Hm.
  destruct (m w) as [[a| |] w1] eqn:Em; simpl in *; [| |done].
  - intros He. by destruct (Hf a w1 e).
  - intros [= <-]. by apply (Hm e0).
Qed.

Lemma ensures_ret {A} (P : A -> Prop) a : P a -> ensures P (mret a).
Proof. by intros H w a' [= <-]. Qed.

Lemma ensures_bind {A B} (P : B -> Prop) (m : IO A) (f : A -> IO B) :
  (forall a, ensures P (f a)) -> ensures P (m ≫= f).
Proof.
  intros Hf w b. unfold outcome. rewrite bind_run.
  destruct (m w) as [[a| |] w1]; [apply Hf|done|done].
Qed.

Lemma tryCatch_reports {A} (P : A -> Prop) (m : IO A) (h : JsError -> A) w a :
  ensures P m -> failsClean m ->
  outcome (tryCatch m (fun e => mret (h e))) w = Ok a -> ~ P a ->
  (exists e, a = h e)
  /\ os (exec (tryCatch m (fun e => mret (h e))) w) = os w
  /\ exists new, trace (exec (tryCatch m (fun e => mret (h e))) w) = (trace w ++ new)%list
                 /\ Forall notWrite new.
Proof.
  intros HP Hm. specialize (HP w). specialize (Hm w).
  unfold outcome, exec in *. rewrite tryCatch_eq.
  destruct (m w) as [[a'| e |] w1]; simpl in *; [| |done].
  - intros [= <-] Hn. destruct Hn. by apply HP.
  - intros [= <-] _. split; [by exists e|]. by apply (Hm e).
Qed.

Lemma no_throw_syncLoop turns ids i synced : no_throw (syncLoop turns ids i synced).
Proof.
  revert i synced. induction turns as [|turns IH]; intros i synced; simpl;
    (destruct (i <? length ids)%nat; [|apply no_throw_ret]).
  - apply no_throw_diverge.
  - apply no_throw_bind; [|intros; apply IH].
    apply no_throw_tryCatch. intros; apply no_throw_ret.
Qed.

Lemma failsClean_syncMissingDocuments fuel this :
  failsClean (syncMissingDocuments fuel this).
Proof.
  unfold syncMissingDocuments.
  apply failsClean_bind; [apply readOnly_findIds|]. intros mongoIds.
  destruct (mapM toString mongoIds); [|apply failsClean_throw].
  apply failsClean_bind; [apply readOnly_getAllOpenSearchIds|]. intros osIdSet.
  destruct (_ =? _)%nat; [apply failsClean_no_throw, no_throw_ret|].
  apply failsClean_no_throw, no_throw_bind; [apply no_throw_syncLoop|].
  intros; apply no_throw_ret.
Qed.

Lemma ensures_syncMissingDocuments fuel this :
  ensures (fun r => success r.1 = true) (syncMissingDocuments fuel this).
Proof.
  unfold syncMissingDocuments. apply ensures_bind. intros mongoIds.
  destruct (mapM toString mongoIds); [|by intros w a].
  apply ensures_bind. intros osIdSet.
  destruct (_ =? _)%nat; [by apply ensures_ret|].
  apply ensures_bind. intros synced. by apply ensures_ret.
Qed.

(** X20. [checkAndSync] never throws.  When it reports
    [success: false] it has written nothing to the target (no bulk request,
    no delete), the result carries the error message, and the pass counted
    one check and one error. *)
Theorem checkAndSync_reports_failure_without_writing (fuel : nat) (this : t)
    (w : World) :
  (forall e, outcome (checkAndSync fuel this) w <> Err e)
  /\ forall r this',
       outcome (checkAndSync fuel this) w = Ok (Some r, this') ->
       success r = false ->
       os (exec (checkAndSync fuel this) w) = os w
       /\ targetWrites (trace (exec (checkAndSync fuel this) w))
          = targetWrites (trace w)
       /\ (exists msg, error r = Some msg)
       /\ errors (stats this') = S (errors (stats this))
       /\ totalChecks (stats this') = S (totalChecks (stats this)).
Proof.
  split.
  - intros e. unfold checkAndSync. destruct (negb (isRunning this)); [done|].
    apply no_throw_tryCatch. intros; apply no_throw_ret.
  - intros r this'. unfold checkAndSync. destruct (negb (isRunning this)); [done|].
    intros Hrun Hfail.
    match goal with
    | |- context [tryCatch ?m (fun e => mret (@?h e))] =>
        destruct (tryCatch_reports
                    (fun a => forall r, a.1 = Some r -> success r = true)
                    m h w (Some r, this'))
          as ([e He] & Hos & new & Htr & Hnew)
    end.
    + apply ensures_bind. intros mongoCount. apply ensures_bind. intros osStats.
      destruct (_ =? _); [apply ensures_ret; by intros ? [= <-]|].
      destruct (_ <? _); [|apply ensures_ret; by intros ? [= <-]].
      intros w1 a. unfold outcome. rewrite bind_run.
      pose proof (ensures_syncMissingDocuments fuel
                    (mkService (isRunning this)
                       (mkStats (S (totalChecks (stats this))) (totalSyncs (stats this))
                          (documentsSynced (stats this)) (errors (stats this)))) w1) as H.
      unfold outcome in H.
      destruct (syncMissingDocuments _ _ w1) as [[[r1 t1]| |] w2]; [|done..].
      intros [= <-] ? [= <-]. exact (H (r1, t1) eq_refl).
    + apply failsClean_bind; [apply readOnly_countDocuments|]. intros mongoCount.
      apply failsClean_bind; [apply readOnly_getIndexStats|]. intros osStats.
      destruct (_ =? _); [apply failsClean_no_throw, no_throw_ret|].
      destruct (_ <? _); [|apply failsClean_no_throw, no_throw_ret].
      apply failsClean_then; [apply failsClean_syncMissingDocuments|].
      intros; apply no_throw_ret.
    + exact Hrun.
    + intros H. specialize (H r eq_refl). congruence.
    + injection He as -> ->. split; [exact Hos|]. split.
      * rewrite Htr. unfold targetWrites at 1. rewrite List.filter_app.
        fold (targetWrites (trace w)). fold (targetWrites new).
        by rewrite (targetWrites_notWrite new Hnew), app_nil_r.
      * cbn. split; [by eexists|done].
Qed.

Lemma checkAndSync_reports_failure_witness :
  let this := mkService true (mkStats 0 0 0 0) in
  let w := mkWorld (sampleAds 2) ∅ [NoFault; Throws (mkError None "ECONNRESET")] [] in
  outcome (checkAndSync 3 this) w
  = Ok (Some (mkResult false None None None None None None None (Some "ECONNRESET")),
        mkService true (mkStats 1 0 0 1))
  /\ os (exec (checkAndSync 3 this) w) = os w.
Proof.
  intros this w.
  assert (outcome (checkAndSync 3 this) w
          = Ok (Some (mkResult false None None None None None None None
                        (Some "ECONNRESET")),
                mkService true (mkStats 1 0 0 1))) as E by (vm_compute; reflexivity).
  split; [exact E|].
  exact (proj1 (proj2 (checkAndSync_reports_failure_without_writing 3 this w)
                  _ _ E eq_refl)).
Defined.

End CleanFacts.

(** ** Batches of the repair *)

Section RepairRuns.
Import Json Runtime Observe ReconciliationService.

Lemma findIn_answered qs w s :
  script w = NoFault :: s ->
  Collection.findIn qs w
  = (Ok (Collection.matching qs (mongo w)), called (EvMongoFindIn qs) w).
Proof.
  intros Hs. unfold Collection.findIn. rewrite bind_run. unfold driverCall, called.
  rewrite Hs. by io_unfold.
Qed.

(** X19. A batch of [syncDocumentsByIds] that fails, because the source
    query or the bulk call is rejected, is skipped without stopping the
    loop: the call resolves, the documents of the first 100 identifiers
    stay missing, every later one is upserted, and the count returned is
    that of the later ones. *)
Theorem failed_batch_is_skipped (ids : list string) (w : World) (e : JsError) :
  wf_source (mongo w) = true ->
  NoDup ids ->
  (forall id, id ∈ ids -> id ∈ sourceIds w) ->
  (forall id, id ∈ ids -> os w !! id = None) ->
  ids <> [] ->
  script w = [Throws e] \/ script w = [NoFault; Throws e] ->
  exists w',
    syncDocumentsByIds ids w = (Ok (length ids - 100)%nat, w')
    /\ (forall id, id ∈ take 100 ids -> os w' !! id = None)
    /\ (forall d id, d ∈ mongo w -> idOf d = Some id -> id ∈ drop 100 ids ->
          os w' !! id = Some (wireDoc id d))
    /\ (forall id, id ∉ ids -> os w' !! id = os w !! id).
Proof.
  intros Hsrc Hnd Hsub Hfresh Hne Hscript. unfold syncDocumentsByIds.
  destruct ids as [|x l] eqn:Hids; [done|]. rewrite <- Hids in *.
  assert (length ids = S (length l)) as Hlen by (by rewrite Hids).
  rewrite Hlen. cbn [syncLoop]. rewrite (proj2 (Nat.ltb_lt 0 (length ids))) by lia.
  rewrite drop_0.
  assert (exists w1,
            tryCatch
              (documents ← Collection.findIn (toObjectIds (take 100 ids));
               synced' ←
                 (if (0 <? length documents)%nat
                  then _ ← OpenSearchService.bulkIndex documents;
                       mret (0 + length documents)%nat
                  else mret 0%nat);
               _ ← sleep 200;
               mret synced')
              (fun _ => mret 0%nat) w = (Ok 0%nat, w1)
            /\ healthy w1 /\ os w1 = os w /\ mongo w1 = mongo w)
    as (w1 & Hturn & Hw1 & Hos1 & Hm1).
  { rewrite tryCatch_eq, bind_run. destruct Hscript as [Hs|Hs].
    - unfold Collection.findIn. rewrite bind_run.
      rewrite (driverCall_throws _ w e [] Hs). eexists. split; [reflexivity|].
      unfold healthy, called. by rewrite Hs.
    - rewrite (findIn_answered _ w _ Hs).
      destruct (wf_source_inv _ Hsrc) as [Hoid Hsrc_nd].
      set (chunk := take 100 ids).
      assert (NoDup chunk) as Hnd_chunk
        by (eapply sublist_NoDup; [exact Hnd|apply sublist_take]).
      assert (forall id, id ∈ chunk -> id ∈ omap idOf (mongo w)) as Hchunk_src.
      { intros id Hid. apply Hsub.
        eapply elem_of_sublist; [exact Hid|apply sublist_take]. }
      pose proof (selected_identified (mongo w) chunk Hoid Hchunk_src) as Hdocs_id.
      pose proof (selected_length (mongo w) chunk Hoid Hsrc_nd Hnd_chunk Hchunk_src)
        as Hdocs_len.
      set (documents := Collection.matching _ (mongo w)) in *.
      assert (0 < length chunk)%nat as Hpos
        by (unfold chunk; rewrite length_take; lia).
      destruct (mapM_bulkEntry_is_Some documents Hdocs_id) as [body Hbody].
      rewrite (proj2 (Nat.ltb_lt _ _)) by lia. rewrite !bind_run.
      unfold OpenSearchService.bulkIndex.
      destruct documents as [|d docs] eqn:Hd; [simpl in Hdocs_len; lia|].
      rewrite Hbody. unfold Client.bulk. rewrite !bind_run.
      rewrite (driverCall_throws _ _ e []) by (unfold called; by rewrite Hs).
      eexists. split; [reflexivity|]. unfold healthy, called. cbn. by rewrite Hs. }
  rewrite bind_run, Hturn. cbn [Nat.add].
  destruct (syncLoop_healthy (length l) ids 100 0 w1)
    as (w' & Hrun & _ & _ & Hframe & Hnew & _); try done.
  - by rewrite Hm1.
  - intros id Hid. unfold sourceIds. rewrite Hm1. by apply Hsub.
  - intros id Hid. rewrite Hos1. apply Hfresh.
    eapply elem_of_sublist; [exact Hid|apply sublist_drop].
  - lia.
  - exists w'. rewrite Hrun, length_drop, Hlen. split; [done|].
    rewrite <- (take_drop 100 ids) in Hnd. apply NoDup_app in Hnd as (_ & Hdisj & _).
    split_and!.
    + intros id Hid. rewrite Hframe by by apply Hdisj.
      rewrite Hos1. apply Hfresh.
      eapply elem_of_sublist; [exact Hid|apply sublist_take].
    + intros d id Hd Hid Hin. apply (Hnew d id); [by rewrite Hm1|done|done].
    + intros id Hid. rewrite Hframe, Hos1; [done|].
      intros Hin. apply Hid. eapply elem_of_sublist; [exact Hin|apply sublist_drop].
Qed.

Lemma failed_batch_is_skipped_witness :
  let e := mkError (Some 503%nat) "Service Unavailable" in
  let w := mkWorld (sampleAds 2) ∅ [NoFault; Throws e] [] in
  let ids := [oidOf 0; oidOf 1] in
  exists w',
    syncDocumentsByIds ids w = (Ok 0%nat, w')
    /\ (forall id, id ∈ ids -> os w' !! id = None).
Proof.
  intros e w ids.
  destruct (failed_batch_is_skipped ids w e) as (w' & Hrun & Hlost & _).
  - vm_compute. reflexivity.
  - apply (NoDup_sampleIds 2). vm_compute. discriminate.
  - intros id Hid. unfold sourceIds. cbn [mongo w].
    rewrite (sourceIds_sampleAds 2). exact Hid.
  - intros id _. apply lookup_empty.
  - discriminate.
  - right. reflexivity.
  - exists w'. split; [exact Hrun|exact Hlost].
Defined.

(** X21. Equal counts end the pass at once, whatever the identifiers
    are: [checkAndSync] returns [inSync: true] after the two count calls
    and compares no identifier, so a source document that the target lacks
    is still missing afterwards. *)
Theorem equal_counts_end_the_pass (fuel : nat) (this : t) (w : World) :
  isRunning this = true ->
  answers 2 w ->
  length (mongo w) = size (os w) ->
  let n := Z.of_nat (length (mongo w)) in
  checkAndSync fuel this w
  = (Ok (Some (mkResult true (Some true) (Some n) (Some n) (Some 0) (Some 0%nat)
                 None None None),
         mkService true
           (mkStats (S (totalChecks (stats this))) (totalSyncs (stats this))
                    (documentsSynced (stats this)) (errors (stats this)))),
     called EvOsStats (called EvMongoCount w))
  /\ forall id, id ∈ sourceIds w -> os w !! id = None ->
       os (exec (checkAndSync fuel this) w) !! id = None.
Proof.
  intros Hrun Hw Heq n. unfold exec.
  rewrite (checkAndSync_in_sync fuel this w Hw Hrun Heq). subst n.
  rewrite <- Heq. split; [done|]. by intros id _ Hid.
Qed.

Lemma equal_counts_end_the_pass_witness :
  let this := mkService true (mkStats 0 0 0 0) in
  let w := mkWorld (sampleAds 2)
             (indexOf [sampleAd 7 "Active"; sampleAd 8 "Active"]) [] [] in
  outcome (checkAndSync 5 this) w
  = Ok (Some (mkResult true (Some true) (Some 2) (Some 2) (Some 0) (Some 0%nat)
                None None None),
        mkService true (mkStats 1 0 0 0))
  /\ os (exec (checkAndSync 5 this) w) !! oidOf 0 = None.
Proof.
  intros this w.
  assert (length (mongo w) = size (os w)) as Heq by (vm_compute; reflexivity).
  destruct (equal_counts_end_the_pass 5 this w eq_refl (healthy_answers 2 w eq_refl) Heq)
    as [E Hmiss].
  split.
  - unfold outcome. rewrite E. reflexivity.
  - apply Hmiss; [|vm_compute; reflexivity].
    unfold sourceIds. cbn [mongo w]. rewrite (sourceIds_sampleAds 2).
    apply list_elem_of_here.
Defined.

End RepairRuns.

(** ** The full sync *)

Section FullSyncFacts.
Import Json Runtime Observe SyncService.

Lemma findPage_healthy skip limit w :
  healthy w ->
  Collection.findPage skip limit w
  = (Ok (take limit (drop skip (mongo w))), called (EvMongoFindPage skip limit) w).
Proof.
  intros Hw. unfold Collection.findPage.
  by rewrite bind_run, (driverCall_healthy _ w Hw).
Qed.

Lemma pageLoop_healthy fuel bs skip acc w :
  healthy w -> (0 < bs)%nat ->
  Forall (fun d => is_Some (idOf d)) (mongo w) ->
  success acc = true ->
  (length (mongo w) - skip < fuel)%nat ->
  exists w' new,
    pageLoop fuel bs skip acc w
    = (Ok (mkFullSync true (processed acc + (length (mongo w) - skip))
             (errors acc) (versionConflicts acc)), w')
    /\ healthy w' /\ mongo w' = mongo w
    /\ os w' = upsertAll (drop skip (mongo w)) (os w)
    /\ trace w' = (trace w ++ new)%list
    /\ bulkIds new = omap idOf (drop skip (mongo w))
    /\ Forall (fun ev => forall id, ev <> EvOsDelete id) new.
Proof.
  revert skip acc w. induction fuel as [|fuel IH]; intros skip acc w Hw Hbs Hid Hacc Hfuel;
    [lia|].
  cbn [pageLoop]. unfold findDocuments.
  rewrite (proj2 (Nat.eqb_neq bs 0)) by lia.
  rewrite bind_run, (findPage_healthy _ _ w Hw).
  set (l := drop skip (mongo w)). set (page := take bs l).
  set (w1 := called (EvMongoFindPage skip bs) w).
  assert (length l = length (mongo w) - skip)%nat as Hl by apply length_drop.
  destruct page as [|d page'] eqn:Hpage.
  - cbn [length Nat.eqb]. exists w1, [EvMongoFindPage skip bs].
    assert (l = []) as Hnil.
    { destruct l as [|x l']; [done|]. unfold page in Hpage.
      destruct bs; [lia|done]. }
    rewrite Hnil in *. simpl in Hl. rewrite <- Hl, Nat.add_0_r.
    split_and!; try done.
    + io_unfold. by destruct acc as [[] ? ? ?].
    + by apply healthy_called.
    + repeat constructor. done.
  - rewrite <- Hpage. assert (page <> []) as Hne by (by rewrite Hpage).
    assert ((length page =? 0)%nat = false) as ->
      by (apply Nat.eqb_neq; rewrite Hpage; simpl; lia).
    assert (Forall (fun d => is_Some (idOf d)) page) as Hpid
      by (unfold page, l; by apply Forall_take, Forall_drop).
    destruct (mapM_bulkEntry_is_Some page Hpid) as [body Hbody].
    rewrite !bind_run, tryCatch_eq, bind_run.
    rewrite (bulkIndex_healthy page body w1 Hne Hbody
               (healthy_called _ w Hw)).
    io_unfold. cbn [OpenSearchService.errors OpenSearchService.versionConflicts default].
    rewrite !Nat.add_0_r.
    match goal with
    | |- context [pageLoop fuel bs ?s ?a ?w3] =>
        destruct (IH s a w3)
          as (w' & new & Hrun & Hw' & Hm & Hos & Htr & Hids & Hnd)
    end; try done.
    + cbn [mongo]. change (mongo w1) with (mongo w).
      pose proof (take_drop bs l) as Hsplit. fold page in Hsplit.
      assert (length l = length page + length (drop bs l))%nat
        by (rewrite <- Hsplit at 1; by rewrite length_app).
      assert (0 < length page)%nat by (rewrite Hpage; simpl; lia). lia.
    + cbn [mongo os trace processed errors versionConflicts] in *.
      change (mongo w1) with (mongo w) in *. change (os w1) with (os w) in *.
      change (trace w1) with (trace w ++ [EvMongoFindPage skip bs])%list in *.
      assert (drop (skip + length page) (mongo w) = drop bs l) as Hrest.
      { rewrite <- drop_drop. fold l. rewrite <- (take_drop bs l) at 1. fold page.
        by rewrite drop_app_length. }
      rewrite Hrest in *.
      pose proof (take_drop bs l) as Hsplit. fold page in Hsplit.
      exists w', ([EvMongoFindPage skip bs; EvOsBulk body; EvSleep 200] ++ new)%list.
      split_and!; try done.
      * rewrite Hrun. f_equal. f_equal. f_equal.
        assert (length l = length page + length (drop bs l))%nat
          by (rewrite <- Hsplit at 1; by rewrite length_app).
        rewrite length_drop in *. lia.
      * rewrite Hos, <- upsertAll_app. by rewrite Hsplit.
      * rewrite Htr. by rewrite <- !app_assoc.
      * rewrite bulkIds_app, Hids.
        change (bulkIds [EvMongoFindPage skip bs; EvOsBulk body; EvSleep 200])
          with (map act_id body ++ [])%list.
        rewrite app_nil_r, (body_ids page body Hbody), <- omap_app. by rewrite Hsplit.
      * apply Forall_app. split; [|done]. by repeat constructor.
Qed.

Lemma upsertAll_lookup docs st d id :
  NoDup (omap idOf docs) -> d ∈ docs -> idOf d = Some id ->
  upsertAll docs st !! id = Some (upserted id d (st !! id)).
Proof.
  revert st. induction docs as [|d' docs IH]; intros st Hnd Hd Hid.
  - by apply elem_of_nil in Hd.
  - rewrite upsertAll_cons. simpl in Hnd.
    apply elem_of_cons in Hd as [<-|Hd].
    + rewrite Hid in *. apply NoDup_cons in Hnd as [Hfresh _].
      rewrite upsertAll_frame by done. by rewrite lookup_insert_eq.
    + destruct (idOf d') as [id'|] eqn:Hid'; [|by apply IH].
      apply NoDup_cons in Hnd as [Hfresh Hnd].
      rewrite IH by done. rewrite lookup_insert_ne; [done|].
      intros ->. apply Hfresh. apply elem_of_sourceIds. eauto.
Qed.

Lemma upsertAll_twice docs st :
  NoDup (omap idOf docs) ->
  Forall (fun d => wf_fields d = true) docs ->
  upsertAll docs (upsertAll docs st) = upsertAll docs st.
Proof.
  intros Hnd Hwf. apply map_eq. intros id.
  destruct (decide (id ∈ omap idOf docs)) as [Hin|Hout].
  - apply elem_of_sourceIds in Hin as (d & Hd & Hid).
    rewrite !(upsertAll_lookup docs _ d id) by done. f_equal.
    assert (wf_fields (wireDoc id d) = true) as Hp.
    { apply wf_toJSONFields, wf_indexDoc. by apply (proj1 (Forall_forall _ _) Hwf). }
    unfold upserted at 1. destruct (st !! id) as [old|]; simpl.
    + by apply mergeFields_idem.
    + by apply mergeFields_self.
  - by rewrite !upsertAll_frame.
Qed.

Lemma performFullSync_healthy fuel batchSize w :
  healthy w ->
  Forall (fun d => is_Some (idOf d)) (mongo w) ->
  (length (mongo w) < fuel)%nat ->
  exists w' new,
    performFullSync fuel batchSize w
    = (Ok (mkFullSync true (length (mongo w)) 0 0), w')
    /\ healthy w' /\ mongo w' = mongo w
    /\ os w' = upsertAll (mongo w) (os w)
    /\ trace w' = (trace w ++ new)%list
    /\ bulkIds new = sourceIds w
    /\ Forall (fun ev => forall id, ev <> EvOsDelete id) new.
Proof.
  intros Hw Hid Hfuel. unfold performFullSync.
  rewrite bind_run, countDocuments_run, Hw.
  set (bs := if (batchSize =? 0)%nat then 100%nat else batchSize).
  assert (0 < bs)%nat as Hbs by (unfold bs; destruct batchSize; simpl; lia).
  destruct (pageLoop_healthy fuel bs 0 (mkFullSync true 0 0 0) (called EvMongoCount w))
    as (w' & new & Hrun & Hw' & Hm & Hos & Htr & Hids & Hnd); try done.
  - by apply healthy_called.
  - cbn [mongo called]. lia.
  - exists w', (EvMongoCount :: new). rewrite Hrun.
    cbn [mongo os trace called processed errors versionConflicts] in *.
    rewrite drop_0, Nat.sub_0_r in *. split_and!; try done.
    + rewrite Htr. by rewrite <- app_assoc.
    + constructor; [done|done].
Qed.

(** X22. On a healthy backend [performFullSync] returns
    [processed = ] the number of source documents with no error, whatever
    the batch size.  The target is left as if every source document had
    been upserted in collection order; each is sent once, in that order; no
    delete is sent, so the target keeps every identifier it had. *)
Theorem performFullSync_upserts_the_whole_source (fuel batchSize : nat) (w : World) :
  healthy w ->
  Forall (fun d => is_Some (idOf d)) (mongo w) ->
  (length (mongo w) < fuel)%nat ->
  exists w' new,
    performFullSync fuel batchSize w
    = (Ok (mkFullSync true (length (mongo w)) 0 0), w')
    /\ os w' = upsertAll (mongo w) (os w)
    /\ trace w' = (trace w ++ new)%list
    /\ bulkIds new = sourceIds w
    /\ Forall (fun ev => forall id, ev <> EvOsDelete id) new
    /\ dom (os w') = dom (os w) ∪ list_to_set (sourceIds w).
Proof.
  intros Hw Hid Hfuel.
  destruct (performFullSync_healthy fuel batchSize w Hw Hid Hfuel)
    as (w' & new & Hrun & _ & _ & Hos & Htr & Hids & Hnd).
  exists w', new. split_and!; try done. rewrite Hos. apply dom_upsertAll.
Qed.

Lemma performFullSync_upserts_the_whole_source_witness :
  let w := mkWorld (sampleAds 3) (indexOf [sampleAd 7 "Active"]) [] [] in
  exists w' new,
    performFullSync 4 2 w = (Ok (mkFullSync true 3 0 0), w')
    /\ os w' = upsertAll (sampleAds 3) (os w)
    /\ trace w' = new
    /\ bulkIds new = sourceIds w
    /\ Forall (fun ev => forall id, ev <> EvOsDelete id) new
    /\ dom (os w') = dom (os w) ∪ list_to_set (sourceIds w).
Proof.
  intros w. apply (performFullSync_upserts_the_whole_source 4 2 w).
  - reflexivity.
  - repeat constructor; vm_compute; eauto.
  - vm_compute. lia.
Defined.

(** X23. A second full sync changes nothing: on a healthy backend, with
    source documents of distinct identifiers, the target after two runs
    (of any batch sizes) is the target after the first. *)
Theorem performFullSync_twice_is_once (fuel fuel2 batchSize batchSize2 : nat)
    (w : World) :
  healthy w ->
  Forall (fun d => is_Some (idOf d)) (mongo w) ->
  NoDup (sourceIds w) ->
  Forall (fun d => wf_fields d = true) (mongo w) ->
  (length (mongo w) < fuel)%nat ->
  (length (mongo w) < fuel2)%nat ->
  exists w1 w2,
    performFullSync fuel batchSize w
    = (Ok (mkFullSync true (length (mongo w)) 0 0), w1)
    /\ performFullSync fuel2 batchSize2 w1
       = (Ok (mkFullSync true (length (mongo w)) 0 0), w2)
    /\ os w2 = os w1.
Proof.
  intros Hw Hid Hnd Hwf Hfuel Hfuel2.
  destruct (performFullSync_healthy fuel batchSize w Hw Hid Hfuel)
    as (w1 & new & Hrun & Hw1 & Hm1 & Hos1 & _).
  destruct (performFullSync_healthy fuel2 batchSize2 w1 Hw1)
    as (w2 & new2 & Hrun2 & _ & _ & Hos2 & _); rewrite ?Hm1; try done.
  exists w1, w2. rewrite Hm1 in Hrun2. split_and!; try done.
  rewrite Hos2, Hm1, Hos1. by apply upsertAll_twice.
Qed.

Lemma performFullSync_twice_is_once_witness :
  let w := mkWorld (sampleAds 3) (indexOf [sampleAd 7 "Active"]) [] [] in
  exists w1 w2,
    performFullSync 4 2 w = (Ok (mkFullSync true 3 0 0), w1)
    /\ performFullSync 4 100 w1 = (Ok (mkFullSync true 3 0 0), w2)
    /\ os w2 = os w1.
Proof.
  intros w. apply (performFullSync_twice_is_once 4 4 2 100 w).
  - reflexivity.
  - repeat constructor; vm_compute; eauto.
  - unfold sourceIds. cbn [mongo w]. rewrite (sourceIds_sampleAds 3).
    apply (NoDup_sampleIds 3). vm_compute. discriminate.
  - repeat constructor; vm_compute; reflexivity.
  - vm_compute. lia.
  - vm_compute. lia.
Defined.

End FullSyncFacts.

(** ** The count monitor *)

Section MonitorRuns.
Import Json Runtime Observe DocumentCountMonitor.

Lemma keepsSource_ret {A} (a : A) : keepsSource (mret a).
Proof. done. Qed.

Lemma keepsSource_throw {A} e : keepsSource (@throw A e).
Proof. done. Qed.

Lemma keepsSource_driverCall ev : keepsSource (driverCall ev).
Proof. intros w. unfold exec, driverCall. by destruct (script w) as [|[] ?]. Qed.

Lemma keepsSource_bind {A B} (m : IO A) (f : A -> IO B) :
  keepsSource m -> (forall a, keepsSource (f a)) -> keepsSource (m ≫= f).
Proof.
  intros Hm Hf w. unfold keepsSource, exec in *. rewrite bind_run. specialize (Hm w).
  destruct (m w) as [[a| |] w1]; simpl in *; [|done..].
  specialize (Hf a w1). congruence.
Qed.

Lemma keepsSource_tryCatch {A} (m : IO A) h :
  keepsSource m -> (forall e, keepsSource (h e)) -> keepsSource (tryCatch m h).
Proof.
  intros Hm Hh w. unfold keepsSource, exec in *. rewrite tryCatch_eq. specialize (Hm w).
  destruct (m w) as [[a| |] w1]; simpl in *; [done| |done].
  specialize (Hh e w1). congruence.
Qed.

Lemma keepsSource_bulkIndex docs : keepsSource (OpenSearchService.bulkIndex docs).
Proof.
  unfold OpenSearchService.bulkIndex. destruct docs as [|d docs]; [done|].
  destruct (mapM _ _) as [body|]; [|done]. unfold Client.bulk.
  apply keepsSource_bind; [|done].
  apply keepsSource_bind; [apply keepsSource_driverCall|]. intros f.
  apply keepsSource_bind; [done|]. intros w'.
  apply keepsSource_bind; [done|done].
Qed.

Lemma findDocuments_run limit skip w :
  let n := if (limit =? 0)%nat then 1000%nat else limit in
  SyncService.findDocuments limit skip w
  = (match script w with
     | Throws e :: _ => Err e
     | _ => Ok (take n (drop skip (mongo w)))
     end, called (EvMongoFindPage skip n) w).
Proof.
  unfold SyncService.findDocuments, Collection.findPage. rewrite bind_run.
  unfold driverCall, called. by destruct (script w) as [|[] ?].
Qed.

Lemma settles_pageLoop fuel bs skip acc w :
  (0 < bs)%nat -> (length (mongo w) - skip < fuel)%nat ->
  outcome (SyncService.pageLoop fuel bs skip acc) w <> Diverge.
Proof.
  unfold outcome. revert skip acc w.
  induction fuel as [|fuel IH]; intros skip acc w Hbs Hfuel; [lia|].
  cbn [SyncService.pageLoop]. rewrite bind_run, findDocuments_run.
  rewrite (proj2 (Nat.eqb_neq bs 0)) by lia.
  set (w1 := called (EvMongoFindPage skip bs) w).
  set (page := take bs (drop skip (mongo w))).
  assert (length page <= length (mongo w) - skip)%nat as Hlen
    by (unfold page; rewrite length_take, length_drop; lia).
  destruct (match script w with
            | Throws e :: _ => Err e
            | _ => Ok page
            end) as [docs| |] eqn:Hfind; [|done|by destruct (script w) as [|[] ?]].
  assert (docs = page) as -> by (destruct (script w) as [|[] ?]; congruence).
  destruct (length page =? 0)%nat eqn:Hzero; [done|]. apply Nat.eqb_neq in Hzero.
  rewrite bind_run.
  match goal with
  | |- context [tryCatch ?m ?h w1] =>
      pose proof (settles_tryCatch m h) as Hs;
      pose proof (keepsSource_tryCatch m h) as Hk;
      destruct (tryCatch m h w1) as [[a| |] w2] eqn:Hturn
  end.
  - rewrite !bind_run. io_unfold. apply IH; [done|]. cbn [mongo].
    assert (mongo w2 = mongo w) as ->; [|lia].
    specialize (Hk ltac:(apply keepsSource_bind; [apply keepsSource_bulkIndex|done])
                  ltac:(done) w1).
    unfold exec in Hk. by rewrite Hturn in Hk.
  - done.
  - specialize (Hs ltac:(apply settles_bind; [apply settles_bulkIndex|intros; apply settles_ret])
                  ltac:(intros; apply settles_ret) w1).
    by rewrite Hturn in Hs.
Qed.

Lemma settles_postFullSync fuel w :
  (length (mongo w) < fuel)%nat -> outcome (postFullSync fuel) w <> Diverge.
Proof.
  intros Hfuel. unfold outcome, postFullSync. rewrite bind_run.
  pose proof (keepsSource_driverCall (EvHttpPost fullSyncUrl) w) as Hk.
  unfold exec in Hk.
  destruct (driverCall _ w) as [[f| |] w1] eqn:Hpost; [|done|].
  2:{ unfold driverCall in Hpost. by destruct (script w) as [|[] ?]. }
  rewrite tryCatch_eq. unfold SyncService.performFullSync. rewrite bind_run.
  rewrite countDocuments_run.
  destruct (script w1) as [|[|e|rej] s1]; try done.
  all: pose proof (settles_pageLoop fuel
                (if (1000 =? 0)%nat then 100%nat else 1000%nat) 0
                (SyncService.mkFullSync true 0 0 0) (called EvMongoCount w1)) as Hs.
  all: unfold outcome in Hs; cbn [Nat.eqb] in *.
  all: destruct (SyncService.pageLoop _ _ _ _ _) as [[a| |] w2]; [done|done|].
  all: apply Hs; [lia|]; cbn [mongo called]; simpl in Hk; rewrite Hk; lia.
Qed.

(** The trigger resolves whatever the full sync does. *)
Lemma triggerAutoSync_resolves fuel this w :
  (length (mongo w) < fuel)%nat ->
  exists w', triggerAutoSync fuel this w = (Ok (bumpTriggered this), w').
Proof.
  intros Hfuel. unfold triggerAutoSync. rewrite tryCatch_eq, bind_run.
  pose proof (settles_postFullSync fuel w Hfuel) as Hs. unfold outcome in Hs.
  destruct (postFullSync fuel w) as [[r| |] w1]; [|by eexists|done].
  io_unfold. by eexists.
Qed.

Lemma drop_tail {A} n (l : list A) : drop n (tail l) = drop (S n) l.
Proof. destruct l; [by destruct n|done]. Qed.

Lemma sample_checks ids w :
  forEach (fun id => tryCatch (_ ← Client.exists_ id; mret tt) (fun error => mret tt))
          ids w
  = (Ok tt, mkWorld (mongo w) (os w) (drop (length ids) (script w))
              (trace w ++ map EvOsExists ids)).
Proof.
  revert w. induction ids as [|id ids IH]; intros w.
  - simpl. rewrite app_nil_r. by destruct w.
  - cbn [forEach]. rewrite bind_run.
    assert (tryCatch (_ ← Client.exists_ id; mret tt) (fun error => mret tt) w
            = (Ok tt, called (EvOsExists id) w)) as ->.
    { rewrite tryCatch_eq, bind_run. unfold Client.exists_. rewrite bind_run.
      unfold driverCall, called. by destruct (script w) as [|[] ?]. }
    rewrite IH. unfold called. cbn [mongo os script trace length map].
    by rewrite drop_tail, <- app_assoc.
Qed.

Lemma logDetailedMismatchInfo_run (w : World) :
  let checks := match script w with
                | Throws _ :: _ => []
                | _ => default [] (mapM idOf (take 5 (mongo w)))
                end in
  logDetailedMismatchInfo w
  = (Ok tt, mkWorld (mongo w) (os w) (drop (S (length checks)) (script w))
              (trace w ++ EvMongoFindPage 0 5 :: map EvOsExists checks)).
Proof.
  unfold logDetailedMismatchInfo. rewrite tryCatch_eq, bind_run.
  unfold Collection.findPage. rewrite bind_run. unfold driverCall.
  destruct (match script w with Throws e :: _ => true | _ => false end) eqn:Hthrow.
  - by destruct (script w) as [|[|e|] s].
  - assert (match script w with
            | Throws e :: _ =>
                (Err e, mkWorld (mongo w) (os w) (tail (script w))
                          (trace w ++ [EvMongoFindPage 0 5]))
            | f :: _ =>
                (Ok f, mkWorld (mongo w) (os w) (tail (script w))
                         (trace w ++ [EvMongoFindPage 0 5]))
            | [] =>
                (Ok NoFault, mkWorld (mongo w) (os w) (tail (script w))
                               (trace w ++ [EvMongoFindPage 0 5]))
            end
            = (Ok (default NoFault (head (script w))),
               mkWorld (mongo w) (os w) (tail (script w))
                       (trace w ++ [EvMongoFindPage 0 5]))) as ->
      by (destruct (script w) as [|[] ?]; done).
    assert (match script w with
            | Throws _ :: _ => []
            | _ => default [] (mapM idOf (take 5 (mongo w)))
            end = default [] (mapM idOf (take 5 (mongo w)))) as ->
      by (destruct (script w) as [|[] ?]; done).
    io_unfold. rewrite drop_0.
    change (fun d : Fields => toString (jget "_id" d)) with idOf.
    destruct (mapM idOf (take 5 (mongo w))) as [ids|] eqn:Hids.
    + rewrite sample_checks. cbn [mongo os script trace default].
      by rewrite drop_tail, <- app_assoc.
    + cbn [length map default].
      by assert (drop 1 (script w) = tail (script w)) as ->
        by (by destruct (script w)).
Qed.

(** X25. The mismatch diagnostics never throw and only read: one query
    for the first 5 source documents and then, when the query is answered
    and every sampled document has an [_id], one existence check for each
    of the sampled identifiers, in order; no check at all when the query
    fails or a sampled document has no [_id].  Each call takes one answer
    of the backend, whatever it is, and nothing else is done. *)
Theorem logDetailedMismatchInfo_only_samples (w : World) :
  let checks := match script w with
                | Throws _ :: _ => []
                | _ => default [] (mapM idOf (take 5 (mongo w)))
                end in
  logDetailedMismatchInfo w
  = (Ok tt, mkWorld (mongo w) (os w) (drop (S (length checks)) (script w))
              (trace w ++ EvMongoFindPage 0 5 :: map EvOsExists checks))
  /\ (length checks <= 5)%nat
  /\ (forall ids,
        mapM idOf (take 5 (mongo w)) = Some ids ->
        (forall e rest, script w <> Throws e :: rest) ->
        checks = ids /\ length ids = (5 `min` length (mongo w))%nat)
  /\ ((exists e rest, script w = Throws e :: rest)
      \/ mapM idOf (take 5 (mongo w)) = None ->
      checks = []).
Proof.
  intros checks. split; [apply logDetailedMismatchInfo_run|].
  assert (length (default [] (mapM idOf (take 5 (mongo w)))) <= 5)%nat as Hlen.
  { destruct (mapM idOf (take 5 (mongo w))) as [ids|] eqn:Hids; simpl; [|lia].
    apply length_mapM in Hids. rewrite <- Hids, length_take. lia. }
  split_and!.
  - unfold checks. destruct (script w) as [|[] ?]; simpl; try lia; exact Hlen.
  - intros ids Hids Hans.
    assert (checks = ids) as ->.
    { unfold checks. rewrite Hids.
      destruct (script w) as [|[|e|] rest]; try done. by destruct (Hans e rest). }
    split; [done|]. apply length_mapM in Hids. by rewrite <- Hids, length_take.
  - unfold checks. intros [(e & rest & ->)| ->]; [done|].
    by destruct (script w) as [|[] ?].
Qed.



(** X27. Once both counts are answered [performCountCheck] resolves,
    whatever the backend does afterwards.  It returns the two counts, their
    absolute difference and whether they match; it counts one check, one
    mismatch if the counts differ, and one trigger if moreover auto-sync is
    enabled and the difference exceeds the threshold; the
    [autoSyncTriggered] it returns already includes that trigger; the two
    settings are left as they are. *)
Theorem performCountCheck_keeps_the_books (fuel : nat) (this : t) (w : World) :
  answers 2 w ->
  (length (mongo w) < fuel)%nat ->
  let mc := Z.of_nat (length (mongo w)) in
  let oc := Z.of_nat (size (os w)) in
  let mismatch := negb (mc =? oc) in
  let trigger := mismatch && autoSyncEnabled this
                 && (autoSyncThreshold this <? Z.abs (mc - oc)) in
  exists this' w',
    performCountCheck fuel this w
    = (Ok (mkCountCheck mc oc (Z.abs (mc - oc)) (negb mismatch)
             (autoSyncTriggered (stats this')), this'), w')
    /\ checksPerformed (stats this') = S (checksPerformed (stats this))
    /\ mismatchesDetected (stats this')
       = (mismatchesDetected (stats this) + if mismatch then 1 else 0)%nat
    /\ autoSyncTriggered (stats this')
       = (autoSyncTriggered (stats this) + if trigger then 1 else 0)%nat
    /\ autoSyncEnabled this' = autoSyncEnabled this
    /\ autoSyncThreshold this' = autoSyncThreshold this.
Proof.
  intros Hans Hfuel mc oc mismatch trigger. unfold performCountCheck.
  rewrite bind_run.
  destruct (promiseAll2_counts w) as (r & -> & Hok & _). rewrite (Hok Hans).
  cbn [fst snd]. fold mc oc.
  assert ((Z.abs (mc - oc) =? 0) = negb mismatch) as Hz.
  { unfold mismatch. rewrite negb_involutive.
    destruct (Z.eqb_spec mc oc), (Z.eqb_spec (Z.abs (mc - oc)) 0); try done; lia. }
  rewrite Hz. unfold trigger. destruct mismatch; cbn [negb andb].
  - rewrite !bind_run.
    rewrite (logDetailedMismatchInfo_run (called EvOsCount (called EvMongoCount w))).
    cbn [autoSyncEnabled autoSyncThreshold stats].
    destruct (autoSyncEnabled this && (autoSyncThreshold this <? Z.abs (mc - oc)))
      eqn:Hguard.
    + match goal with
      | |- context [triggerAutoSync fuel ?t ?w2] =>
          destruct (triggerAutoSync_resolves fuel t w2) as [w' ->]; [done|]
      end.
      io_unfold. eexists _, _. split; [reflexivity|].
      cbn. split_and!; try done; lia.
    + io_unfold. eexists _, _. split; [reflexivity|].
      cbn. split_and!; try done; lia.
  - io_unfold. eexists _, _. split; [reflexivity|].
    cbn. split_and!; try done; lia.
Qed.

Lemma performCountCheck_keeps_the_books_witness :
  let this := mkMonitor true 1 (mkStats 0 0 0) in
  let w := mkWorld (sampleAds 3) ∅
             [NoFault; NoFault; NoFault; Throws (mkError None "down")] [] in
  exists this' w',
    performCountCheck 4 this w
    = (Ok (mkCountCheck 3 0 3 false (autoSyncTriggered (stats this')), this'), w')
    /\ stats this' = mkStats 1 1 1.
Proof.
  intros this w.
  destruct (performCountCheck_keeps_the_books 4 this w)
    as (this' & w' & Hrun & Hc & Hm & Ht & _).
  - repeat constructor; discriminate.
  - vm_compute. lia.
  - exists this', w'. split; [exact Hrun|].
    destruct this' as [en th [c m t]]. cbn in Hc, Hm, Ht. by rewrite Hc, Hm, Ht.
Defined.

End MonitorRuns.

(** ** A failed page of the full sync *)

Section MoreRuns.
Import Json Runtime Observe SyncService.

(** X24. A page of the full sync whose bulk call is rejected is counted
    in [errors] and left out of [processed], and the sync goes on: the
    call still resolves with [success: true], and the documents behind the
    failed page are upserted. *)
Theorem performFullSync_counts_a_failed_page (fuel batchSize : nat) (w : World)
    (e : JsError) :
  script w = [NoFault; NoFault; Throws e] ->
  Forall (fun d => is_Some (idOf d)) (mongo w) ->
  mongo w <> [] ->
  (length (mongo w) < fuel)%nat ->
  let size := if (batchSize =? 0)%nat then 100%nat else batchSize in
  let lost := (size `min` length (mongo w))%nat in
  exists w',
    performFullSync fuel batchSize w
    = (Ok (mkFullSync true (length (mongo w) - lost) lost 0), w')
    /\ os w' = upsertAll (drop size (mongo w)) (os w).
Proof.
  intros Hs Hid Hne Hfuel size lost. unfold performFullSync. fold size.
  assert (0 < size)%nat as Hsize by (unfold size; destruct batchSize; simpl; lia).
  rewrite bind_run, countDocuments_run, Hs.
  destruct fuel as [|fuel]; [lia|]. cbn [pageLoop].
  set (w1 := called EvMongoCount w).
  assert (script w1 = [NoFault; Throws e]) as Hs1 by (unfold w1, called; cbn; by rewrite Hs).
  rewrite bind_run, findDocuments_run, Hs1.
  change (mongo w1) with (mongo w).
  rewrite (proj2 (Nat.eqb_neq size 0)) by lia.
  rewrite drop_0. set (page := take size (mongo w)).
  set (w2 := called (EvMongoFindPage 0 size) w1).
  assert (script w2 = [Throws e]) as Hs2 by (unfold w2, w1, called; cbn; by rewrite Hs).
  assert (length page = lost) as Hlen by (unfold page, lost; by rewrite length_take).
  assert (0 < lost)%nat as Hlost.
  { unfold lost. destruct (mongo w); [done|]. simpl. lia. }
  rewrite (proj2 (Nat.eqb_neq (length page) 0)) by lia.
  assert (Forall (fun d => is_Some (idOf d)) page) as Hpid
    by (unfold page; by apply Forall_take).
  destruct (mapM_bulkEntry_is_Some page Hpid) as [body Hbody].
  rewrite !bind_run, tryCatch_eq, bind_run.
  unfold OpenSearchService.bulkIndex.
  destruct page as [|d page'] eqn:Hpage; [simpl in Hlen; lia|]. rewrite <- Hpage in *.
  rewrite Hbody. unfold Client.bulk. rewrite !bind_run.
  rewrite (driverCall_throws _ w2 e [] Hs2).
  io_unfold.
  match goal with
  | |- context [pageLoop fuel size ?s ?a ?w3] =>
      destruct (pageLoop_healthy fuel size s a w3)
        as (w' & new & Hrun & _ & _ & Hos & _)
  end; try done.
  - unfold healthy. cbn [script]. by rewrite Hs2.
  - cbn [mongo]. rewrite Hlen. change (mongo w2) with (mongo w). lia.
  - exists w'. rewrite Hrun. cbn [mongo os processed errors versionConflicts] in *.
    change (mongo w2) with (mongo w) in *. change (os w2) with (os w) in *.
    rewrite Hlen in *. split; [done|].
    rewrite Hos. f_equal. cbn [Nat.add]. unfold lost.
    destruct (Nat.le_ge_cases size (length (mongo w))).
    + by rewrite Nat.min_l.
    + rewrite Nat.min_r by done. by rewrite !drop_ge.
Qed.

Lemma performFullSync_counts_a_failed_page_witness :
  let e := mkError (Some 503%nat) "Service Unavailable" in
  let w := mkWorld (sampleAds 3) ∅ [NoFault; NoFault; Throws e] [] in
  exists w',
    performFullSync 4 2 w = (Ok (mkFullSync true 1 2 0), w')
    /\ os w' = upsertAll (drop 2 (sampleAds 3)) ∅.
Proof.
  intros e w. apply (performFullSync_counts_a_failed_page 4 2 w e).
  - reflexivity.
  - repeat constructor; vm_compute; eauto.
  - discriminate.
  - vm_compute. lia.
Defined.

End MoreRuns.

(** ** String keys *)

Section KeyFacts.
Import Json Runtime Observe ReconciliationService.

(** X18. The query of [syncDocumentsByIds] finds a source document whose
    [_id] is a string exactly when that string is among the requested
    identifiers and is not accepted by [new ObjectId]: a string key of 24
    hex digits is turned into an ObjectId, which the string does not equal,
    so such a document is never fetched. *)
Theorem string_keys_are_fetched_unless_they_read_as_object_ids
    (ids : list string) (docs : list Fields) (d : Fields) (s : string) :
  d ∈ docs ->
  jget "_id" d = Some (JStr s) ->
  d ∈ Collection.matching (toObjectIds ids) docs
  <-> s ∈ ids /\ newObjectId s = None.
Proof.
  intros Hd Hid. unfold Collection.matching. rewrite list_elem_of_filter, Hid.
  split.
  - intros [Hsel _]. apply Is_true_true, existsb_exists in Hsel as (q & Hq & Heq).
    apply list_elem_of_In in Hq. unfold toObjectIds in Hq.
    apply list_elem_of_fmap in Hq as (id & -> & Hin).
    destruct (newObjectId id) as [o|] eqn:Hnew; simpl in Heq.
    + unfold newObjectId in Hnew. destruct (_ && _); [|done].
      by injection Hnew as <-.
    + apply String.eqb_eq in Heq as ->. done.
  - intros [Hin Hnew]. split; [|done]. apply Is_true_true, existsb_exists.
    exists (JStr s). split; [|simpl; by rewrite String.eqb_refl].
    apply list_elem_of_In. unfold toObjectIds. apply list_elem_of_fmap.
    exists s. by rewrite Hnew.
Qed.

Lemma string_keys_witness :
  let d := [("_id", JStr "ad-17"); ("status", JStr "Active")] in
  d ∈ Collection.matching (toObjectIds ["ad-17"]) [d].
Proof.
  intros d.
  apply (proj2 (string_keys_are_fetched_unless_they_read_as_object_ids
                  ["ad-17"] [d] d "ad-17" ltac:(apply list_elem_of_here) eq_refl)).
  split; [apply list_elem_of_here|reflexivity].
Defined.

End KeyFacts.
